(** * The waitlist subsystem: storage backends and HTTP routes

    A shallow embedding of [server/storage.ts] (the [IStorage] interface with
    its two implementations [MemStorage] and [DatabaseStorage]),
    [shared/schema.ts] (the two tables and their uniqueness constraints) and
    [server/routes.ts] (the four waitlist endpoints).

    Conventions of the embedding:
    - [randomUUID()], the database's [gen_random_uuid()] and [new Date()] are
      inputs of the operation that calls them: every operation takes the
      values it would draw as explicit arguments.
    - A [Promise] is modelled by its outcome: an operation maps the state of
      the store to a result (a value or a thrown exception) and a new state.
      [IStorage] has the outcomes the two implementations produce over a
      database that answers; [Async.IStorage] lets every promise reject.
    - A handler of [Routes] runs from the request to its response in one
      piece. Where it matters that another request is served between two
      awaits, the handler is split there ([resendLookup], [resendUpdate]).
    - A JavaScript [Map] is an association list in insertion order. *)

From Stdlib Require Import Ascii String List ZArith Bool Arith Lia.
Import ListNotations.
Open Scope string_scope.
Open Scope list_scope.

(** ** Data model ([shared/schema.ts]) *)

Definition Timestamp := Z.

Module User.
Record t := mk { id : string; username : string; password : string }.
End User.

Module InsertUser.
Record t := mk { username : string; password : string }.
End InsertUser.

Module WaitlistEmail.
Record t := mk
  { id : string;
    email : string;
    createdAt : Timestamp;
    confirmed : bool;
    confirmationToken : option string;
    confirmedAt : option Timestamp }.
End WaitlistEmail.

Module InsertWaitlistEmail.
Record t := mk { email : string }.
End InsertWaitlistEmail.

(** What a rejected promise carries. *)
Inductive Exn :=
| Error (message : string)
| ZodError (errors : list string)
| UniqueViolation (column : string).

Inductive Result (A : Type) :=
| Ok (a : A)
| Throw (e : Exn).
Arguments Ok {A} a.
Arguments Throw {A} e.

(** [waitlistEmail.confirmationToken === token] *)
Definition tokenIs (token : string) (w : WaitlistEmail.t) : bool :=
  match WaitlistEmail.confirmationToken w with
  | Some t => String.eqb t token
  | None => false
  end.

(** [confirmationToken === token && !confirmed], the condition of both
    [confirmEmail] implementations. *)
Definition confirmable (token : string) (w : WaitlistEmail.t) : bool :=
  tokenIs token w && negb (WaitlistEmail.confirmed w).

(** [{ ...w, confirmed: true, confirmedAt: new Date(), confirmationToken: null }] *)
Definition markConfirmed (now : Timestamp) (w : WaitlistEmail.t) : WaitlistEmail.t :=
  WaitlistEmail.mk (WaitlistEmail.id w) (WaitlistEmail.email w)
    (WaitlistEmail.createdAt w) true None (Some now).

(** [{ ...w, confirmationToken: newToken }] *)
Definition withToken (newToken : string) (w : WaitlistEmail.t) : WaitlistEmail.t :=
  WaitlistEmail.mk (WaitlistEmail.id w) (WaitlistEmail.email w)
    (WaitlistEmail.createdAt w) (WaitlistEmail.confirmed w) (Some newToken)
    (WaitlistEmail.confirmedAt w).

(** The tokens present in a sequence of entries (absent tokens skipped). *)
Fixpoint tokens (l : list WaitlistEmail.t) : list string :=
  match l with
  | [] => []
  | w :: l' =>
      match WaitlistEmail.confirmationToken w with
      | Some t => t :: tokens l'
      | None => tokens l'
      end
  end.

(** No string occurs twice. *)
Fixpoint distinct (l : list string) : bool :=
  match l with
  | [] => true
  | x :: l' => negb (existsb (String.eqb x) l') && distinct l'
  end.

(** The invariant of the data model on one entry: a confirmed entry has its
    confirmation time set and its token cleared. *)
Definition settled (w : WaitlistEmail.t) : Prop :=
  WaitlistEmail.confirmed w = true ->
  WaitlistEmail.confirmedAt w <> None /\ WaitlistEmail.confirmationToken w = None.


(** ** JavaScript [Map] with string keys

    [set] on a present key replaces the value in place, on an absent key
    appends; iteration ([entries], [values]) is in insertion order. *)
Module JsMap.
Definition t (V : Type) := list (string * V).

Definition empty {V} : t V := [].

Fixpoint get {V} (k : string) (m : t V) : option V :=
  match m with
  | [] => None
  | (k', v) :: m' => if String.eqb k' k then Some v else get k m'
  end.

Fixpoint set {V} (k : string) (v : V) (m : t V) : t V :=
  match m with
  | [] => [(k, v)]
  | (k', v') :: m' =>
      if String.eqb k' k then (k', v) :: m' else (k', v') :: set k v m'
  end.

Definition size {V} (m : t V) : nat := length m.
Definition entries {V} (m : t V) : list (string * V) := m.
Definition keys {V} (m : t V) : list string := map fst m.
Definition values {V} (m : t V) : list V := map snd m.

(** A [Map] holds each key once. *)
Definition ok {V} (m : t V) : Prop := NoDup (keys m).
End JsMap.

(** ** [class MemStorage implements IStorage] *)
Module MemStorage.
Record t := mk
  { users : JsMap.t User.t;
    waitlistEmails : JsMap.t WaitlistEmail.t }.

(** [constructor()] *)
Definition new : t := mk JsMap.empty JsMap.empty.

Definition getUser (id : string) (s : t) : option User.t :=
  JsMap.get id (users s).

Definition getUserByUsername (username : string) (s : t) : option User.t :=
  find (fun user => String.eqb (User.username user) username)
       (JsMap.values (users s)).

Definition createUser (id : string) (insertUser : InsertUser.t) (s : t)
  : Result User.t * t :=
  let user := User.mk id (InsertUser.username insertUser)
                      (InsertUser.password insertUser) in
  (Ok user, mk (JsMap.set id user (users s)) (waitlistEmails s)).

Definition addToWaitlist (id confirmationToken : string) (now : Timestamp)
    (insertWaitlistEmail : InsertWaitlistEmail.t) (s : t)
  : Result WaitlistEmail.t * t :=
  let waitlistEmail :=
    WaitlistEmail.mk id (InsertWaitlistEmail.email insertWaitlistEmail)
      now false (Some confirmationToken) None in
  (Ok waitlistEmail,
   mk (users s)
      (JsMap.set (WaitlistEmail.email waitlistEmail) waitlistEmail
                 (waitlistEmails s))).

Definition getWaitlistEmail (email : string) (s : t) : option WaitlistEmail.t :=
  JsMap.get email (waitlistEmails s).

Definition getWaitlistCount (s : t) : nat := JsMap.size (waitlistEmails s).

Definition confirmEmail (now : Timestamp) (token : string) (s : t)
  : option WaitlistEmail.t * t :=
  match find (fun entry => confirmable token (snd entry))
             (JsMap.entries (waitlistEmails s)) with
  | Some (email, waitlistEmail) =>
      let confirmedEmail := markConfirmed now waitlistEmail in
      (Some confirmedEmail,
       mk (users s) (JsMap.set email confirmedEmail (waitlistEmails s)))
  | None => (None, s)
  end.

Definition getWaitlistEmailByToken (token : string) (s : t)
  : option WaitlistEmail.t :=
  find (tokenIs token) (JsMap.values (waitlistEmails s)).

Definition regenerateConfirmationToken (newToken : string) (email : string)
    (s : t) : Result string * t :=
  match JsMap.get email (waitlistEmails s) with
  | Some waitlistEmail =>
      let updatedEmail := withToken newToken waitlistEmail in
      (Ok newToken,
       mk (users s) (JsMap.set email updatedEmail (waitlistEmails s)))
  | None => (Throw (Error "Email not found"), s)
  end.

(** The stored entries, in iteration order. *)
Definition rows (s : t) : list WaitlistEmail.t :=
  JsMap.values (waitlistEmails s).

(** What every state of the store satisfies: the [Map] holds each key
    once, and no two entries carry the same token ([randomUUID()] does not
    repeat itself). *)
Definition invariant (s : t) : Prop :=
  JsMap.ok (waitlistEmails s) /\ NoDup (tokens (rows s)).
End MemStorage.

(** ** [class DatabaseStorage implements IStorage]

    The database is the pair of tables of [shared/schema.ts]. A table is the
    list of its rows. The constraints of the schema are enforced by the
    statements: [id] is the primary key, [users.username],
    [waitlist_emails.email] and [waitlist_emails.confirmation_token] are
    [unique()] (a null token never clashes). A statement that would break a
    constraint throws and changes nothing. *)
Module DatabaseStorage.
Record t := mk
  { users : list User.t;
    waitlistEmails : list WaitlistEmail.t }.

Definition new : t := mk [] [].

(** [const [user] = await db.insert(users).values(..).returning()], with
    [id] defaulting to [gen_random_uuid()]: the inserted row, which is the
    one row [returning()] yields. *)
Definition insertUser (row : User.t) (tbl : list User.t)
  : Result User.t * list User.t :=
  if existsb (fun r => String.eqb (User.id r) (User.id row)) tbl
  then (Throw (UniqueViolation "id"), tbl)
  else if existsb (fun r => String.eqb (User.username r) (User.username row)) tbl
  then (Throw (UniqueViolation "username"), tbl)
  else (Ok row, tbl ++ [row]).

(** [const [waitlistEmail] =
     await db.insert(waitlistEmails).values(..).returning()] *)
Definition insertWaitlistEmail (row : WaitlistEmail.t)
    (tbl : list WaitlistEmail.t)
  : Result WaitlistEmail.t * list WaitlistEmail.t :=
  if existsb (fun r => String.eqb (WaitlistEmail.id r) (WaitlistEmail.id row)) tbl
  then (Throw (UniqueViolation "id"), tbl)
  else if existsb (fun r => String.eqb (WaitlistEmail.email r)
                                       (WaitlistEmail.email row)) tbl
  then (Throw (UniqueViolation "email"), tbl)
  else if match WaitlistEmail.confirmationToken row with
          | Some token => existsb (tokenIs token) tbl
          | None => false
          end
  then (Throw (UniqueViolation "confirmation_token"), tbl)
  else (Ok row, tbl ++ [row]).

(** [db.update(..).set(..).where(..).returning()]: every row the condition
    selects is rewritten in place; the rewritten rows are returned. *)
Definition update (where_ : WaitlistEmail.t -> bool)
    (set_ : WaitlistEmail.t -> WaitlistEmail.t) (tbl : list WaitlistEmail.t)
  : list WaitlistEmail.t * list WaitlistEmail.t :=
  (map set_ (filter where_ tbl),
   map (fun r => if where_ r then set_ r else r) tbl).

(** [update .. set confirmation_token = newToken where ..]: the new value
    must not be the token of a row left alone, nor be given to two rows. *)
Definition updateToken (where_ : WaitlistEmail.t -> bool) (newToken : string)
    (tbl : list WaitlistEmail.t)
  : Result (list WaitlistEmail.t) * list WaitlistEmail.t :=
  match filter where_ tbl with
  | [] => (Ok [], tbl)
  | _ :: others =>
      if existsb (fun r => negb (where_ r) && tokenIs newToken r) tbl
         || negb (Nat.eqb (length others) 0)
      then (Throw (UniqueViolation "confirmation_token"), tbl)
      else let (returned, tbl') := update where_ (withToken newToken) tbl in
           (Ok returned, tbl')
  end.

Definition getUser (id : string) (s : t) : option User.t :=
  find (fun r => String.eqb (User.id r) id) (users s).

Definition getUserByUsername (username : string) (s : t) : option User.t :=
  find (fun r => String.eqb (User.username r) username) (users s).

Definition createUser (id : string) (insertUser_ : InsertUser.t) (s : t)
  : Result User.t * t :=
  let row := User.mk id (InsertUser.username insertUser_)
                     (InsertUser.password insertUser_) in
  match insertUser row (users s) with
  | (Ok user, tbl') => (Ok user, mk tbl' (waitlistEmails s))
  | (Throw e, _) => (Throw e, s)
  end.

Definition addToWaitlist (id confirmationToken : string) (now : Timestamp)
    (insertWaitlistEmail_ : InsertWaitlistEmail.t) (s : t)
  : Result WaitlistEmail.t * t :=
  let row :=
    WaitlistEmail.mk id (InsertWaitlistEmail.email insertWaitlistEmail_)
      now false (Some confirmationToken) None in
  match insertWaitlistEmail row (waitlistEmails s) with
  | (Ok waitlistEmail, tbl') => (Ok waitlistEmail, mk (users s) tbl')
  | (Throw e, _) => (Throw e, s)
  end.

Definition getWaitlistEmail (email : string) (s : t) : option WaitlistEmail.t :=
  find (fun r => String.eqb (WaitlistEmail.email r) email) (waitlistEmails s).

Definition getWaitlistCount (s : t) : nat := length (waitlistEmails s).

Definition confirmEmail (now : Timestamp) (token : string) (s : t)
  : option WaitlistEmail.t * t :=
  let (returned, tbl') :=
    update (confirmable token) (markConfirmed now) (waitlistEmails s) in
  (hd_error returned, mk (users s) tbl').

Definition getWaitlistEmailByToken (token : string) (s : t)
  : option WaitlistEmail.t :=
  find (tokenIs token) (waitlistEmails s).

Definition regenerateConfirmationToken (newToken : string) (email : string)
    (s : t) : Result string * t :=
  match updateToken (fun r => String.eqb (WaitlistEmail.email r) email)
                    newToken (waitlistEmails s) with
  | (Ok (updatedEmail :: _), tbl') => (Ok newToken, mk (users s) tbl')
  | (Ok [], _) => (Throw (Error "Email not found"), s)
  | (Throw e, _) => (Throw e, s)
  end.

Definition rows (s : t) : list WaitlistEmail.t := waitlistEmails s.

(** The constraints of [waitlist_emails]. *)
Definition constraints (s : t) : Prop :=
  NoDup (map WaitlistEmail.id (waitlistEmails s)) /\
  NoDup (map WaitlistEmail.email (waitlistEmails s)) /\
  NoDup (tokens (waitlistEmails s)).
End DatabaseStorage.

(** ** [interface IStorage] *)
Class IStorage (S : Type) := {
  getUser : string -> S -> option User.t;
  getUserByUsername : string -> S -> option User.t;
  createUser : string -> InsertUser.t -> S -> Result User.t * S;
  addToWaitlist :
    string -> string -> Timestamp -> InsertWaitlistEmail.t -> S ->
    Result WaitlistEmail.t * S;
  getWaitlistEmail : string -> S -> option WaitlistEmail.t;
  getWaitlistCount : S -> nat;
  confirmEmail : Timestamp -> string -> S -> option WaitlistEmail.t * S;
  getWaitlistEmailByToken : string -> S -> option WaitlistEmail.t;
  regenerateConfirmationToken : string -> string -> S -> Result string * S
}.

#[export] Instance memStorage : IStorage MemStorage.t := {
  getUser := MemStorage.getUser;
  getUserByUsername := MemStorage.getUserByUsername;
  createUser := MemStorage.createUser;
  addToWaitlist := MemStorage.addToWaitlist;
  getWaitlistEmail := MemStorage.getWaitlistEmail;
  getWaitlistCount := MemStorage.getWaitlistCount;
  confirmEmail := MemStorage.confirmEmail;
  getWaitlistEmailByToken := MemStorage.getWaitlistEmailByToken;
  regenerateConfirmationToken := MemStorage.regenerateConfirmationToken
}.

#[export] Instance databaseStorage : IStorage DatabaseStorage.t := {
  getUser := DatabaseStorage.getUser;
  getUserByUsername := DatabaseStorage.getUserByUsername;
  createUser := DatabaseStorage.createUser;
  addToWaitlist := DatabaseStorage.addToWaitlist;
  getWaitlistEmail := DatabaseStorage.getWaitlistEmail;
  getWaitlistCount := DatabaseStorage.getWaitlistCount;
  confirmEmail := DatabaseStorage.confirmEmail;
  getWaitlistEmailByToken := DatabaseStorage.getWaitlistEmailByToken;
  regenerateConfirmationToken := DatabaseStorage.regenerateConfirmationToken
}.

(** ** [server/routes.ts] *)
Module Routes.
(** A parsed JSON request body, and the body of a response. *)
#[local] Unset Elimination Schemes.
Inductive Json :=
| JNull
| JBool (b : bool)
| JNumber (n : Z)
| JString (s : string)
| JArray (items : list Json)
| JObject (fields : list (string * Json)).
#[local] Set Elimination Schemes.

(** [res.status(status).json(body)] *)
Record Response := respond { status : nat; body : list (string * Json) }.

Fixpoint field (name : string) (fields : list (string * Json)) : option Json :=
  match fields with
  | [] => None
  | (k, v) :: rest => if String.eqb k name then Some v else field name rest
  end.

(** [error.errors[0]?.message || "Invalid email format"] *)
Definition firstMessage (errors : list string) : string :=
  match errors with
  | m :: _ => if String.eqb m "" then "Invalid email format" else m
  | [] => "Invalid email format"
  end.

(** The [catch] block shared by the two handlers that parse a body. *)
Definition onError (error : Exn) : Response :=
  match error with
  | ZodError errors => respond 400 [("message", JString (firstMessage errors))]
  | _ => respond 500 [("message", JString "Internal server error")]
  end.

Section Handlers.
(** zod's format check behind [z.string().email(..)], and the message
    zod gives a value of the wrong type (expected type, received
    value): both belong to the library. *)
Variable isEmail : string -> bool.
Variable invalidType : string -> option Json -> string.
(** [process.env.NODE_ENV] *)
Variable NODE_ENV : option string.

Context {S : Type} {storage : IStorage S}.

(** The body of a handler: it reads and writes the store and may throw. *)
Definition Handler (A : Type) := S -> Result A * S.

Definition ret {A} (a : A) : Handler A := fun s => (Ok a, s).
Definition lift {A} (r : Result A) : Handler A := fun s => (r, s).
Definition await {A} (read : S -> A) : Handler A := fun s => (Ok (read s), s).
Definition run {A} (op : S -> A * S) : Handler A :=
  fun s => let (a, s') := op s in (Ok a, s').
Definition bind {A B} (m : Handler A) (k : A -> Handler B) : Handler B :=
  fun s =>
    match m s with
    | (Ok a, s') => k a s'
    | (Throw e, s') => (Throw e, s')
    end.

(** [try { .. } catch (error) { .. }] *)
Definition tryCatch (m : Handler Response) (handler : Exn -> Response)
  : S -> Response * S :=
  fun s =>
    match m s with
    | (Ok r, s') => (r, s')
    | (Throw e, s') => (handler e, s')
    end.

Notation "x <- m ;; k" := (bind m (fun x => k))
  (at level 61, m at next level, right associativity).

(** [z.object({ email: z.string().email(..) }).parse(req.body)], which
    is also what [insertWaitlistEmailSchema.parse] does. *)
Definition parse (body : option Json) : Result InsertWaitlistEmail.t :=
  match body with
  | Some (JObject fields) =>
      match field "email" fields with
      | Some (JString email) =>
          if isEmail email then Ok (InsertWaitlistEmail.mk email)
          else Throw (ZodError ["Please enter a valid email address"])
      | other => Throw (ZodError [invalidType "string" other])
      end
  | other => Throw (ZodError [invalidType "object" other])
  end.

(** [app.post("/api/waitlist", ..)] *)
Definition postWaitlist (id token : string) (now : Timestamp)
    (body : option Json) : S -> Response * S :=
  tryCatch
    (validatedData <- lift (parse body) ;;
     existingEmail <-
       await (getWaitlistEmail (InsertWaitlistEmail.email validatedData)) ;;
     match existingEmail with
     | Some _ =>
         ret (respond 409
                [("message", JString "Email already registered for waitlist")])
     | None =>
         waitlistEmail <- addToWaitlist id token now validatedData ;;
         ret (respond 201
                [("message", JString "Successfully added to waitlist");
                 ("email", JString (WaitlistEmail.email waitlistEmail))])
     end)
    onError.

(** [app.get("/api/waitlist/count", ..)] *)
Definition getCount : S -> Response * S :=
  tryCatch
    (count <- await getWaitlistCount ;;
     ret (respond 200 [("count", JNumber (Z.of_nat count))]))
    (fun _ => respond 500 [("message", JString "Internal server error")]).

(** [app.post("/api/waitlist/confirm/:token", ..)] *)
Definition postConfirm (now : Timestamp) (token : string)
  : S -> Response * S :=
  tryCatch
    (if String.eqb token "" then
       ret (respond 400 [("message", JString "Confirmation token is required")])
     else
       confirmed <- run (confirmEmail now token) ;;
       match confirmed with
       | None =>
           ret (respond 404
                  [("message", JString "Invalid or expired confirmation token")])
       | Some _ =>
           ret (respond 200
                  [("message", JString "Email confirmed successfully");
                   ("confirmed", JBool true)])
       end)
    (fun _ => respond 500 [("message", JString "Internal server error")]).

(** [app.post("/api/waitlist/resend-confirmation", ..)] *)
Definition postResendConfirmation (newToken : string) (body : option Json)
  : S -> Response * S :=
  tryCatch
    (validatedData <- lift (parse body) ;;
     waitlistEntry <-
       await (getWaitlistEmail (InsertWaitlistEmail.email validatedData)) ;;
     match waitlistEntry with
     | None =>
         ret (respond 404 [("message", JString "Email not found in waitlist")])
     | Some entry =>
         if WaitlistEmail.confirmed entry then
           ret (respond 400 [("message", JString "Email is already confirmed")])
         else
           newToken' <-
             regenerateConfirmationToken newToken
               (InsertWaitlistEmail.email validatedData) ;;
           ret (respond 200
                  (("message", JString "Confirmation email resent") ::
                   match NODE_ENV with
                   | Some "development" => [("token", JString newToken')]
                   | _ => []
                   end))
     end)
    onError.
End Handlers.
End Routes.

(** ** Sequences of storage calls

    A call carries the values the operation draws ([randomUUID()],
    [new Date()]) next to its arguments. *)
Inductive Call :=
| CreateUser (id : string) (insertUser : InsertUser.t)
| AddToWaitlist (id token : string) (now : Timestamp)
                (insertWaitlistEmail : InsertWaitlistEmail.t)
| ConfirmEmail (now : Timestamp) (token : string)
| RegenerateConfirmationToken (newToken email : string).

(** [randomUUID()] returns a token that no stored entry carries. *)
Definition drawsFreshToken (stored : list WaitlistEmail.t) (c : Call) : Prop :=
  match c with
  | AddToWaitlist _ token _ _ => ~ In token (tokens stored)
  | RegenerateConfirmationToken newToken _ => ~ In newToken (tokens stored)
  | _ => True
  end.


Section Calls.
Context {S : Type} {storage : IStorage S}.

(** The state after one call. *)
Definition call (c : Call) (s : S) : S :=
  match c with
  | CreateUser id u => snd (createUser id u s)
  | AddToWaitlist id token now e => snd (addToWaitlist id token now e s)
  | ConfirmEmail now token => snd (confirmEmail now token s)
  | RegenerateConfirmationToken newToken email =>
      snd (regenerateConfirmationToken newToken email s)
  end.

(** Whether the call is an [addToWaitlist] that resolves (does not throw). *)
Definition addSucceeds (c : Call) (s : S) : bool :=
  match c with
  | AddToWaitlist id token now e =>
      match fst (addToWaitlist id token now e s) with
      | Ok _ => true
      | Throw _ => false
      end
  | _ => false
  end.

(** The condition under which the resend route reaches
    [regenerateConfirmationToken]: the entry of the email is not confirmed. *)
Definition regeneratesUnconfirmed (c : Call) (s : S) : Prop :=
  match c with
  | RegenerateConfirmationToken _ email =>
      forall w, getWaitlistEmail email s = Some w ->
                WaitlistEmail.confirmed w = false
  | _ => True
  end.

(** Along a run every generated token is fresh where it is generated. *)
Fixpoint freshRun (stored : S -> list WaitlistEmail.t) (cs : list Call) (s : S)
  : Prop :=
  match cs with
  | [] => True
  | c :: cs' => drawsFreshToken (stored s) c /\ freshRun stored cs' (call c s)
  end.

(** Runs the calls in order; returns how many [addToWaitlist] calls
    succeeded and the final state. *)
Fixpoint calls (cs : list Call) (s : S) : nat * S :=
  match cs with
  | [] => (0, s)
  | c :: cs' =>
      let (n, s') := calls cs' (call c s) in
      ((if addSucceeds c s then 1 else 0) + n, s')
  end.
End Calls.

(** ** A sample session

    One address signs up, confirms, and is then submitted again; or asks
    for a new token. *)
Module Sample.
Definition address : InsertWaitlistEmail.t := InsertWaitlistEmail.mk "a@b.com".
Definition signup : Call := AddToWaitlist "id-1" "token-A" 1000%Z address.
Definition confirm : Call := ConfirmEmail 2000%Z "token-A".
Definition signupAgain : Call := AddToWaitlist "id-2" "token-B" 3000%Z address.
Definition resend : Call := RegenerateConfirmationToken "token-C" "a@b.com".

Definition pending : WaitlistEmail.t :=
  WaitlistEmail.mk "id-1" "a@b.com" 1000%Z false (Some "token-A") None.
Definition confirmed : WaitlistEmail.t :=
  WaitlistEmail.mk "id-1" "a@b.com" 1000%Z true None (Some 2000%Z).
Definition replaced : WaitlistEmail.t :=
  WaitlistEmail.mk "id-2" "a@b.com" 3000%Z false (Some "token-B") None.

(** The two stores after signup and confirmation. *)
Definition memConfirmed : MemStorage.t :=
  MemStorage.mk [] [("a@b.com", confirmed)].
Definition dbConfirmed : DatabaseStorage.t :=
  DatabaseStorage.mk [] [confirmed].
Definition memPending : MemStorage.t :=
  MemStorage.mk [] [("a@b.com", pending)].
Definition dbPending : DatabaseStorage.t :=
  DatabaseStorage.mk [] [pending].
End Sample.

(** ** A store with a user and three entries

    [a@b.com] of the sample session stands between two addresses that have
    signed up and not confirmed; one user is registered. *)
Module Populated.
Definition user : User.t := User.mk "u-1" "ann" "secret".
Definition first : WaitlistEmail.t :=
  WaitlistEmail.mk "id-0" "c@d.org" 500%Z false (Some "token-Z") None.
Definition last : WaitlistEmail.t :=
  WaitlistEmail.mk "id-9" "e@f.net" 900%Z false (Some "token-Y") None.

(** Before [a@b.com] confirms. *)
Definition mem : MemStorage.t :=
  MemStorage.mk [("u-1", user)]
    [("c@d.org", first); ("a@b.com", Sample.pending); ("e@f.net", last)].
Definition db : DatabaseStorage.t :=
  DatabaseStorage.mk [user] [first; Sample.pending; last].

(** After it has confirmed. *)
Definition memConfirmed : MemStorage.t :=
  MemStorage.mk [("u-1", user)]
    [("c@d.org", first); ("a@b.com", Sample.confirmed); ("e@f.net", last)].
Definition dbConfirmed : DatabaseStorage.t :=
  DatabaseStorage.mk [user] [first; Sample.confirmed; last].

End Populated.

(** ** A sample request

    Stand-ins for the two library functions the routes take as parameters,
    and two request bodies. *)
Module SampleRequest.
(** An address has an [@]. *)
Fixpoint looksLikeEmail (s : string) : bool :=
  match s with
  | EmptyString => false
  | String c s' => Ascii.eqb c "@"%char || looksLikeEmail s'
  end.

Definition typeMessage (expected : string) (received : option Routes.Json)
  : string :=
  match received with
  | None => "Required"
  | Some _ => String.append "Expected " expected
  end.

Definition goodBody : option Routes.Json :=
  Some (Routes.JObject [("email", Routes.JString "a@b.com")]).
Definition badBody : option Routes.Json :=
  Some (Routes.JObject [("email", Routes.JString "bad-email")]).
End SampleRequest.

(** ** Requests

    [registerRoutes] installs the four handlers; a request names one of them
    and carries what the handler reads from it and what it draws. *)
Inductive Request :=
| Join (id token : string) (now : Timestamp) (body : option Routes.Json)
| Count
| Confirm (now : Timestamp) (token : string)
| Resend (newToken : string) (body : option Routes.Json).

Section Server.
Variable isEmail : string -> bool.
Variable invalidType : string -> option Routes.Json -> string.
Variable NODE_ENV : option string.
Context {S : Type} {storage : IStorage S}.

Definition handle (r : Request) (s : S) : Routes.Response * S :=
  match r with
  | Join id token now body =>
      Routes.postWaitlist isEmail invalidType id token now body s
  | Count => Routes.getCount s
  | Confirm now token => Routes.postConfirm now token s
  | Resend newToken body =>
      Routes.postResendConfirmation isEmail invalidType NODE_ENV newToken body s
  end.

(** Requests served one after the other. *)
Fixpoint serve (rs : list Request) (s : S) : list Routes.Response * S :=
  match rs with
  | [] => ([], s)
  | r :: rs' =>
      let (response, s') := handle r s in
      let (responses, s'') := serve rs' s' in
      (response :: responses, s'')
  end.
End Server.

(** ** The interface when a promise may reject

    Every method of [IStorage] returns a [Promise]. Behind
    [DatabaseStorage] each of them awaits a query, and a query rejects when
    the database fails, the reads and [confirmEmail] like the others.
    [Async.IStorage] gives every method both outcomes, and the handlers
    of [Async] are the four handlers of [server/routes.ts] over it: each
    [await] is a step that may throw into the handler's [catch]. *)
Module Async.
Class IStorage (S : Type) := {
  getUser : string -> S -> Result (option User.t) * S;
  getUserByUsername : string -> S -> Result (option User.t) * S;
  createUser : string -> InsertUser.t -> S -> Result User.t * S;
  addToWaitlist :
    string -> string -> Timestamp -> InsertWaitlistEmail.t -> S ->
    Result WaitlistEmail.t * S;
  getWaitlistEmail : string -> S -> Result (option WaitlistEmail.t) * S;
  getWaitlistCount : S -> Result nat * S;
  confirmEmail : Timestamp -> string -> S -> Result (option WaitlistEmail.t) * S;
  getWaitlistEmailByToken : string -> S -> Result (option WaitlistEmail.t) * S;
  regenerateConfirmationToken : string -> string -> S -> Result string * S
}.

Section Handlers.
Variable isEmail : string -> bool.
Variable invalidType : string -> option Routes.Json -> string.
Variable NODE_ENV : option string.

Context {S : Type} {storage : IStorage S}.

Notation "x <- m ;; k" := (Routes.bind m (fun x => k))
  (at level 61, m at next level, right associativity).

(** [app.post("/api/waitlist", ..)] *)
Definition postWaitlist (id token : string) (now : Timestamp)
    (body : option Routes.Json) : S -> Routes.Response * S :=
  Routes.tryCatch
    (validatedData <- Routes.lift (Routes.parse isEmail invalidType body) ;;
     existingEmail <- getWaitlistEmail (InsertWaitlistEmail.email validatedData) ;;
     match existingEmail with
     | Some _ =>
         Routes.ret
           (Routes.respond 409
              [("message", Routes.JString "Email already registered for waitlist")])
     | None =>
         waitlistEmail <- addToWaitlist id token now validatedData ;;
         Routes.ret
           (Routes.respond 201
              [("message", Routes.JString "Successfully added to waitlist");
               ("email", Routes.JString (WaitlistEmail.email waitlistEmail))])
     end)
    Routes.onError.

(** [app.get("/api/waitlist/count", ..)] *)
Definition getCount : S -> Routes.Response * S :=
  Routes.tryCatch
    (count <- getWaitlistCount ;;
     Routes.ret (Routes.respond 200 [("count", Routes.JNumber (Z.of_nat count))]))
    (fun _ =>
       Routes.respond 500 [("message", Routes.JString "Internal server error")]).

(** [app.post("/api/waitlist/confirm/:token", ..)] *)
Definition postConfirm (now : Timestamp) (token : string)
  : S -> Routes.Response * S :=
  Routes.tryCatch
    (if String.eqb token "" then
       Routes.ret
         (Routes.respond 400
            [("message", Routes.JString "Confirmation token is required")])
     else
       confirmed <- confirmEmail now token ;;
       match confirmed with
       | None =>
           Routes.ret
             (Routes.respond 404
                [("message",
                  Routes.JString "Invalid or expired confirmation token")])
       | Some _ =>
           Routes.ret
             (Routes.respond 200
                [("message", Routes.JString "Email confirmed successfully");
                 ("confirmed", Routes.JBool true)])
       end)
    (fun _ =>
       Routes.respond 500 [("message", Routes.JString "Internal server error")]).

(** [app.post("/api/waitlist/resend-confirmation", ..)] *)
Definition postResendConfirmation (newToken : string)
    (body : option Routes.Json) : S -> Routes.Response * S :=
  Routes.tryCatch
    (validatedData <- Routes.lift (Routes.parse isEmail invalidType body) ;;
     waitlistEntry <- getWaitlistEmail (InsertWaitlistEmail.email validatedData) ;;
     match waitlistEntry with
     | None =>
         Routes.ret
           (Routes.respond 404
              [("message", Routes.JString "Email not found in waitlist")])
     | Some entry =>
         if WaitlistEmail.confirmed entry then
           Routes.ret
             (Routes.respond 400
                [("message", Routes.JString "Email is already confirmed")])
         else
           newToken' <-
             regenerateConfirmationToken newToken
               (InsertWaitlistEmail.email validatedData) ;;
           Routes.ret
             (Routes.respond 200
                (("message", Routes.JString "Confirmation email resent") ::
                 match NODE_ENV with
                 | Some "development" => [("token", Routes.JString newToken')]
                 | _ => []
                 end))
     end)
    Routes.onError.

Definition handle (r : Request) (s : S) : Routes.Response * S :=
  match r with
  | Join id token now body => postWaitlist id token now body s
  | Count => getCount s
  | Confirm now token => postConfirm now token s
  | Resend newToken body => postResendConfirmation newToken body s
  end.
End Handlers.
End Async.

(** A store whose reads always resolve and whose writes reject only where
    the operation itself throws: [MemStorage], and [DatabaseStorage] over a
    database that answers. *)
Definition resolving {S : Type} (storage : IStorage S) : Async.IStorage S := {|
  Async.getUser := fun id s => (Ok (getUser id s), s);
  Async.getUserByUsername := fun username s => (Ok (getUserByUsername username s), s);
  Async.createUser := createUser;
  Async.addToWaitlist := addToWaitlist;
  Async.getWaitlistEmail := fun email s => (Ok (getWaitlistEmail email s), s);
  Async.getWaitlistCount := fun s => (Ok (getWaitlistCount s), s);
  Async.confirmEmail :=
    fun now token s => let (confirmed, s') := confirmEmail now token s in
                       (Ok confirmed, s');
  Async.getWaitlistEmailByToken :=
    fun token s => (Ok (getWaitlistEmailByToken token s), s);
  Async.regenerateConfirmationToken := regenerateConfirmationToken
|}.

(** A database that is down: every query rejects, nothing is stored. *)
Definition unreachable : Async.IStorage unit := {|
  Async.getUser := fun _ s => (Throw (Error "connection refused"), s);
  Async.getUserByUsername := fun _ s => (Throw (Error "connection refused"), s);
  Async.createUser := fun _ _ s => (Throw (Error "connection refused"), s);
  Async.addToWaitlist := fun _ _ _ _ s => (Throw (Error "connection refused"), s);
  Async.getWaitlistEmail := fun _ s => (Throw (Error "connection refused"), s);
  Async.getWaitlistCount := fun s => (Throw (Error "connection refused"), s);
  Async.confirmEmail := fun _ _ s => (Throw (Error "connection refused"), s);
  Async.getWaitlistEmailByToken := fun _ s => (Throw (Error "connection refused"), s);
  Async.regenerateConfirmationToken :=
    fun _ _ s => (Throw (Error "connection refused"), s)
|}.

(** The request gets as far as the first storage call of its handler. *)
Definition reachesStorage (isEmail : string -> bool)
    (invalidType : string -> option Routes.Json -> string) (r : Request) : Prop :=
  match r with
  | Join _ _ _ body | Resend _ body =>
      exists validatedData, Routes.parse isEmail invalidType body = Ok validatedData
  | Count => True
  | Confirm _ token => token <> ""
  end.

(** ** The resend handler in its two steps

    The handler of [/api/waitlist/resend-confirmation] awaits the store
    twice, for the lookup of the entry and for the update of its token, and
    another request can be served in between. [resendLookup] is the handler
    up to its checks: the response it ends with, or the parsed body it goes
    on with. [resendUpdate] is the handler from there on. *)
Section ResendSteps.
Variable isEmail : string -> bool.
Variable invalidType : string -> option Routes.Json -> string.
Variable NODE_ENV : option string.
Context {S : Type} {storage : IStorage S}.

Definition resendLookup (body : option Routes.Json) (s : S)
  : Routes.Response + InsertWaitlistEmail.t :=
  match Routes.parse isEmail invalidType body with
  | Throw error => inl (Routes.onError error)
  | Ok validatedData =>
      match getWaitlistEmail (InsertWaitlistEmail.email validatedData) s with
      | None =>
          inl (Routes.respond 404
                 [("message", Routes.JString "Email not found in waitlist")])
      | Some entry =>
          if WaitlistEmail.confirmed entry then
            inl (Routes.respond 400
                   [("message", Routes.JString "Email is already confirmed")])
          else inr validatedData
      end
  end.

Definition resendUpdate (newToken : string)
    (validatedData : InsertWaitlistEmail.t) : S -> Routes.Response * S :=
  Routes.tryCatch
    (Routes.bind
       (regenerateConfirmationToken newToken
          (InsertWaitlistEmail.email validatedData))
       (fun newToken' =>
          Routes.ret
            (Routes.respond 200
               (("message", Routes.JString "Confirmation email resent") ::
                match NODE_ENV with
                | Some "development" => [("token", Routes.JString newToken')]
                | _ => []
                end))))
    Routes.onError.
End ResendSteps.

(** ** Further invariants of the stores *)

(** The constraints of [users]: [id] is the primary key, [username] is
    [unique()]. *)
Definition userConstraints (s : DatabaseStorage.t) : Prop :=
  NoDup (map User.id (DatabaseStorage.users s)) /\
  NoDup (map User.username (DatabaseStorage.users s)).

(** [MemStorage] files every user under its [id] and every waitlist entry
    under its [email]. *)
Definition keyedById (s : MemStorage.t) : Prop :=
  Forall (fun entry => User.id (snd entry) = fst entry) (MemStorage.users s).

Definition keyedByEmail (s : MemStorage.t) : Prop :=
  Forall (fun entry => WaitlistEmail.email (snd entry) = fst entry)
         (MemStorage.waitlistEmails s).

(** The emails of the [addToWaitlist] calls of a run, in order. *)
Fixpoint addedEmails (cs : list Call) : list string :=
  match cs with
  | [] => []
  | AddToWaitlist _ _ _ e :: cs' => InsertWaitlistEmail.email e :: addedEmails cs'
  | _ :: cs' => addedEmails cs'
  end.

(** Appends the strings that are not yet there, each once, in order. *)
Definition noteFirst (seen : list string) (x : string) : list string :=
  if existsb (String.eqb x) seen then seen else seen ++ [x].

Definition firstOccurrences (l : list string) : list string :=
  fold_left noteFirst l [].

(** ** The typing animation of the landing page
    ([client/src/pages/landing.tsx])

    The component keeps the text shown and a position (line, character) in
    its array [codeSnippets]; an effect arms a timer whose callback types
    the next character, or ends the line. The array is a parameter here:
    the effect does not depend on what the lines are. *)
Module Landing.
Record Typing := typing
  { typingText : string;
    currentLine : nat;
    currentChar : nat }.

(** [useState("")], [useState(0)], [useState(0)] *)
Definition start : Typing := typing "" 0 0.

(** The string appended at the end of a line: a newline and eight spaces. *)
Definition lineBreak : string := String (ascii_of_nat 10) "        ".

Section Effect.
Variable codeSnippets : list string.

(** The callback handed to [setTimeout]. *)
Definition tick (st : Typing) : Typing :=
  if Nat.ltb (currentLine st) (Datatypes.length codeSnippets) then
    let line := nth (currentLine st) codeSnippets "" in
    if Nat.ltb (currentChar st) (String.length line) then
      typing (String.append (typingText st) (substring (currentChar st) 1 line))
             (currentLine st) (Datatypes.S (currentChar st))
    else
      typing (String.append (typingText st) lineBreak)
             (Datatypes.S (currentLine st)) 0
  else st.

(** The state after [n] callbacks. *)
Fixpoint ticks (n : nat) (st : Typing) : Typing :=
  match n with
  | 0 => st
  | Datatypes.S n' => ticks n' (tick st)
  end.
End Effect.

(** Lines as they stand once typed: each followed by the break. *)
Fixpoint typed (lines : list string) : string :=
  match lines with
  | [] => ""
  | line :: rest => String.append line (String.append lineBreak (typed rest))
  end.

(** One callback for each character and one for the end of each line. *)
Fixpoint strokes (lines : list string) : nat :=
  match lines with
  | [] => 0
  | line :: rest => Datatypes.S (String.length line) + strokes rest
  end.
(** What is shown: the lines done, then the typed part of the current one. *)
Definition shown (codeSnippets : list string) (st : Typing) : Prop :=
  currentLine st <= Datatypes.length codeSnippets /\
  currentChar st <= String.length (nth (currentLine st) codeSnippets "") /\
  typingText st =
    String.append (typed (firstn (currentLine st) codeSnippets))
      (substring 0 (currentChar st) (nth (currentLine st) codeSnippets "")).

(** The callbacks still to come. *)
Definition remaining (codeSnippets : list string) (st : Typing) : nat :=
  strokes (skipn (currentLine st) codeSnippets) - currentChar st.
End Landing.

(** * Properties *)

(** ** Facts about [JsMap] *)
Section JsMapFacts.
Context {V : Type}.
Implicit Types (m : JsMap.t V) (k : string) (v : V).

Lemma JsMap_get_set_same k v m : JsMap.get k (JsMap.set k v m) = Some v.
Proof.
  induction m as [|[k' v'] m IH]; simpl.
  - now rewrite String.eqb_refl.
  - destruct (String.eqb k' k) eqn:E; simpl; rewrite E; auto.
Qed.

Lemma JsMap_get_set_other k k' v m :
  k <> k' -> JsMap.get k' (JsMap.set k v m) = JsMap.get k' m.
Proof.
  intros Hne. induction m as [|[k0 v0] m IH]; simpl.
  - destruct (String.eqb_spec k k'); congruence.
  - destruct (String.eqb_spec k0 k) as [->|Hk]; simpl.
    + destruct (String.eqb_spec k k'); congruence.
    + now rewrite IH.
Qed.

Lemma JsMap_get_None k m : JsMap.get k m = None <-> ~ In k (JsMap.keys m).
Proof.
  induction m as [|[k' v'] m IH]; simpl.
  - tauto.
  - destruct (String.eqb_spec k' k) as [->|Hk].
    + split; [discriminate | intros H; exfalso; apply H; now left].
    + rewrite IH. split; [intros H [?|?]; tauto | tauto].
Qed.

(** [set] on an absent key appends. *)
Lemma JsMap_set_absent k v m :
  JsMap.get k m = None -> JsMap.set k v m = m ++ [(k, v)].
Proof.
  induction m as [|[k' v'] m IH]; simpl; auto.
  destruct (String.eqb k' k); [discriminate|].
  intros H. now rewrite IH.
Qed.

(** [set] on a present key rewrites that entry where it stands. *)
Lemma JsMap_set_present k v w l1 l2 :
  ~ In k (JsMap.keys l1) ->
  JsMap.set k v (l1 ++ (k, w) :: l2) = l1 ++ (k, v) :: l2.
Proof.
  induction l1 as [|[k' v'] l1 IH]; simpl; intros Hn.
  - now rewrite String.eqb_refl.
  - destruct (String.eqb_spec k' k) as [->|Hk]; [tauto|].
    rewrite IH; tauto.
Qed.

Lemma JsMap_keys_set_present k v m :
  JsMap.get k m <> None -> JsMap.keys (JsMap.set k v m) = JsMap.keys m.
Proof.
  induction m as [|[k' v'] m IH]; simpl; [congruence|].
  destruct (String.eqb k' k); simpl; intros H; auto.
  now rewrite IH.
Qed.

Lemma JsMap_ok_set k v m : JsMap.ok m -> JsMap.ok (JsMap.set k v m).
Proof.
  unfold JsMap.ok. intros Hok.
  destruct (JsMap.get k m) eqn:E.
  - rewrite JsMap_keys_set_present; [assumption | congruence].
  - rewrite JsMap_set_absent by assumption.
    unfold JsMap.keys. rewrite map_app. simpl.
    apply NoDup_app; [assumption | repeat constructor; simpl; tauto |].
    intros x Hx [<-|[]]. now apply JsMap_get_None in E.
Qed.

Lemma JsMap_size_set k v m :
  JsMap.size (JsMap.set k v m) =
  match JsMap.get k m with
  | Some _ => JsMap.size m
  | None => Datatypes.S (JsMap.size m)
  end.
Proof.
  unfold JsMap.size.
  induction m as [|[k' v'] m IH]; simpl; auto.
  destruct (String.eqb k' k); simpl; auto.
  rewrite IH. now destruct (JsMap.get k m).
Qed.
End JsMapFacts.

(** ** Facts about entries, tokens and scans *)

Lemma find_split {A} (p : A -> bool) (l : list A) (x : A) :
  find p l = Some x ->
  exists l1 l2, l = l1 ++ x :: l2 /\ p x = true /\ forall y, In y l1 -> p y = false.
Proof.
  induction l as [|a l IH]; simpl; [discriminate|].
  destruct (p a) eqn:E.
  - intros H. injection H as ->. exists [], l. simpl. tauto.
  - intros H. destruct (IH H) as (l1 & l2 & -> & Hp & Hl1).
    exists (a :: l1), l2. simpl. repeat split; auto.
    intros y [<-|Hy]; auto.
Qed.

Lemma find_nothing {A} (p : A -> bool) (l : list A) :
  (forall y, In y l -> p y = false) -> find p l = None.
Proof.
  induction l as [|a l IH]; simpl; intros H; auto.
  rewrite (H a) by now left. apply IH. intros y Hy. apply H. now right.
Qed.

Lemma find_app_hit {A} (p : A -> bool) (l1 l2 : list A) (x : A) :
  find p l1 = Some x -> find p (l1 ++ l2) = Some x.
Proof.
  induction l1 as [|a l1 IH]; simpl; [discriminate|].
  destruct (p a); auto.
Qed.

Lemma find_first {A} (p : A -> bool) (l1 l2 : list A) (x : A) :
  (forall y, In y l1 -> p y = false) -> p x = true ->
  find p (l1 ++ x :: l2) = Some x.
Proof.
  induction l1 as [|a l1 IH]; simpl; intros Hl1 Hx.
  - now rewrite Hx.
  - rewrite (Hl1 a) by now left. apply IH; auto.
Qed.

Lemma JsMap_get_split {V} (k : string) (v : V) (m : JsMap.t V) :
  JsMap.get k m = Some v ->
  exists l1 l2, m = l1 ++ (k, v) :: l2 /\ ~ In k (JsMap.keys l1).
Proof.
  induction m as [|[k' v'] m IH]; simpl; [discriminate|].
  destruct (String.eqb_spec k' k) as [->|Hk]; intros H.
  - injection H as ->. exists [], m. simpl. tauto.
  - destruct (IH H) as (l1 & l2 & -> & Hn).
    exists ((k', v') :: l1), l2. simpl. split; [reflexivity | tauto].
Qed.

Lemma tokenIs_true token w :
  tokenIs token w = true <-> WaitlistEmail.confirmationToken w = Some token.
Proof.
  unfold tokenIs. destruct (WaitlistEmail.confirmationToken w) as [t|].
  - destruct (String.eqb_spec t token); split; congruence.
  - split; discriminate.
Qed.

Lemma confirmable_true token w :
  confirmable token w = true <->
  WaitlistEmail.confirmationToken w = Some token /\ WaitlistEmail.confirmed w = false.
Proof.
  unfold confirmable. rewrite andb_true_iff, negb_true_iff, tokenIs_true. tauto.
Qed.

Lemma tokens_app l1 l2 : tokens (l1 ++ l2) = tokens l1 ++ tokens l2.
Proof.
  induction l1 as [|w l1 IH]; simpl; auto.
  destruct (WaitlistEmail.confirmationToken w); simpl; now rewrite IH.
Qed.

Lemma In_tokens token l :
  In token (tokens l) <-> exists w, In w l /\ tokenIs token w = true.
Proof.
  induction l as [|w l IH]; simpl.
  - split; [tauto | intros (w & [] & _)].
  - destruct (WaitlistEmail.confirmationToken w) as [t|] eqn:E; simpl; rewrite ?IH.
    + split.
      * intros [->|(w' & Hin & Hw')].
        -- exists w. split; [now left | now apply tokenIs_true].
        -- exists w'. tauto.
      * intros (w' & [<-|Hin] & Hw').
        -- left. apply tokenIs_true in Hw'. congruence.
        -- right. now exists w'.
    + split.
      * intros (w' & Hin & Hw'). exists w'. tauto.
      * intros (w' & [<-|Hin] & Hw').
        -- apply tokenIs_true in Hw'. congruence.
        -- now exists w'.
Qed.

(** With unique tokens, the entry that carries a token is alone in doing so. *)
Lemma tokens_unique_others token w l1 l2 :
  NoDup (tokens (l1 ++ w :: l2)) -> tokenIs token w = true ->
  forall y, In y (l1 ++ l2) -> tokenIs token y = false.
Proof.
  intros Hnd Hw y Hy.
  destruct (tokenIs token y) eqn:Ey; [exfalso | reflexivity].
  apply tokenIs_true in Hw.
  change (w :: l2) with ([w] ++ l2) in Hnd.
  rewrite !tokens_app in Hnd. simpl in Hnd. rewrite Hw in Hnd. simpl in Hnd.
  apply NoDup_remove_2 in Hnd. apply Hnd.
  rewrite <- tokens_app. apply In_tokens. now exists y.
Qed.

(** Replacing one entry by one without a token, or with a token carried by
    no entry, keeps the tokens unique. *)
Lemma tokens_unique_replace w w' l1 l2 :
  NoDup (tokens (l1 ++ w :: l2)) ->
  match WaitlistEmail.confirmationToken w' with
  | Some t => ~ In t (tokens (l1 ++ l2))
  | None => True
  end ->
  NoDup (tokens (l1 ++ w' :: l2)).
Proof.
  intros Hnd Hw'.
  assert (Hrest : NoDup (tokens (l1 ++ l2))).
  { change (w :: l2) with ([w] ++ l2) in Hnd.
    rewrite !tokens_app in Hnd. rewrite tokens_app. simpl in Hnd.
    destruct (WaitlistEmail.confirmationToken w); simpl in Hnd; auto.
    now apply NoDup_remove_1 in Hnd. }
  change (w' :: l2) with ([w'] ++ l2).
  rewrite !tokens_app. rewrite tokens_app in Hrest, Hw'. simpl.
  destruct (WaitlistEmail.confirmationToken w') as [t|]; simpl; auto.
  apply NoDup_Add with (a := t) (l := tokens l1 ++ tokens l2).
  - apply Add_app.
  - now constructor.
Qed.

Lemma distinct_NoDup l : distinct l = true <-> NoDup l.
Proof.
  induction l as [|x l IH]; simpl.
  - split; [constructor | reflexivity].
  - rewrite andb_true_iff, negb_true_iff, IH. split.
    + intros [Hx Hl]. constructor; auto.
      intros Hin. assert (existsb (String.eqb x) l = true); [|congruence].
      apply existsb_exists. exists x. split; auto. apply String.eqb_refl.
    + intros H. inversion H as [|? ? Hx Hl]; subst. split; auto.
      destruct (existsb (String.eqb x) l) eqn:E; auto.
      apply existsb_exists in E as (y & Hy & Exy).
      apply String.eqb_eq in Exy. subst. contradiction.
Qed.

(** With unique tokens, at most one entry can be confirmed with a token. *)
Lemma confirmable_unique token w l1 l2 :
  NoDup (tokens (l1 ++ w :: l2)) -> confirmable token w = true ->
  forall y, In y (l1 ++ l2) -> confirmable token y = false.
Proof.
  intros Hnd Hw y Hy. unfold confirmable in *.
  apply andb_true_iff in Hw as [Hw _].
  now rewrite (tokens_unique_others token w l1 l2 Hnd Hw y Hy).
Qed.

(** ** The in-memory store *)

Lemma mem_values_app {V} (l1 l2 : JsMap.t V) :
  JsMap.values (l1 ++ l2) = JsMap.values l1 ++ JsMap.values l2.
Proof. apply map_app. Qed.

(** The scan of [confirmEmail] stops at the first entry it can confirm and
    rewrites it where it stands. *)
Lemma mem_confirmEmail_at now token s l1 k w l2 :
  MemStorage.waitlistEmails s = l1 ++ (k, w) :: l2 ->
  (forall y, In y l1 -> confirmable token (snd y) = false) ->
  confirmable token w = true ->
  ~ In k (JsMap.keys l1) ->
  MemStorage.confirmEmail now token s =
  (Some (markConfirmed now w),
   MemStorage.mk (MemStorage.users s) (l1 ++ (k, markConfirmed now w) :: l2)).
Proof.
  intros Hs Hl1 Hw Hk. unfold MemStorage.confirmEmail, JsMap.entries.
  rewrite Hs.
  rewrite (find_first (fun entry => confirmable token (snd entry)) l1 l2 (k, w))
    by assumption.
  now rewrite JsMap_set_present.
Qed.

Lemma mem_confirmEmail_none now token s :
  (forall y, In y (MemStorage.waitlistEmails s) -> confirmable token (snd y) = false) ->
  MemStorage.confirmEmail now token s = (None, s).
Proof.
  intros H. unfold MemStorage.confirmEmail, JsMap.entries.
  destruct (find _ _) as [[k w]|] eqn:E; auto.
  apply find_some in E as [Hin Hc]. rewrite (H _ Hin) in Hc. discriminate.
Qed.

(** Where the scan stops, whatever the tokens. *)
Lemma mem_confirmEmail_cases now token s :
  JsMap.ok (MemStorage.waitlistEmails s) ->
  MemStorage.confirmEmail now token s = (None, s) /\
  (forall y, In y (MemStorage.waitlistEmails s) -> confirmable token (snd y) = false)
  \/
  exists l1 k w l2,
    MemStorage.waitlistEmails s = l1 ++ (k, w) :: l2 /\
    (forall y, In y l1 -> confirmable token (snd y) = false) /\
    confirmable token w = true /\
    MemStorage.confirmEmail now token s =
    (Some (markConfirmed now w),
     MemStorage.mk (MemStorage.users s) (l1 ++ (k, markConfirmed now w) :: l2)).
Proof.
  intros Hok.
  destruct (find (fun entry => confirmable token (snd entry))
                 (MemStorage.waitlistEmails s)) as [[k w]|] eqn:E.
  - right. apply find_split in E as (l1 & l2 & Hs & Hw & Hl1).
    exists l1, k, w, l2. repeat split; auto.
    apply mem_confirmEmail_at; auto.
    unfold JsMap.ok, JsMap.keys in Hok. rewrite Hs, map_app in Hok. simpl in Hok.
    apply NoDup_remove_2 in Hok. intros Hin. apply Hok, in_or_app. now left.
  - left. assert (H := find_none _ _ E). split; auto.
    now apply mem_confirmEmail_none.
Qed.

(** With unique tokens the entry that holds the token is the one the scan
    stops at. *)
Lemma mem_locate token s k w :
  MemStorage.invariant s ->
  In (k, w) (MemStorage.waitlistEmails s) ->
  confirmable token w = true ->
  exists l1 l2,
    MemStorage.waitlistEmails s = l1 ++ (k, w) :: l2 /\
    (forall y, In y (l1 ++ l2) -> confirmable token (snd y) = false) /\
    ~ In k (JsMap.keys l1).
Proof.
  intros [Hok Htok] Hin Hw.
  apply in_split in Hin as (l1 & l2 & Hs). exists l1, l2.
  unfold MemStorage.rows in Htok. rewrite Hs in Htok, Hok.
  rewrite mem_values_app in Htok. simpl in Htok.
  repeat split; auto.
  - intros [k' y] Hy. simpl.
    apply (confirmable_unique token w _ _ Htok Hw).
    rewrite <- mem_values_app. unfold JsMap.values.
    change y with (snd (k', y)). now apply in_map.
  - unfold JsMap.ok, JsMap.keys in Hok. rewrite map_app in Hok. simpl in Hok.
    apply NoDup_remove_2 in Hok. intros Hk. apply Hok, in_or_app. now left.
Qed.

(** ** The database *)

Lemma db_update_none where_ set_ tbl :
  (forall y, In y tbl -> where_ y = false) ->
  DatabaseStorage.update where_ set_ tbl = ([], tbl).
Proof.
  unfold DatabaseStorage.update.
  induction tbl as [|r tbl IH]; simpl; intros H; auto.
  rewrite (H r) by now left.
  specialize (IH (fun y Hy => H y (or_intror Hy))).
  injection IH as -> ->. reflexivity.
Qed.

Lemma db_update_app where_ set_ l1 l2 :
  DatabaseStorage.update where_ set_ (l1 ++ l2) =
  (fst (DatabaseStorage.update where_ set_ l1) ++
   fst (DatabaseStorage.update where_ set_ l2),
   snd (DatabaseStorage.update where_ set_ l1) ++
   snd (DatabaseStorage.update where_ set_ l2)).
Proof.
  unfold DatabaseStorage.update. simpl.
  now rewrite filter_app, !map_app.
Qed.

(** When the condition selects one row, that row alone is rewritten. *)
Lemma db_update_one where_ set_ l1 w l2 :
  (forall y, In y (l1 ++ l2) -> where_ y = false) -> where_ w = true ->
  DatabaseStorage.update where_ set_ (l1 ++ w :: l2) =
  ([set_ w], l1 ++ set_ w :: l2).
Proof.
  intros H Hw. change (w :: l2) with ([w] ++ l2).
  rewrite !db_update_app.
  rewrite (db_update_none where_ set_ l1), (db_update_none where_ set_ l2).
  - unfold DatabaseStorage.update. simpl. now rewrite Hw.
  - intros y Hy. apply H, in_or_app. now right.
  - intros y Hy. apply H, in_or_app. now left.
Qed.

Lemma db_state_eta (s : DatabaseStorage.t) :
  DatabaseStorage.mk (DatabaseStorage.users s) (DatabaseStorage.waitlistEmails s) = s.
Proof. now destruct s. Qed.

Lemma db_confirmEmail_none now token s :
  (forall y, In y (DatabaseStorage.waitlistEmails s) -> confirmable token y = false) ->
  DatabaseStorage.confirmEmail now token s = (None, s).
Proof.
  intros H. unfold DatabaseStorage.confirmEmail.
  rewrite db_update_none by assumption. simpl. now rewrite db_state_eta.
Qed.

Lemma db_confirmEmail_at now token s l1 w l2 :
  DatabaseStorage.waitlistEmails s = l1 ++ w :: l2 ->
  (forall y, In y (l1 ++ l2) -> confirmable token y = false) ->
  confirmable token w = true ->
  DatabaseStorage.confirmEmail now token s =
  (Some (markConfirmed now w),
   DatabaseStorage.mk (DatabaseStorage.users s) (l1 ++ markConfirmed now w :: l2)).
Proof.
  intros Hs H Hw. unfold DatabaseStorage.confirmEmail.
  rewrite Hs, db_update_one by assumption. reflexivity.
Qed.

(** Under the token constraint the conditional update of [confirmEmail]
    selects no row or one row. *)
Lemma db_confirmEmail_cases now token s :
  NoDup (tokens (DatabaseStorage.waitlistEmails s)) ->
  DatabaseStorage.confirmEmail now token s = (None, s) /\
  (forall y, In y (DatabaseStorage.waitlistEmails s) -> confirmable token y = false)
  \/
  exists l1 w l2,
    DatabaseStorage.waitlistEmails s = l1 ++ w :: l2 /\
    (forall y, In y (l1 ++ l2) -> confirmable token y = false) /\
    confirmable token w = true /\
    DatabaseStorage.confirmEmail now token s =
    (Some (markConfirmed now w),
     DatabaseStorage.mk (DatabaseStorage.users s) (l1 ++ markConfirmed now w :: l2)).
Proof.
  intros Hnd.
  destruct (find (confirmable token) (DatabaseStorage.waitlistEmails s))
    as [w|] eqn:E.
  - right. apply find_split in E as (l1 & l2 & Hs & Hw & _).
    exists l1, w, l2. rewrite Hs in Hnd.
    assert (H := confirmable_unique token w l1 l2 Hnd Hw).
    repeat split; auto. now apply db_confirmEmail_at.
  - left. assert (H := find_none _ _ E). split; auto.
    now apply db_confirmEmail_none.
Qed.

Lemma db_locate token s w :
  NoDup (tokens (DatabaseStorage.waitlistEmails s)) ->
  In w (DatabaseStorage.waitlistEmails s) ->
  confirmable token w = true ->
  exists l1 l2,
    DatabaseStorage.waitlistEmails s = l1 ++ w :: l2 /\
    (forall y, In y (l1 ++ l2) -> confirmable token y = false).
Proof.
  intros Hnd Hin Hw. apply in_split in Hin as (l1 & l2 & Hs).
  exists l1, l2. split; auto. rewrite Hs in Hnd.
  now apply (confirmable_unique token w).
Qed.

Lemma not_confirmable_after now token w l1 l2 :
  (forall y, In y (l1 ++ l2) -> confirmable token y = false) ->
  forall y, In y (l1 ++ markConfirmed now w :: l2) -> confirmable token y = false.
Proof.
  intros H y Hy. apply in_app_or in Hy as [Hy|[<-|Hy]].
  - apply H, in_or_app. now left.
  - reflexivity.
  - apply H, in_or_app. now right.
Qed.

(** Under the email constraint a row is the one its email selects. *)
Lemma db_getWaitlistEmail_at users l1 w c l2 :
  NoDup (map WaitlistEmail.email (l1 ++ w :: l2)) ->
  WaitlistEmail.email c = WaitlistEmail.email w ->
  DatabaseStorage.getWaitlistEmail (WaitlistEmail.email w)
    (DatabaseStorage.mk users (l1 ++ c :: l2)) = Some c.
Proof.
  intros Hnd Hc. unfold DatabaseStorage.getWaitlistEmail. simpl.
  apply find_first.
  - intros y Hy. apply String.eqb_neq. intros Heq.
    rewrite map_app in Hnd. simpl in Hnd. apply NoDup_remove_2 in Hnd.
    apply Hnd, in_or_app. left. rewrite <- Heq. now apply in_map.
  - rewrite Hc. apply String.eqb_refl.
Qed.

(** ** Confirmation *)

(** C2. [confirmEmail(token)]: when an unconfirmed entry holds the token,
    that entry becomes confirmed, with its confirmation time set and its
    token cleared, and is returned; a second call with the same token
    returns absent. When no unconfirmed entry holds the token the call
    returns absent and the state is unchanged. Stated for the in-memory
    store (first two parts) and the database (last two), on states whose
    tokens are unique. *)
Theorem confirmEmail_confirms_once :
  (forall now now' token s k w,
      MemStorage.invariant s ->
      In (k, w) (JsMap.entries (MemStorage.waitlistEmails s)) ->
      WaitlistEmail.confirmationToken w = Some token ->
      WaitlistEmail.confirmed w = false ->
      exists c s',
        MemStorage.confirmEmail now token s = (Some c, s') /\
        c = markConfirmed now w /\
        WaitlistEmail.confirmed c = true /\
        WaitlistEmail.confirmedAt c = Some now /\
        WaitlistEmail.confirmationToken c = None /\
        JsMap.get k (MemStorage.waitlistEmails s') = Some c /\
        MemStorage.confirmEmail now' token s' = (None, s')) /\
  (forall now token s,
      (forall k w, In (k, w) (JsMap.entries (MemStorage.waitlistEmails s)) ->
                   WaitlistEmail.confirmationToken w = Some token ->
                   WaitlistEmail.confirmed w = true) ->
      MemStorage.confirmEmail now token s = (None, s)) /\
  (forall now now' token s w,
      DatabaseStorage.constraints s ->
      In w (DatabaseStorage.rows s) ->
      WaitlistEmail.confirmationToken w = Some token ->
      WaitlistEmail.confirmed w = false ->
      exists c s',
        DatabaseStorage.confirmEmail now token s = (Some c, s') /\
        c = markConfirmed now w /\
        WaitlistEmail.confirmed c = true /\
        WaitlistEmail.confirmedAt c = Some now /\
        WaitlistEmail.confirmationToken c = None /\
        DatabaseStorage.getWaitlistEmail (WaitlistEmail.email w) s' = Some c /\
        DatabaseStorage.confirmEmail now' token s' = (None, s')) /\
  (forall now token s,
      (forall w, In w (DatabaseStorage.rows s) ->
                 WaitlistEmail.confirmationToken w = Some token ->
                 WaitlistEmail.confirmed w = true) ->
      DatabaseStorage.confirmEmail now token s = (None, s)).
Proof.
  repeat split.
  - intros now now' token s k w Hinv Hin Htok Hconf.
    assert (Hw : confirmable token w = true) by now apply confirmable_true.
    destruct (mem_locate token s k w Hinv Hin Hw) as (l1 & l2 & Hs & Hrest & Hk).
    exists (markConfirmed now w), (MemStorage.mk (MemStorage.users s)
                                     (l1 ++ (k, markConfirmed now w) :: l2)).
    repeat split.
    + apply mem_confirmEmail_at; auto.
      intros y Hy. apply Hrest, in_or_app. now left.
    + simpl. rewrite <- (JsMap_set_present k _ w l1 l2 Hk).
      apply JsMap_get_set_same.
    + apply mem_confirmEmail_none. simpl. intros y Hy.
      apply in_app_or in Hy as [Hy|[<-|Hy]]; [| reflexivity |];
        apply Hrest, in_or_app; auto.
  - intros now token s H. apply mem_confirmEmail_none.
    intros [k w] Hin. simpl.
    destruct (confirmable token w) eqn:E; auto.
    apply confirmable_true in E as [Ht Hc].
    rewrite (H k w Hin Ht) in Hc. discriminate.
  - intros now now' token s w (_ & Hemail & Htokens) Hin Htok Hconf.
    assert (Hw : confirmable token w = true) by now apply confirmable_true.
    destruct (db_locate token s w Htokens Hin Hw) as (l1 & l2 & Hs & Hrest).
    exists (markConfirmed now w), (DatabaseStorage.mk (DatabaseStorage.users s)
                                     (l1 ++ markConfirmed now w :: l2)).
    repeat split.
    + now apply db_confirmEmail_at.
    + rewrite Hs in Hemail. now apply db_getWaitlistEmail_at.
    + apply db_confirmEmail_none. simpl. now apply not_confirmable_after.
  - intros now token s H. apply db_confirmEmail_none.
    intros w Hin.
    destruct (confirmable token w) eqn:E; auto.
    apply confirmable_true in E as [Ht Hc].
    rewrite (H w Hin Ht) in Hc. discriminate.
Qed.

(** C10. [confirmEmail(token)] rewrites at most one waitlist entry, the
    first one in the store's order that holds the token and is unconfirmed;
    every other entry keeps its place and value, and the users are
    untouched. Stated for the in-memory store (a [Map], each key once) and
    for the database (under the token constraint). *)
Theorem confirmEmail_frame :
  (forall now token s,
      JsMap.ok (MemStorage.waitlistEmails s) ->
      let s' := snd (MemStorage.confirmEmail now token s) in
      MemStorage.users s' = MemStorage.users s /\
      (MemStorage.waitlistEmails s' = MemStorage.waitlistEmails s \/
       exists l1 k w l2,
         MemStorage.waitlistEmails s = l1 ++ (k, w) :: l2 /\
         (forall y, In y l1 -> confirmable token (snd y) = false) /\
         confirmable token w = true /\
         MemStorage.waitlistEmails s' = l1 ++ (k, markConfirmed now w) :: l2)) /\
  (forall now token s,
      NoDup (tokens (DatabaseStorage.rows s)) ->
      let s' := snd (DatabaseStorage.confirmEmail now token s) in
      DatabaseStorage.users s' = DatabaseStorage.users s /\
      (DatabaseStorage.waitlistEmails s' = DatabaseStorage.waitlistEmails s \/
       exists l1 w l2,
         DatabaseStorage.waitlistEmails s = l1 ++ w :: l2 /\
         (forall y, In y l1 -> confirmable token y = false) /\
         confirmable token w = true /\
         DatabaseStorage.waitlistEmails s' = l1 ++ markConfirmed now w :: l2)).
Proof.
  split.
  - intros now token s Hok s'. subst s'.
    destruct (mem_confirmEmail_cases now token s Hok)
      as [[-> _]|(l1 & k & w & l2 & Hs & Hl1 & Hw & ->)]; simpl.
    + auto.
    + split; auto. right. exists l1, k, w, l2. auto.
  - intros now token s Hnd s'. subst s'.
    destruct (db_confirmEmail_cases now token s Hnd)
      as [[-> _]|(l1 & w & l2 & Hs & Hrest & Hw & ->)]; simpl.
    + auto.
    + split; auto. right. exists l1, w, l2. repeat split; auto.
      intros y Hy. apply Hrest, in_or_app. now left.
Qed.

(** ** Token regeneration *)

Lemma filter_nothing {A} (p : A -> bool) (l : list A) :
  (forall y, In y l -> p y = false) -> filter p l = [].
Proof.
  induction l as [|a l IH]; simpl; intros H; auto.
  rewrite (H a) by now left. apply IH. intros y Hy. apply H. now right.
Qed.

Lemma filter_one {A} (p : A -> bool) (l1 l2 : list A) (w : A) :
  (forall y, In y (l1 ++ l2) -> p y = false) -> p w = true ->
  filter p (l1 ++ w :: l2) = [w].
Proof.
  intros H Hw. rewrite filter_app. simpl. rewrite Hw.
  rewrite !filter_nothing; auto; intros y Hy; apply H, in_or_app; auto.
Qed.

Lemma db_updateToken_none where_ newToken tbl :
  (forall y, In y tbl -> where_ y = false) ->
  DatabaseStorage.updateToken where_ newToken tbl = (Ok [], tbl).
Proof.
  intros H. unfold DatabaseStorage.updateToken. now rewrite filter_nothing.
Qed.

Lemma db_updateToken_one where_ newToken l1 w l2 :
  (forall y, In y (l1 ++ l2) -> where_ y = false) -> where_ w = true ->
  (forall y, In y (l1 ++ l2) -> tokenIs newToken y = false) ->
  DatabaseStorage.updateToken where_ newToken (l1 ++ w :: l2) =
  (Ok [withToken newToken w], l1 ++ withToken newToken w :: l2).
Proof.
  intros H Hw Hfresh. unfold DatabaseStorage.updateToken.
  rewrite filter_one by assumption.
  destruct (existsb _ _) eqn:E.
  - exfalso. apply existsb_exists in E as (y & Hy & Ey).
    apply andb_true_iff in Ey as [Ey1 Ey2].
    apply in_app_or in Hy as [Hy|[<-|Hy]].
    + rewrite Hfresh in Ey2; [discriminate | apply in_or_app; auto].
    + rewrite Hw in Ey1. discriminate.
    + rewrite Hfresh in Ey2; [discriminate | apply in_or_app; auto].
  - cbn [orb length Nat.eqb negb]. now rewrite db_update_one.
Qed.

(** Under the email constraint, the row an email selects is the only row
    with that email. *)
Lemma db_getWaitlistEmail_split email s w :
  NoDup (map WaitlistEmail.email (DatabaseStorage.waitlistEmails s)) ->
  DatabaseStorage.getWaitlistEmail email s = Some w ->
  WaitlistEmail.email w = email /\
  exists l1 l2,
    DatabaseStorage.waitlistEmails s = l1 ++ w :: l2 /\
    forall y, In y (l1 ++ l2) ->
              String.eqb (WaitlistEmail.email y) email = false.
Proof.
  intros Hnd Hget. unfold DatabaseStorage.getWaitlistEmail in Hget.
  apply find_split in Hget as (l1 & l2 & Hs & Hw & Hl1).
  apply String.eqb_eq in Hw. split; auto.
  exists l1, l2. split; auto.
  intros y Hy. apply String.eqb_neq. intros Heq.
  rewrite Hs, map_app in Hnd. simpl in Hnd. apply NoDup_remove_2 in Hnd.
  apply Hnd. rewrite <- map_app, Hw, <- Heq. now apply in_map.
Qed.

Lemma db_getWaitlistEmail_None email s :
  DatabaseStorage.getWaitlistEmail email s = None ->
  forall y, In y (DatabaseStorage.waitlistEmails s) ->
            String.eqb (WaitlistEmail.email y) email = false.
Proof. intros H. exact (find_none _ _ H). Qed.

Lemma not_In_tokens token l :
  ~ In token (tokens l) -> forall y, In y l -> tokenIs token y = false.
Proof.
  intros Hn y Hy. destruct (tokenIs token y) eqn:E; auto.
  exfalso. apply Hn, In_tokens. now exists y.
Qed.

(** The database's [regenerateConfirmationToken] on a present email, with a
    token no row carries. *)
Lemma db_regenerate_at newToken email s w :
  DatabaseStorage.constraints s ->
  DatabaseStorage.getWaitlistEmail email s = Some w ->
  ~ In newToken (tokens (DatabaseStorage.rows s)) ->
  exists l1 l2,
    DatabaseStorage.waitlistEmails s = l1 ++ w :: l2 /\
    DatabaseStorage.regenerateConfirmationToken newToken email s =
    (Ok newToken,
     DatabaseStorage.mk (DatabaseStorage.users s)
       (l1 ++ withToken newToken w :: l2)).
Proof.
  intros (_ & Hemail & _) Hget Hfresh.
  destruct (db_getWaitlistEmail_split email s w Hemail Hget)
    as (Hw & l1 & l2 & Hs & Hrest).
  exists l1, l2. split; auto.
  unfold DatabaseStorage.regenerateConfirmationToken.
  rewrite Hs, db_updateToken_one; auto.
  - rewrite Hw. apply String.eqb_refl.
  - intros y Hy. apply (not_In_tokens newToken _ Hfresh).
    unfold DatabaseStorage.rows. rewrite Hs.
    apply in_app_or in Hy as [Hy|Hy]; apply in_or_app; simpl; auto.
Qed.

(** Rewriting a row without touching its email leaves every lookup by
    another email as it was. *)
Lemma db_getWaitlistEmail_frame users email' l1 w c l2 :
  WaitlistEmail.email c = WaitlistEmail.email w ->
  email' <> WaitlistEmail.email w ->
  DatabaseStorage.getWaitlistEmail email' (DatabaseStorage.mk users (l1 ++ c :: l2)) =
  DatabaseStorage.getWaitlistEmail email' (DatabaseStorage.mk users (l1 ++ w :: l2)).
Proof.
  intros Hc Hne. unfold DatabaseStorage.getWaitlistEmail. simpl.
  induction l1 as [|a l1 IH]; simpl.
  - rewrite Hc. destruct (String.eqb_spec (WaitlistEmail.email w) email'); congruence.
  - now rewrite IH.
Qed.

(** C9. [regenerateConfirmationToken(email)]: when an entry with the email
    exists, the generated token is stored on that entry in place of the
    prior one and is the value returned, every other entry being left as it
    was; when none exists the call throws [Error('Email not found')] and the
    state is unchanged. Stated for the in-memory store (first two parts)
    and for the database (last two), where the generated token is one that
    no row carries. *)
Theorem regenerateConfirmationToken_spec :
  (forall newToken email s w,
      MemStorage.getWaitlistEmail email s = Some w ->
      exists c s',
        MemStorage.regenerateConfirmationToken newToken email s = (Ok newToken, s') /\
        c = withToken newToken w /\
        WaitlistEmail.confirmationToken c = Some newToken /\
        MemStorage.getWaitlistEmail email s' = Some c /\
        (forall email', email' <> email ->
           MemStorage.getWaitlistEmail email' s' = MemStorage.getWaitlistEmail email' s)) /\
  (forall newToken email s,
      MemStorage.getWaitlistEmail email s = None ->
      MemStorage.regenerateConfirmationToken newToken email s =
      (Throw (Error "Email not found"), s)) /\
  (forall newToken email s w,
      DatabaseStorage.constraints s ->
      DatabaseStorage.getWaitlistEmail email s = Some w ->
      ~ In newToken (tokens (DatabaseStorage.rows s)) ->
      exists c s',
        DatabaseStorage.regenerateConfirmationToken newToken email s = (Ok newToken, s') /\
        c = withToken newToken w /\
        WaitlistEmail.confirmationToken c = Some newToken /\
        DatabaseStorage.getWaitlistEmail email s' = Some c /\
        (forall email', email' <> email ->
           DatabaseStorage.getWaitlistEmail email' s' =
           DatabaseStorage.getWaitlistEmail email' s)) /\
  (forall newToken email s,
      DatabaseStorage.getWaitlistEmail email s = None ->
      DatabaseStorage.regenerateConfirmationToken newToken email s =
      (Throw (Error "Email not found"), s)).
Proof.
  repeat split.
  - intros newToken email s w Hget.
    exists (withToken newToken w),
      (MemStorage.mk (MemStorage.users s)
         (JsMap.set email (withToken newToken w) (MemStorage.waitlistEmails s))).
    unfold MemStorage.regenerateConfirmationToken, MemStorage.getWaitlistEmail in *.
    rewrite Hget. simpl. repeat split.
    + apply JsMap_get_set_same.
    + intros email' Hne. apply JsMap_get_set_other. congruence.
  - intros newToken email s Hget.
    unfold MemStorage.regenerateConfirmationToken, MemStorage.getWaitlistEmail in *.
    now rewrite Hget.
  - intros newToken email s w Hc Hget Hfresh.
    destruct (db_regenerate_at newToken email s w Hc Hget Hfresh)
      as (l1 & l2 & Hs & Hregen).
    destruct Hc as (_ & Hemail & _).
    destruct (db_getWaitlistEmail_split email s w Hemail Hget) as (Hw & _).
    exists (withToken newToken w),
      (DatabaseStorage.mk (DatabaseStorage.users s)
         (l1 ++ withToken newToken w :: l2)).
    repeat split; auto.
    + rewrite <- Hw. rewrite Hs in Hemail. now apply db_getWaitlistEmail_at.
    + intros email' Hne.
      rewrite <- (db_state_eta s) at 2. rewrite Hs.
      apply db_getWaitlistEmail_frame; [reflexivity | congruence].
  - intros newToken email s Hget.
    unfold DatabaseStorage.regenerateConfirmationToken.
    rewrite db_updateToken_none; auto.
    now apply db_getWaitlistEmail_None.
Qed.

Lemma tokenIs_withToken token newToken w :
  tokenIs token (withToken newToken w) = String.eqb newToken token.
Proof. reflexivity. Qed.

Lemma confirmable_withToken newToken w :
  WaitlistEmail.confirmed w = false ->
  confirmable newToken (withToken newToken w) = true.
Proof.
  intros H. unfold confirmable. rewrite tokenIs_withToken, String.eqb_refl.
  simpl. now rewrite H.
Qed.

(** After the token of [w] went from [old] to a fresh [newToken], no entry
    can be confirmed with [old]. *)
Lemma old_token_dead old newToken w l1 l2 :
  NoDup (tokens (l1 ++ w :: l2)) ->
  WaitlistEmail.confirmationToken w = Some old ->
  ~ In newToken (tokens (l1 ++ w :: l2)) ->
  forall y, In y (l1 ++ withToken newToken w :: l2) -> confirmable old y = false.
Proof.
  intros Hnd Hw Hfresh y Hy.
  assert (Hold : tokenIs old w = true) by now apply tokenIs_true.
  assert (Hrest := tokens_unique_others old w l1 l2 Hnd Hold).
  unfold confirmable.
  apply in_app_or in Hy as [Hy|[<-|Hy]].
  - rewrite Hrest; [reflexivity | apply in_or_app; auto].
  - rewrite tokenIs_withToken.
    destruct (String.eqb_spec newToken old) as [->|]; [exfalso | reflexivity].
    apply Hfresh, In_tokens. exists w. split; auto.
    apply in_or_app. right. now left.
  - rewrite Hrest; [reflexivity | apply in_or_app; auto].
Qed.

(** A fresh token selects the entry it was given to, and no entry before. *)
Lemma new_token_first newToken w l1 l2 :
  ~ In newToken (tokens (l1 ++ w :: l2)) ->
  forall y, In y (l1 ++ l2) -> confirmable newToken y = false.
Proof.
  intros Hfresh y Hy. unfold confirmable.
  rewrite (not_In_tokens newToken _ Hfresh); [reflexivity|].
  apply in_app_or in Hy as [Hy|Hy]; apply in_or_app; simpl; auto.
Qed.

(** C5. Regeneration invalidates the prior token. For an unconfirmed entry
    holding token [old], once [regenerateConfirmationToken] has returned the
    fresh [newToken]: [confirmEmail(old)] returns absent and changes
    nothing, and [confirmEmail(newToken)] returns the entry, now confirmed.
    Stated for the in-memory store and for the database. *)
Theorem regenerate_invalidates_old_token :
  (forall old newToken now s email w,
      MemStorage.invariant s ->
      MemStorage.getWaitlistEmail email s = Some w ->
      WaitlistEmail.confirmationToken w = Some old ->
      WaitlistEmail.confirmed w = false ->
      ~ In newToken (tokens (MemStorage.rows s)) ->
      exists s1,
        MemStorage.regenerateConfirmationToken newToken email s = (Ok newToken, s1) /\
        MemStorage.confirmEmail now old s1 = (None, s1) /\
        exists c s2,
          MemStorage.confirmEmail now newToken s1 = (Some c, s2) /\
          WaitlistEmail.id c = WaitlistEmail.id w /\
          WaitlistEmail.email c = WaitlistEmail.email w /\
          WaitlistEmail.confirmed c = true /\
          MemStorage.getWaitlistEmail email s2 = Some c) /\
  (forall old newToken now s email w,
      DatabaseStorage.constraints s ->
      DatabaseStorage.getWaitlistEmail email s = Some w ->
      WaitlistEmail.confirmationToken w = Some old ->
      WaitlistEmail.confirmed w = false ->
      ~ In newToken (tokens (DatabaseStorage.rows s)) ->
      exists s1,
        DatabaseStorage.regenerateConfirmationToken newToken email s = (Ok newToken, s1) /\
        DatabaseStorage.confirmEmail now old s1 = (None, s1) /\
        exists c s2,
          DatabaseStorage.confirmEmail now newToken s1 = (Some c, s2) /\
          WaitlistEmail.id c = WaitlistEmail.id w /\
          WaitlistEmail.email c = WaitlistEmail.email w /\
          WaitlistEmail.confirmed c = true /\
          DatabaseStorage.getWaitlistEmail email s2 = Some c).
Proof.
  split.
  - intros old newToken now s email w [Hok Htok] Hget Hold Hconf Hfresh.
    unfold MemStorage.getWaitlistEmail in Hget.
    destruct (JsMap_get_split email w _ Hget) as (l1 & l2 & Hs & Hk).
    unfold MemStorage.rows in Htok, Hfresh.
    rewrite Hs, mem_values_app in Htok, Hfresh. simpl in Htok, Hfresh.
    set (w' := withToken newToken w).
    exists (MemStorage.mk (MemStorage.users s) (l1 ++ (email, w') :: l2)).
    split; [|split].
    + unfold MemStorage.regenerateConfirmationToken. rewrite Hget.
      now rewrite Hs, JsMap_set_present.
    + apply mem_confirmEmail_none. simpl. intros [k y] Hy. simpl.
      apply (old_token_dead old newToken w _ _ Htok Hold Hfresh).
      apply (in_map snd) in Hy. rewrite map_app in Hy. exact Hy.
    + exists (markConfirmed now w'),
        (MemStorage.mk (MemStorage.users s)
           (l1 ++ (email, markConfirmed now w') :: l2)).
      split; [|repeat split].
      * rewrite (mem_confirmEmail_at now newToken _ l1 email w' l2); auto.
        -- intros [k y] Hy. simpl.
           apply (new_token_first newToken w _ _ Hfresh).
           apply in_or_app. left. exact (in_map snd _ _ Hy).
        -- now apply confirmable_withToken.
      * unfold MemStorage.getWaitlistEmail. simpl.
        rewrite <- (JsMap_set_present email _ w' l1 l2 Hk).
        apply JsMap_get_set_same.
  - intros old newToken now s email w Hc Hget Hold Hconf Hfresh.
    destruct (db_regenerate_at newToken email s w Hc Hget Hfresh)
      as (l1 & l2 & Hs & Hregen).
    destruct Hc as (_ & Hemail & Htok).
    destruct (db_getWaitlistEmail_split email s w Hemail Hget) as (Hw & _).
    unfold DatabaseStorage.rows in Hfresh. rewrite Hs in Htok, Hfresh, Hemail.
    set (w' := withToken newToken w) in *.
    exists (DatabaseStorage.mk (DatabaseStorage.users s) (l1 ++ w' :: l2)).
    split; [assumption | split].
    + apply db_confirmEmail_none. simpl.
      now apply (old_token_dead old newToken w).
    + exists (markConfirmed now w'),
        (DatabaseStorage.mk (DatabaseStorage.users s)
           (l1 ++ markConfirmed now w' :: l2)).
      split; [|repeat split].
      * rewrite (db_confirmEmail_at now newToken _ l1 w' l2);
          [reflexivity | reflexivity | |].
        -- now apply (new_token_first newToken w).
        -- now apply confirmable_withToken.
      * rewrite <- Hw. now apply db_getWaitlistEmail_at.
Qed.

(** ** The invariant of confirmed entries *)

Lemma settled_unconfirmed w : WaitlistEmail.confirmed w = false -> settled w.
Proof. unfold settled. congruence. Qed.

Lemma settled_markConfirmed now w : settled (markConfirmed now w).
Proof. unfold settled. simpl. split; congruence. Qed.

Lemma Forall_values_set {V} (P : V -> Prop) k v (m : JsMap.t V) :
  Forall P (JsMap.values m) -> P v -> Forall P (JsMap.values (JsMap.set k v m)).
Proof.
  intros Hm Hv. induction m as [|[k' v'] m IH]; simpl in *.
  - now constructor.
  - inversion Hm; subst. destruct (String.eqb k' k); simpl; constructor; auto.
Qed.

Lemma Forall_update (P : WaitlistEmail.t -> Prop) where_ set_ tbl :
  Forall P tbl -> (forall r, In r tbl -> where_ r = true -> P (set_ r)) ->
  Forall P (snd (DatabaseStorage.update where_ set_ tbl)).
Proof.
  intros Ht Hset. simpl. apply Forall_forall. intros y Hy.
  apply in_map_iff in Hy as (r & <- & Hr).
  destruct (where_ r) eqn:E; auto.
  rewrite Forall_forall in Ht. auto.
Qed.

Lemma find_filter_head {A} (p : A -> bool) (l : list A) x rest :
  filter p l = x :: rest -> find p l = Some x.
Proof.
  induction l as [|a l IH]; simpl; [discriminate|].
  destruct (p a); [congruence | auto].
Qed.

Lemma filter_singleton {A} (p : A -> bool) (l : list A) x :
  filter p l = [x] -> forall r, In r l -> p r = true -> r = x.
Proof.
  intros Hf r Hr Hp.
  assert (Hin : In r (filter p l)) by now apply filter_In.
  rewrite Hf in Hin. destruct Hin as [<-|[]]. reflexivity.
Qed.

Lemma mem_settled_call c s :
  Forall settled (MemStorage.rows s) -> regeneratesUnconfirmed c s ->
  Forall settled (MemStorage.rows (call c s)).
Proof.
  intros Hs Hguard. destruct c as [id u|id token now e|now token|newToken email]; simpl.
  - assumption.
  - apply Forall_values_set; auto. now apply settled_unconfirmed.
  - unfold MemStorage.confirmEmail.
    destruct (find _ _) as [[k w]|]; simpl; auto.
    apply Forall_values_set; auto. apply settled_markConfirmed.
  - unfold MemStorage.regenerateConfirmationToken.
    destruct (JsMap.get email (MemStorage.waitlistEmails s)) as [w|] eqn:E; simpl; auto.
    apply Forall_values_set; auto.
    apply settled_unconfirmed. simpl. now apply Hguard.
Qed.

Lemma db_settled_call c s :
  Forall settled (DatabaseStorage.rows s) -> regeneratesUnconfirmed c s ->
  Forall settled (DatabaseStorage.rows (call c s)).
Proof.
  unfold DatabaseStorage.rows.
  intros Hs Hguard. destruct c as [id u|id token now e|now token|newToken email]; simpl.
  - unfold DatabaseStorage.createUser, DatabaseStorage.insertUser.
    repeat (destruct (existsb _ _); simpl; auto).
  - unfold DatabaseStorage.addToWaitlist, DatabaseStorage.insertWaitlistEmail.
    repeat (destruct (existsb _ _); simpl; auto).
    apply Forall_app. split; auto. constructor; auto.
    now apply settled_unconfirmed.
  - unfold DatabaseStorage.confirmEmail.
    apply (Forall_update settled (confirmable token) (markConfirmed now) _ Hs).
    intros. apply settled_markConfirmed.
  - unfold DatabaseStorage.regenerateConfirmationToken, DatabaseStorage.updateToken.
    set (where_ := fun r => String.eqb (WaitlistEmail.email r) email).
    destruct (filter where_ (DatabaseStorage.waitlistEmails s))
      as [|w others] eqn:Ef; simpl; auto.
    destruct (existsb _ _); simpl; auto.
    destruct others as [|w2 others]; simpl; auto.
    rewrite Ef. simpl.
    apply Forall_forall. intros y Hy.
    apply in_map_iff in Hy as (r & <- & Hr).
    destruct (where_ r) eqn:E.
    + rewrite (filter_singleton where_ _ w Ef r Hr E).
      apply settled_unconfirmed. simpl. apply Hguard. simpl.
      now apply find_filter_head with (rest := []).
    + rewrite Forall_forall in Hs. auto.
Qed.













(** ** Signing up twice *)

Lemma sample_reached :
  snd (calls [Sample.signup; Sample.confirm] MemStorage.new) = Sample.memConfirmed /\
  snd (calls [Sample.signup; Sample.confirm] DatabaseStorage.new) = Sample.dbConfirmed /\
  snd (calls [Sample.signup] MemStorage.new) = Sample.memPending /\
  snd (calls [Sample.signup] DatabaseStorage.new) = Sample.dbPending.
Proof. repeat split; reflexivity. Qed.

(** The database rejects [addToWaitlist] for an email it holds, and keeps
    its state. *)
Lemma db_addToWaitlist_duplicate id token now e s :
  DatabaseStorage.getWaitlistEmail (InsertWaitlistEmail.email e) s <> None ->
  exists column,
    DatabaseStorage.addToWaitlist id token now e s =
    (Throw (UniqueViolation column), s).
Proof.
  intros Hget. unfold DatabaseStorage.addToWaitlist, DatabaseStorage.insertWaitlistEmail.
  simpl. destruct (existsb _ _); [now exists "id"|].
  destruct (existsb _ _) eqn:E; [now exists "email"|].
  exfalso. apply Hget. unfold DatabaseStorage.getWaitlistEmail.
  apply find_nothing. intros y Hy.
  destruct (String.eqb_spec (WaitlistEmail.email y) (InsertWaitlistEmail.email e))
    as [Heq|]; auto.
  assert (existsb (fun r => String.eqb (WaitlistEmail.email r)
                              (InsertWaitlistEmail.email e))
                  (DatabaseStorage.waitlistEmails s) = true); [|congruence].
  apply existsb_exists. exists y. split; auto. now apply String.eqb_eq.
Qed.

(** C1, on the in-memory store. After [a@b.com] signed up and confirmed,
    [addToWaitlist] with the same email does not fail: it resolves with a
    new entry and stores it in place of the confirmed one. The database, in
    the same situation, throws and keeps the confirmed row. *)
Theorem mem_addToWaitlist_replaces_entry :
  MemStorage.getWaitlistEmail "a@b.com" Sample.memConfirmed = Some Sample.confirmed /\
  MemStorage.addToWaitlist "id-2" "token-B" 3000%Z Sample.address Sample.memConfirmed =
    (Ok Sample.replaced, MemStorage.mk [] [("a@b.com", Sample.replaced)]) /\
  DatabaseStorage.addToWaitlist "id-2" "token-B" 3000%Z Sample.address Sample.dbConfirmed =
    (Throw (UniqueViolation "email"), Sample.dbConfirmed).
Proof. repeat split; reflexivity. Qed.

(** ** Counting *)

Lemma db_count_call c (s : DatabaseStorage.t) :
  getWaitlistCount (call c s) =
  getWaitlistCount s + (if addSucceeds c s then 1 else 0).
Proof.
  destruct c as [id u|id token now e|now token|newToken email]; simpl;
    unfold DatabaseStorage.getWaitlistCount.
  - unfold DatabaseStorage.createUser, DatabaseStorage.insertUser.
    repeat (destruct (existsb _ _); simpl; try lia).
  - unfold DatabaseStorage.addToWaitlist, DatabaseStorage.insertWaitlistEmail.
    simpl. repeat (destruct (existsb _ _); simpl; try lia).
    rewrite length_app. simpl. lia.
  - unfold DatabaseStorage.confirmEmail. simpl. rewrite length_map. lia.
  - unfold DatabaseStorage.regenerateConfirmationToken, DatabaseStorage.updateToken.
    destruct (filter _ _) as [|w others] eqn:Ef; simpl; try lia.
    destruct (existsb _ _); simpl; try lia.
    destruct others; simpl; try lia.
    rewrite Ef. simpl. rewrite length_map. lia.
Qed.

(** In the database the count is the number of [addToWaitlist] calls that
    succeeded. *)
Lemma db_count_successful_adds cs (s : DatabaseStorage.t) :
  getWaitlistCount (snd (calls cs s)) = getWaitlistCount s + fst (calls cs s).
Proof.
  revert s. induction cs as [|c cs IH]; intros s.
  - cbn [calls fst snd]. lia.
  - cbn [calls]. specialize (IH (call c s)). rewrite db_count_call in IH.
    destruct (calls cs (call c s)) as [n s'].
    cbn [fst snd] in *. rewrite IH. lia.
Qed.

(** In the in-memory store the count grows with an [addToWaitlist] whose
    email was absent, and with nothing else. *)
Lemma mem_count_call c (s : MemStorage.t) :
  getWaitlistCount (call c s) =
  getWaitlistCount s +
  match c with
  | AddToWaitlist _ _ _ e =>
      match getWaitlistEmail (InsertWaitlistEmail.email e) s with
      | Some _ => 0
      | None => 1
      end
  | _ => 0
  end.
Proof.
  destruct c as [id u|id token now e|now token|newToken email]; simpl;
    unfold MemStorage.getWaitlistCount, MemStorage.getWaitlistEmail;
    cbn [MemStorage.waitlistEmails].
  - lia.
  - rewrite JsMap_size_set.
    destruct (JsMap.get _ _); lia.
  - unfold MemStorage.confirmEmail.
    destruct (find _ _) as [[k w]|] eqn:E; simpl; [|lia].
    rewrite JsMap_size_set.
    apply find_some in E as [Hin _]. apply in_split in Hin as (l1 & l2 & Hs).
    destruct (JsMap.get k (MemStorage.waitlistEmails s)) eqn:G; [lia|].
    exfalso. apply JsMap_get_None in G. apply G.
    unfold JsMap.entries in Hs. rewrite Hs. unfold JsMap.keys.
    rewrite map_app. apply in_or_app. right. now left.
  - unfold MemStorage.regenerateConfirmationToken.
    destruct (JsMap.get email _) eqn:G; simpl; [|lia].
    rewrite JsMap_size_set, G. lia.
Qed.

(** C3, on the in-memory store. Signing [a@b.com] up twice from the empty
    store makes two [addToWaitlist] calls that both resolve, and leaves a
    count of one. The database, given the same calls, lets one succeed and
    counts one. *)
Theorem mem_count_below_successful_adds :
  fst (calls [Sample.signup; Sample.signupAgain] MemStorage.new) = 2 /\
  getWaitlistCount
    (snd (calls [Sample.signup; Sample.signupAgain] MemStorage.new)) = 1 /\
  fst (calls [Sample.signup; Sample.signupAgain] DatabaseStorage.new) = 1 /\
  getWaitlistCount
    (snd (calls [Sample.signup; Sample.signupAgain] DatabaseStorage.new)) = 1.
Proof. repeat split; reflexivity. Qed.

(** ** The confirmed flag *)

Lemma find_map_stable {A} (p : A -> bool) (f : A -> A) (l : list A) :
  (forall x, p (f x) = p x) -> find p (map f l) = option_map f (find p l).
Proof.
  intros H. induction l as [|a l IH]; simpl; auto.
  rewrite H. destruct (p a); auto.
Qed.


(** In the in-memory store the same holds of [confirmEmail], of
    [regenerateConfirmationToken], of [createUser], and of [addToWaitlist]
    with an email the store does not hold. *)
Lemma mem_confirmed_monotone c (s : MemStorage.t) email w :
  match c with
  | AddToWaitlist _ _ _ e => getWaitlistEmail (InsertWaitlistEmail.email e) s = None
  | _ => True
  end ->
  getWaitlistEmail email s = Some w -> WaitlistEmail.confirmed w = true ->
  exists w', getWaitlistEmail email (call c s) = Some w' /\
             WaitlistEmail.confirmed w' = true.
Proof.
  simpl. unfold MemStorage.getWaitlistEmail. intros Hc Hget Hw.
  destruct c as [id u|id token now e|now token|newToken email']; simpl.
  - now exists w.
  - exists w. split; auto. rewrite JsMap_get_set_other; auto. congruence.
  - unfold MemStorage.confirmEmail.
    destruct (find _ _) as [[k w0]|]; simpl; [|now exists w].
    destruct (String.eqb_spec k email) as [->|Hne].
    + rewrite JsMap_get_set_same. now eexists.
    + rewrite JsMap_get_set_other by assumption. now exists w.
  - unfold MemStorage.regenerateConfirmationToken.
    destruct (JsMap.get email' _) as [w0|] eqn:G; simpl; [|now exists w].
    destruct (String.eqb_spec email' email) as [->|Hne].
    + rewrite JsMap_get_set_same. eexists. split; [reflexivity|].
      simpl. congruence.
    + rewrite JsMap_get_set_other by assumption. now exists w.
Qed.

(** C4, on the in-memory store. [a@b.com] is confirmed; after
    [addToWaitlist] with the same email its entry reads [confirmed =
    false]. In the database the entry stays confirmed. *)
Theorem mem_addToWaitlist_unconfirms :
  option_map WaitlistEmail.confirmed
    (getWaitlistEmail "a@b.com" Sample.memConfirmed) = Some true /\
  option_map WaitlistEmail.confirmed
    (getWaitlistEmail "a@b.com" (call Sample.signupAgain Sample.memConfirmed))
  = Some false /\
  option_map WaitlistEmail.confirmed
    (getWaitlistEmail "a@b.com" (call Sample.signupAgain Sample.dbConfirmed))
  = Some true.
Proof. repeat split; reflexivity. Qed.


(** ** The routes *)

Lemma existsb_nothing {A} (p : A -> bool) (l : list A) :
  (forall y, In y l -> p y = false) -> existsb p l = false.
Proof.
  induction l as [|a l IH]; simpl; intros H; auto.
  rewrite (H a) by now left. apply IH. intros y Hy. apply H. now right.
Qed.

Lemma find_app_miss {A} (p : A -> bool) (l1 l2 : list A) :
  find p l1 = None -> find p (l1 ++ l2) = find p l2.
Proof.
  induction l1 as [|a l1 IH]; simpl; auto.
  destruct (p a); [discriminate | auto].
Qed.

(** The database accepts [addToWaitlist] for an absent email when the
    generated identifier and token are new, and appends the row. *)
Lemma db_addToWaitlist_fresh id token now e s :
  DatabaseStorage.getWaitlistEmail (InsertWaitlistEmail.email e) s = None ->
  ~ In id (map WaitlistEmail.id (DatabaseStorage.rows s)) ->
  ~ In token (tokens (DatabaseStorage.rows s)) ->
  DatabaseStorage.addToWaitlist id token now e s =
  (Ok (WaitlistEmail.mk id (InsertWaitlistEmail.email e) now false (Some token) None),
   DatabaseStorage.mk (DatabaseStorage.users s)
     (DatabaseStorage.waitlistEmails s ++
      [WaitlistEmail.mk id (InsertWaitlistEmail.email e) now false (Some token) None])).
Proof.
  intros Hget Hid Htok.
  unfold DatabaseStorage.addToWaitlist, DatabaseStorage.insertWaitlistEmail. simpl.
  rewrite existsb_nothing.
  - rewrite existsb_nothing.
    + rewrite existsb_nothing; [reflexivity|].
      now apply not_In_tokens.
    + now apply db_getWaitlistEmail_None.
  - intros y Hy. apply String.eqb_neq. intros Heq. apply Hid.
    rewrite <- Heq. now apply in_map.
Qed.

Section RouteFacts.
Variable isEmail : string -> bool.
Variable invalidType : string -> option Routes.Json -> string.

Lemma parse_throws_ZodError body exn :
  Routes.parse isEmail invalidType body = Throw exn ->
  exists errors, exn = ZodError errors.
Proof.
  unfold Routes.parse. intros H.
  destruct body as [[| | | | |fields]|]; try (injection H as <-; eauto).
  destruct (Routes.field "email" fields) as [[| | |email| |]|];
    try (injection H as <-; eauto).
  destruct (isEmail email); [discriminate | injection H as <-; eauto].
Qed.

Lemma parse_accepts fields email :
  Routes.field "email" fields = Some (Routes.JString email) ->
  isEmail email = true ->
  Routes.parse isEmail invalidType (Some (Routes.JObject fields)) =
  Ok (InsertWaitlistEmail.mk email).
Proof. intros Hf He. unfold Routes.parse. now rewrite Hf, He. Qed.

Lemma parse_rejects_format fields email :
  Routes.field "email" fields = Some (Routes.JString email) ->
  isEmail email = false ->
  Routes.parse isEmail invalidType (Some (Routes.JObject fields)) =
  Throw (ZodError ["Please enter a valid email address"]).
Proof. intros Hf He. unfold Routes.parse. now rewrite Hf, He. Qed.
End RouteFacts.

(** C7. [POST /api/waitlist]. A body that fails validation gets a 400
    with the first validation message, and the store is unchanged. A valid
    body whose email is already stored gets a 409, and the store is
    unchanged. A valid body with a new email gets a 201 whose body echoes
    the submitted email, and the store now holds an unconfirmed entry for
    it, one more than before: in the in-memory store, and in the database
    when the generated identifier and token are new. *)
Theorem postWaitlist_spec (isEmail : string -> bool)
    (invalidType : string -> option Routes.Json -> string) :
  (forall S (storage : IStorage S) id token now body (s : S) exn,
      Routes.parse isEmail invalidType body = Throw exn ->
      exists errors,
        exn = ZodError errors /\
        Routes.postWaitlist isEmail invalidType id token now body s =
        (Routes.respond 400
           [("message", Routes.JString (Routes.firstMessage errors))], s)) /\
  (forall S (storage : IStorage S) id token now fields email (s : S) w,
      Routes.field "email" fields = Some (Routes.JString email) ->
      isEmail email = true ->
      getWaitlistEmail email s = Some w ->
      Routes.postWaitlist isEmail invalidType id token now
        (Some (Routes.JObject fields)) s =
      (Routes.respond 409
         [("message", Routes.JString "Email already registered for waitlist")], s)) /\
  (forall id token now fields email (s : MemStorage.t),
      Routes.field "email" fields = Some (Routes.JString email) ->
      isEmail email = true ->
      getWaitlistEmail email s = None ->
      exists w s',
        Routes.postWaitlist isEmail invalidType id token now
          (Some (Routes.JObject fields)) s =
        (Routes.respond 201
           [("message", Routes.JString "Successfully added to waitlist");
            ("email", Routes.JString email)], s') /\
        getWaitlistEmail email s' = Some w /\
        WaitlistEmail.email w = email /\
        WaitlistEmail.confirmed w = false /\
        WaitlistEmail.confirmationToken w = Some token /\
        getWaitlistCount s' = Datatypes.S (getWaitlistCount s)) /\
  (forall id token now fields email (s : DatabaseStorage.t),
      Routes.field "email" fields = Some (Routes.JString email) ->
      isEmail email = true ->
      getWaitlistEmail email s = None ->
      ~ In id (map WaitlistEmail.id (DatabaseStorage.rows s)) ->
      ~ In token (tokens (DatabaseStorage.rows s)) ->
      exists w s',
        Routes.postWaitlist isEmail invalidType id token now
          (Some (Routes.JObject fields)) s =
        (Routes.respond 201
           [("message", Routes.JString "Successfully added to waitlist");
            ("email", Routes.JString email)], s') /\
        getWaitlistEmail email s' = Some w /\
        WaitlistEmail.email w = email /\
        WaitlistEmail.confirmed w = false /\
        WaitlistEmail.confirmationToken w = Some token /\
        getWaitlistCount s' = Datatypes.S (getWaitlistCount s)).
Proof.
  repeat split.
  - intros S storage id token now body s exn Hparse.
    destruct (parse_throws_ZodError _ _ _ _ Hparse) as [errors ->].
    exists errors. split; auto.
    unfold Routes.postWaitlist, Routes.tryCatch, Routes.bind, Routes.lift.
    now rewrite Hparse.
  - intros S storage id token now fields email s w Hf He Hget.
    unfold Routes.postWaitlist, Routes.tryCatch, Routes.bind, Routes.lift,
      Routes.await, Routes.ret.
    rewrite (parse_accepts _ _ _ _ Hf He). simpl. now rewrite Hget.
  - intros id token now fields email s Hf He Hget. simpl in Hget.
    eexists. eexists. split; [|repeat split].
    + unfold Routes.postWaitlist, Routes.tryCatch, Routes.bind, Routes.lift,
        Routes.await, Routes.ret.
      rewrite (parse_accepts _ _ _ _ Hf He). simpl. rewrite Hget. simpl.
      reflexivity.
    + simpl. unfold MemStorage.getWaitlistEmail. simpl.
      apply JsMap_get_set_same.
    + reflexivity.
    + reflexivity.
    + reflexivity.
    + simpl in *. unfold MemStorage.getWaitlistCount, MemStorage.getWaitlistEmail in *.
      simpl. now rewrite JsMap_size_set, Hget.
  - intros id token now fields email s Hf He Hget Hid Htok. simpl in Hget.
    eexists. eexists. split; [|repeat split].
    + unfold Routes.postWaitlist, Routes.tryCatch, Routes.bind, Routes.lift,
        Routes.await, Routes.ret.
      rewrite (parse_accepts _ _ _ _ Hf He). simpl. rewrite Hget. simpl.
      rewrite (db_addToWaitlist_fresh id token now
                 (InsertWaitlistEmail.mk email) s Hget Hid Htok).
      reflexivity.
    + simpl in *. unfold DatabaseStorage.getWaitlistEmail in *. simpl.
      rewrite find_app_miss by assumption. simpl. now rewrite String.eqb_refl.
    + reflexivity.
    + reflexivity.
    + reflexivity.
    + simpl. unfold DatabaseStorage.getWaitlistCount. simpl.
      rewrite length_app. simpl. lia.
Qed.

(** C8. [POST /api/waitlist/resend-confirmation] with the email of a
    confirmed entry: the response is a 400 and the store (so every token) is
    left as it was; when the email passes validation, as every email the
    join route stored does, the 400 carries "Email is already confirmed".
    For any storage backend. *)
Theorem postResendConfirmation_already_confirmed (isEmail : string -> bool)
    (invalidType : string -> option Routes.Json -> string)
    (NODE_ENV : option string)
    S (storage : IStorage S) newToken fields email (s : S) w :
  Routes.field "email" fields = Some (Routes.JString email) ->
  getWaitlistEmail email s = Some w ->
  WaitlistEmail.confirmed w = true ->
  Routes.status
    (fst (Routes.postResendConfirmation isEmail invalidType NODE_ENV newToken
            (Some (Routes.JObject fields)) s)) = 400 /\
  snd (Routes.postResendConfirmation isEmail invalidType NODE_ENV newToken
         (Some (Routes.JObject fields)) s) = s /\
  (isEmail email = true ->
   Routes.postResendConfirmation isEmail invalidType NODE_ENV newToken
     (Some (Routes.JObject fields)) s =
   (Routes.respond 400
      [("message", Routes.JString "Email is already confirmed")], s)).
Proof.
  intros Hf Hget Hc.
  unfold Routes.postResendConfirmation, Routes.tryCatch, Routes.bind, Routes.lift,
    Routes.await, Routes.ret.
  destruct (isEmail email) eqn:He.
  - rewrite (parse_accepts _ _ _ _ Hf He). simpl. rewrite Hget, Hc. auto.
  - rewrite (parse_rejects_format _ _ _ _ Hf He). simpl.
    repeat split. discriminate.
Qed.

(** ** The invariants of the two stores are kept by every call *)

Lemma tokens_unique_snoc l w :
  NoDup (tokens l) ->
  match WaitlistEmail.confirmationToken w with
  | Some t => ~ In t (tokens l)
  | None => True
  end ->
  NoDup (tokens (l ++ [w])).
Proof.
  intros Hnd Hw. rewrite tokens_app. simpl.
  destruct (WaitlistEmail.confirmationToken w) as [t|].
  - apply NoDup_app; auto.
    + repeat constructor. simpl. tauto.
    + intros x Hx [<-|[]]. contradiction.
  - now rewrite app_nil_r.
Qed.

Lemma mem_set_rows k v (m : JsMap.t WaitlistEmail.t) :
  (exists w l1 l2, m = l1 ++ (k, w) :: l2 /\
                   JsMap.set k v m = l1 ++ (k, v) :: l2) \/
  JsMap.get k m = None /\ JsMap.set k v m = m ++ [(k, v)].
Proof.
  destruct (JsMap.get k m) as [w|] eqn:E.
  - left. destruct (JsMap_get_split k w m E) as (l1 & l2 & -> & Hk).
    exists w, l1, l2. split; auto. now apply JsMap_set_present.
  - right. split; auto. now apply JsMap_set_absent.
Qed.

(** Storing an entry whose token is fresh, or absent, keeps the invariant. *)
Lemma mem_invariant_set users k v (s : MemStorage.t) :
  MemStorage.invariant s ->
  match WaitlistEmail.confirmationToken v with
  | Some t => ~ In t (tokens (MemStorage.rows s))
  | None => True
  end ->
  MemStorage.invariant
    (MemStorage.mk users (JsMap.set k v (MemStorage.waitlistEmails s))).
Proof.
  intros [Hok Htok] Hv. split; simpl.
  - now apply JsMap_ok_set.
  - unfold MemStorage.rows in *. simpl.
    destruct (mem_set_rows k v (MemStorage.waitlistEmails s))
      as [(w & l1 & l2 & Hs & ->)|[_ ->]].
    + rewrite Hs, mem_values_app in Htok, Hv. rewrite mem_values_app.
      simpl in *. apply (tokens_unique_replace w); auto.
      destruct (WaitlistEmail.confirmationToken v) as [t|]; auto.
      intros Hin. apply Hv.
      change (w :: JsMap.values l2) with ([w] ++ JsMap.values l2).
      rewrite !tokens_app. rewrite tokens_app in Hin.
      apply in_app_or in Hin as [Hin|Hin]; apply in_or_app; auto.
      right. apply in_or_app. now right.
    + rewrite mem_values_app. simpl. now apply tokens_unique_snoc.
Qed.

Lemma mem_invariant_new : MemStorage.invariant MemStorage.new.
Proof. split; constructor. Qed.

Lemma mem_invariant_call c (s : MemStorage.t) :
  MemStorage.invariant s -> drawsFreshToken (MemStorage.rows s) c ->
  MemStorage.invariant (call c s).
Proof.
  intros Hinv Hfresh.
  destruct c as [id u|id token now e|now token|newToken email]; simpl.
  - exact Hinv.
  - now apply mem_invariant_set.
  - unfold MemStorage.confirmEmail.
    destruct (find _ _) as [[k w]|]; simpl; auto.
    now apply mem_invariant_set.
  - unfold MemStorage.regenerateConfirmationToken.
    destruct (JsMap.get email _) as [w|]; simpl; auto.
    now apply mem_invariant_set.
Qed.

Lemma filter_singleton_split {A} (p : A -> bool) (l : list A) w :
  filter p l = [w] ->
  exists l1 l2, l = l1 ++ w :: l2 /\ forall y, In y (l1 ++ l2) -> p y = false.
Proof.
  induction l as [|a l IH]; simpl; [discriminate|].
  destruct (p a) eqn:E; intros H.
  - injection H as -> Hrest. exists [], l. split; auto. simpl.
    intros y Hy. destruct (p y) eqn:Ey; auto.
    assert (Hin : In y (filter p l)) by now apply filter_In.
    rewrite Hrest in Hin. destruct Hin.
  - destruct (IH H) as (l1 & l2 & -> & Hrest).
    exists (a :: l1), l2. split; auto.
    intros y [<-|Hy]; auto.
Qed.

Lemma db_update_columns where_ set_ tbl :
  (forall r, WaitlistEmail.id (set_ r) = WaitlistEmail.id r) ->
  (forall r, WaitlistEmail.email (set_ r) = WaitlistEmail.email r) ->
  map WaitlistEmail.id (snd (DatabaseStorage.update where_ set_ tbl)) =
    map WaitlistEmail.id tbl /\
  map WaitlistEmail.email (snd (DatabaseStorage.update where_ set_ tbl)) =
    map WaitlistEmail.email tbl.
Proof.
  intros Hid Hemail. simpl. rewrite !map_map.
  split; apply map_ext; intros r; destruct (where_ r); auto.
Qed.

(** Clearing tokens keeps the remaining ones unique. *)
Lemma tokens_unique_cleared where_ now tbl :
  NoDup (tokens tbl) ->
  NoDup (tokens (snd (DatabaseStorage.update where_ (markConfirmed now) tbl))).
Proof.
  simpl. intros Hnd.
  assert (H : NoDup (tokens (map (fun r => if where_ r then markConfirmed now r else r) tbl))
              /\ incl (tokens (map (fun r => if where_ r then markConfirmed now r else r) tbl))
                      (tokens tbl)); [|tauto].
  induction tbl as [|r tbl IH]; simpl.
  - split; [constructor | apply incl_refl].
  - assert (Htail : NoDup (tokens tbl)).
    { simpl in Hnd. destruct (WaitlistEmail.confirmationToken r); auto.
      now inversion Hnd. }
    destruct (IH Htail) as [IH1 IH2].
    destruct (where_ r); simpl.
    + split; auto. destruct (WaitlistEmail.confirmationToken r); auto.
      now apply incl_tl.
    + simpl in Hnd. destruct (WaitlistEmail.confirmationToken r) as [t|]; auto.
      inversion Hnd as [|? ? Hnotin ?]; subst. split.
      * constructor; auto.
      * intros x [<-|Hx]; [now left | right; auto].
Qed.

Lemma db_constraints_new : DatabaseStorage.constraints DatabaseStorage.new.
Proof. repeat split; constructor. Qed.

Lemma existsb_false_In {A} (p : A -> bool) (l : list A) :
  existsb p l = false -> forall y, In y l -> p y = false.
Proof.
  intros H y Hy. destruct (p y) eqn:E; auto.
  assert (existsb p l = true); [|congruence].
  apply existsb_exists. now exists y.
Qed.

Lemma NoDup_snoc {A} (l : list A) (x : A) :
  NoDup l -> ~ In x l -> NoDup (l ++ [x]).
Proof.
  intros Hl Hx. apply NoDup_app; auto.
  - repeat constructor. simpl. tauto.
  - intros y Hy [<-|[]]. contradiction.
Qed.

(** An insert either clashes with a row and changes nothing, or appends. *)
Lemma db_insert_cases row tbl :
  (exists column,
      DatabaseStorage.insertWaitlistEmail row tbl =
      (Throw (UniqueViolation column), tbl)) \/
  DatabaseStorage.insertWaitlistEmail row tbl = (Ok row, tbl ++ [row]) /\
  ~ In (WaitlistEmail.id row) (map WaitlistEmail.id tbl) /\
  ~ In (WaitlistEmail.email row) (map WaitlistEmail.email tbl) /\
  match WaitlistEmail.confirmationToken row with
  | Some t => ~ In t (tokens tbl)
  | None => True
  end.
Proof.
  unfold DatabaseStorage.insertWaitlistEmail.
  destruct (existsb (fun r => String.eqb (WaitlistEmail.id r) (WaitlistEmail.id row)) tbl)
    eqn:E1; [left; eauto|].
  destruct (existsb (fun r => String.eqb (WaitlistEmail.email r)
                                         (WaitlistEmail.email row)) tbl)
    eqn:E2; [left; eauto|].
  assert (H1 : ~ In (WaitlistEmail.id row) (map WaitlistEmail.id tbl)).
  { intros Hin. apply in_map_iff in Hin as (y & Hy & Hin).
    apply (existsb_false_In _ _ E1) in Hin. apply String.eqb_neq in Hin. auto. }
  assert (H2 : ~ In (WaitlistEmail.email row) (map WaitlistEmail.email tbl)).
  { intros Hin. apply in_map_iff in Hin as (y & Hy & Hin).
    apply (existsb_false_In _ _ E2) in Hin. apply String.eqb_neq in Hin. auto. }
  destruct (WaitlistEmail.confirmationToken row) as [t|]; [|right; auto].
  destruct (existsb (tokenIs t) tbl) eqn:E3; [left; eauto|].
  right. repeat split; auto.
  intros Hin. apply In_tokens in Hin as (y & Hy & Hty).
  apply (existsb_false_In _ _ E3) in Hy. congruence.
Qed.

(** The database keeps its constraints whatever the call draws: a clash is
    rejected by the statement. *)
Lemma db_constraints_call c (s : DatabaseStorage.t) :
  DatabaseStorage.constraints s -> DatabaseStorage.constraints (call c s).
Proof.
  intros (Hid & Hemail & Htok). unfold DatabaseStorage.constraints.
  destruct c as [id u|id token now e|now token|newToken email]; simpl.
  - unfold DatabaseStorage.createUser.
    destruct (DatabaseStorage.insertUser _ _) as [[user|exn] tbl']; simpl; auto.
  - unfold DatabaseStorage.addToWaitlist.
    destruct (db_insert_cases
                (WaitlistEmail.mk id (InsertWaitlistEmail.email e) now false
                   (Some token) None)
                (DatabaseStorage.waitlistEmails s))
      as [[column ->]|(-> & H1 & H2 & H3)]; simpl; auto.
    rewrite !map_app. simpl in *. repeat split.
    + now apply NoDup_snoc.
    + now apply NoDup_snoc.
    + now apply tokens_unique_snoc.
  - unfold DatabaseStorage.confirmEmail.
    destruct (db_update_columns (confirmable token) (markConfirmed now)
                (DatabaseStorage.waitlistEmails s)) as [Hi He]; auto.
    assert (Ht := tokens_unique_cleared (confirmable token) now _ Htok).
    simpl in *. rewrite Hi, He. auto.
  - unfold DatabaseStorage.regenerateConfirmationToken, DatabaseStorage.updateToken.
    set (where_ := fun r => String.eqb (WaitlistEmail.email r) email).
    destruct (filter where_ _) as [|w others] eqn:Ef; simpl; auto.
    destruct (existsb _ _) eqn:E; simpl; auto.
    destruct others; simpl; auto.
    rewrite Ef. simpl.
    destruct (db_update_columns where_ (withToken newToken)
                (DatabaseStorage.waitlistEmails s)) as [Hi He]; auto.
    simpl in Hi, He. rewrite Hi, He. repeat split; auto.
    destruct (filter_singleton_split where_ _ w Ef) as (l1 & l2 & Hs & Hrest).
    assert (Hw : where_ w = true).
    { assert (Hin : In w (filter where_ (DatabaseStorage.waitlistEmails s)))
        by (rewrite Ef; now left).
      now apply filter_In in Hin. }
    assert (Hu := db_update_one where_ (withToken newToken) l1 w l2 Hrest Hw).
    unfold DatabaseStorage.update in Hu. injection Hu as _ Hu.
    rewrite Hs, Hu. rewrite Hs in Htok.
    apply (tokens_unique_replace w); auto. simpl.
    intros Hin. apply In_tokens in Hin as (y & Hy & Hty).
    assert (Hy' : In y (DatabaseStorage.waitlistEmails s)).
    { rewrite Hs. apply in_app_or in Hy as [Hy|Hy]; apply in_or_app; simpl; auto. }
    apply (existsb_false_In _ _ E) in Hy'. cbv beta in Hy'.
    assert (Hy2 := Hrest y Hy). unfold where_ in Hy2.
    rewrite Hy2, Hty in Hy'. discriminate.
Qed.

(** ** Runs of calls *)

Lemma db_constraints_calls cs (s : DatabaseStorage.t) :
  DatabaseStorage.constraints s -> DatabaseStorage.constraints (snd (calls cs s)).
Proof.
  revert s. induction cs as [|c cs IH]; intros s Hs; cbn [calls].
  - exact Hs.
  - specialize (IH (call c s) (db_constraints_call c s Hs)).
    destruct (calls cs (call c s)). exact IH.
Qed.

Lemma mem_invariant_calls cs (s : MemStorage.t) :
  MemStorage.invariant s -> freshRun MemStorage.rows cs s ->
  MemStorage.invariant (snd (calls cs s)).
Proof.
  revert s. induction cs as [|c cs IH]; intros s Hs Hfresh; cbn [calls].
  - exact Hs.
  - destruct Hfresh as [Hc Hrest].
    specialize (IH (call c s) (mem_invariant_call c s Hs Hc) Hrest).
    destruct (calls cs (call c s)). exact IH.
Qed.

(** ** What a request does to the store

    A handler leaves the store alone or makes one storage call; the resend
    handler, run in one piece, reaches [regenerateConfirmationToken] only
    for an entry that is not confirmed. *)
Section RouteSteps.
Variable isEmail : string -> bool.
Variable invalidType : string -> option Routes.Json -> string.
Variable NODE_ENV : option string.
Context {S : Type} {storage : IStorage S}.

Lemma postWaitlist_step id token now body (s : S) :
  snd (Routes.postWaitlist isEmail invalidType id token now body s) = s \/
  exists e,
    snd (Routes.postWaitlist isEmail invalidType id token now body s) =
    call (AddToWaitlist id token now e) s.
Proof.
  unfold Routes.postWaitlist, Routes.tryCatch, Routes.bind, Routes.lift,
    Routes.await, Routes.ret.
  destruct (Routes.parse isEmail invalidType body) as [v|exn]; simpl; auto.
  destruct (getWaitlistEmail (InsertWaitlistEmail.email v) s); simpl; auto.
  right. exists v.
  destruct (addToWaitlist id token now v s) as [[w|exn] s']; reflexivity.
Qed.

Lemma postConfirm_step now token (s : S) :
  snd (Routes.postConfirm now token s) = s \/
  snd (Routes.postConfirm now token s) = call (ConfirmEmail now token) s.
Proof.
  unfold Routes.postConfirm, Routes.tryCatch, Routes.bind, Routes.run, Routes.ret.
  destruct (String.eqb token ""); simpl; auto.
  right. destruct (confirmEmail now token s) as [[w|] s']; reflexivity.
Qed.

Lemma postResendConfirmation_step newToken body (s : S) :
  snd (Routes.postResendConfirmation isEmail invalidType NODE_ENV newToken body s)
  = s \/
  exists email,
    snd (Routes.postResendConfirmation isEmail invalidType NODE_ENV newToken body s)
    = call (RegenerateConfirmationToken newToken email) s /\
    regeneratesUnconfirmed (RegenerateConfirmationToken newToken email) s.
Proof.
  unfold Routes.postResendConfirmation, Routes.tryCatch, Routes.bind,
    Routes.lift, Routes.await, Routes.ret.
  destruct (Routes.parse isEmail invalidType body) as [v|exn]; simpl; auto.
  destruct (getWaitlistEmail (InsertWaitlistEmail.email v) s) as [w|] eqn:G;
    simpl; auto.
  destruct (WaitlistEmail.confirmed w) eqn:C; simpl; auto.
  right. exists (InsertWaitlistEmail.email v). split.
  - destruct (regenerateConfirmationToken newToken (InsertWaitlistEmail.email v) s)
      as [[t|exn] s']; reflexivity.
  - intros w' G'. congruence.
Qed.

Lemma getCount_step (s : S) : snd (Routes.getCount s) = s.
Proof. reflexivity. Qed.

(** A handler run in one piece keeps the confirmed entries settled, as
    soon as the storage calls do so under the resend handler's guard. *)
Variable stored : S -> list WaitlistEmail.t.
Hypothesis settled_call :
  forall c s, Forall settled (stored s) -> regeneratesUnconfirmed c s ->
              Forall settled (stored (call c s)).

Lemma routes_keep_settled id token newToken now body (s : S) :
  Forall settled (stored s) ->
  Forall settled
    (stored (snd (Routes.postWaitlist isEmail invalidType id token now body s))) /\
  Forall settled (stored (snd (Routes.postConfirm now token s))) /\
  Forall settled
    (stored (snd (Routes.postResendConfirmation isEmail invalidType NODE_ENV
                    newToken body s))) /\
  Forall settled (stored (snd (Routes.getCount s))).
Proof.
  intros Hs. repeat split.
  - destruct (postWaitlist_step id token now body s) as [->|[e ->]]; auto.
    apply settled_call; simpl; auto.
  - destruct (postConfirm_step now token s) as [->| ->]; auto.
    apply settled_call; simpl; auto.
  - destruct (postResendConfirmation_step newToken body s)
      as [->|(email & -> & Hguard)]; auto.
  - now rewrite getCount_step.
Qed.
End RouteSteps.

Lemma mem_routes_keep_settled isEmail invalidType NODE_ENV id token newToken now body
    (s : MemStorage.t) :
  Forall settled (MemStorage.rows s) ->
  Forall settled
    (MemStorage.rows
       (snd (Routes.postWaitlist isEmail invalidType id token now body s))) /\
  Forall settled (MemStorage.rows (snd (Routes.postConfirm now token s))) /\
  Forall settled
    (MemStorage.rows
       (snd (Routes.postResendConfirmation isEmail invalidType NODE_ENV
               newToken body s))) /\
  Forall settled (MemStorage.rows (snd (Routes.getCount s))).
Proof. apply routes_keep_settled. exact mem_settled_call. Qed.

Lemma db_routes_keep_settled isEmail invalidType NODE_ENV id token newToken now body
    (s : DatabaseStorage.t) :
  Forall settled (DatabaseStorage.rows s) ->
  Forall settled
    (DatabaseStorage.rows
       (snd (Routes.postWaitlist isEmail invalidType id token now body s))) /\
  Forall settled (DatabaseStorage.rows (snd (Routes.postConfirm now token s))) /\
  Forall settled
    (DatabaseStorage.rows
       (snd (Routes.postResendConfirmation isEmail invalidType NODE_ENV
               newToken body s))) /\
  Forall settled (DatabaseStorage.rows (snd (Routes.getCount s))).
Proof. apply routes_keep_settled. exact db_settled_call. Qed.

(** ** The theorems at the sample session *)

Lemma sample_mem_invariant :
  MemStorage.invariant Sample.memPending /\
  MemStorage.invariant Sample.memConfirmed.
Proof. repeat split; apply distinct_NoDup; reflexivity. Defined.

Lemma sample_db_constraints :
  DatabaseStorage.constraints Sample.dbPending /\
  DatabaseStorage.constraints Sample.dbConfirmed.
Proof. repeat split; apply distinct_NoDup; reflexivity. Defined.

Lemma sample_fresh :
  ~ In "token-C" (tokens (MemStorage.rows Sample.memPending)) /\
  ~ In "token-C" (tokens (DatabaseStorage.rows Sample.dbPending)).
Proof. split; simpl; intros [H|[]]; discriminate H. Defined.

Lemma confirmEmail_confirms_once_witness :
  MemStorage.invariant Sample.memPending /\
  DatabaseStorage.constraints Sample.dbPending /\
  fst (MemStorage.confirmEmail 2000%Z "token-A" Sample.memPending)
    = Some Sample.confirmed /\
  MemStorage.confirmEmail 2000%Z "token-B" Sample.memPending
    = (None, Sample.memPending) /\
  fst (DatabaseStorage.confirmEmail 2000%Z "token-A" Sample.dbPending)
    = Some Sample.confirmed /\
  DatabaseStorage.confirmEmail 2000%Z "token-B" Sample.dbPending
    = (None, Sample.dbPending).
Proof.
  destruct confirmEmail_confirms_once as (T1 & T2 & T3 & T4).
  split; [exact (proj1 sample_mem_invariant)|].
  split; [exact (proj1 sample_db_constraints)|].
  split; [|split; [|split]].
  - destruct (T1 2000%Z 2500%Z "token-A" Sample.memPending "a@b.com" Sample.pending
                (proj1 sample_mem_invariant) (or_introl eq_refl) eq_refl eq_refl)
      as (c & s' & H & -> & _).
    rewrite H. reflexivity.
  - apply T2. intros k w [H|[]] Ht. injection H as <- <-. discriminate Ht.
  - destruct (T3 2000%Z 2500%Z "token-A" Sample.dbPending Sample.pending
                (proj1 sample_db_constraints) (or_introl eq_refl) eq_refl eq_refl)
      as (c & s' & H & -> & _).
    rewrite H. reflexivity.
  - apply T4. intros w [<-|[]] Ht. discriminate Ht.
Defined.

(** On the store with a user and three entries: whatever
    [confirmEmail("token-A")] does to [a@b.com], the user is still there,
    and the entry before it and the entry after it are where and what they
    were. *)
Lemma confirmEmail_frame_witness :
  (let s' := snd (MemStorage.confirmEmail 2000%Z "token-A" Populated.mem) in
   MemStorage.users s' = [("u-1", Populated.user)] /\
   length (MemStorage.waitlistEmails s') = 3 /\
   nth_error (MemStorage.waitlistEmails s') 0 = Some ("c@d.org", Populated.first) /\
   nth_error (MemStorage.waitlistEmails s') 2 = Some ("e@f.net", Populated.last)) /\
  (let s' := snd (DatabaseStorage.confirmEmail 2000%Z "token-A" Populated.db) in
   DatabaseStorage.users s' = [Populated.user] /\
   length (DatabaseStorage.rows s') = 3 /\
   nth_error (DatabaseStorage.rows s') 0 = Some Populated.first /\
   nth_error (DatabaseStorage.rows s') 2 = Some Populated.last).
Proof.
  destruct confirmEmail_frame as (T1 & T2).
  assert (H1 : JsMap.ok (MemStorage.waitlistEmails Populated.mem))
    by (apply distinct_NoDup; reflexivity).
  assert (H2 : NoDup (tokens (DatabaseStorage.rows Populated.db)))
    by (apply distinct_NoDup; reflexivity).
  split.
  - assert (H := T1 2000%Z "token-A" Populated.mem H1). cbv zeta in *.
    set (s' := snd (MemStorage.confirmEmail 2000%Z "token-A" Populated.mem)) in *.
    clearbody s'. destruct H as [Hu Hw]. split; [exact Hu|].
    destruct Hw as [->|(l1 & k & w & l2 & Hs & Hl1 & Hc & ->)].
    + split; [|split]; reflexivity.
    + destruct l1 as [|x1 [|x2 [|x3 l1]]]; simpl in Hs.
      * injection Hs as <- <- <-. discriminate Hc.
      * injection Hs as <- <- <- <-. split; [|split]; reflexivity.
      * injection Hs as <- <- <-.
        assert (Habs := Hl1 ("a@b.com", Sample.pending) (or_intror (or_introl eq_refl))).
        discriminate Habs.
      * injection Hs as _ _ _ Hs. destruct l1; discriminate Hs.
  - assert (H := T2 2000%Z "token-A" Populated.db H2). cbv zeta in *.
    set (s' := snd (DatabaseStorage.confirmEmail 2000%Z "token-A" Populated.db)) in *.
    clearbody s'. destruct H as [Hu Hw]. split; [exact Hu|].
    unfold DatabaseStorage.rows.
    destruct Hw as [->|(l1 & w & l2 & Hs & Hl1 & Hc & ->)].
    + split; [|split]; reflexivity.
    + destruct l1 as [|x1 [|x2 [|x3 l1]]]; simpl in Hs.
      * injection Hs as <- <-. discriminate Hc.
      * injection Hs as <- <- <-. split; [|split]; reflexivity.
      * injection Hs as <- <- <-.
        assert (Habs := Hl1 Sample.pending (or_intror (or_introl eq_refl))).
        discriminate Habs.
      * injection Hs as _ _ _ Hs. destruct l1; discriminate Hs.
Defined.

Lemma regenerateConfirmationToken_spec_witness :
  fst (MemStorage.regenerateConfirmationToken "token-C" "a@b.com" Sample.memPending)
    = Ok "token-C" /\
  MemStorage.regenerateConfirmationToken "token-C" "a@b.com" MemStorage.new
    = (Throw (Error "Email not found"), MemStorage.new) /\
  fst (DatabaseStorage.regenerateConfirmationToken "token-C" "a@b.com" Sample.dbPending)
    = Ok "token-C" /\
  DatabaseStorage.regenerateConfirmationToken "token-C" "a@b.com" DatabaseStorage.new
    = (Throw (Error "Email not found"), DatabaseStorage.new).
Proof.
  destruct regenerateConfirmationToken_spec as (T1 & T2 & T3 & T4).
  split; [|split; [|split]].
  - destruct (T1 "token-C" "a@b.com" Sample.memPending Sample.pending eq_refl)
      as (c & s' & H & _).
    rewrite H. reflexivity.
  - apply T2. reflexivity.
  - destruct (T3 "token-C" "a@b.com" Sample.dbPending Sample.pending
                (proj1 sample_db_constraints) eq_refl (proj2 sample_fresh))
      as (c & s' & H & _).
    rewrite H. reflexivity.
  - apply T4. reflexivity.
Defined.

Lemma regenerate_invalidates_old_token_witness :
  (exists s1,
      MemStorage.regenerateConfirmationToken "token-C" "a@b.com" Sample.memPending
        = (Ok "token-C", s1) /\
      MemStorage.confirmEmail 2000%Z "token-A" s1 = (None, s1)) /\
  (exists s1,
      DatabaseStorage.regenerateConfirmationToken "token-C" "a@b.com" Sample.dbPending
        = (Ok "token-C", s1) /\
      DatabaseStorage.confirmEmail 2000%Z "token-A" s1 = (None, s1)).
Proof.
  destruct regenerate_invalidates_old_token as (T1 & T2).
  split.
  - destruct (T1 "token-A" "token-C" 2000%Z Sample.memPending "a@b.com" Sample.pending
                (proj1 sample_mem_invariant) eq_refl eq_refl eq_refl
                (proj1 sample_fresh))
      as (s1 & H1 & H2 & _).
    exists s1. split; assumption.
  - destruct (T2 "token-A" "token-C" 2000%Z Sample.dbPending "a@b.com" Sample.pending
                (proj1 sample_db_constraints) eq_refl eq_refl eq_refl
                (proj2 sample_fresh))
      as (s1 & H1 & H2 & _).
    exists s1. split; assumption.
Defined.



Lemma postWaitlist_spec_witness :
  Routes.status
    (fst (Routes.postWaitlist SampleRequest.looksLikeEmail SampleRequest.typeMessage
            "id-1" "token-A" 1000%Z SampleRequest.badBody MemStorage.new)) = 400 /\
  Routes.status
    (fst (Routes.postWaitlist SampleRequest.looksLikeEmail SampleRequest.typeMessage
            "id-2" "token-B" 3000%Z SampleRequest.goodBody Sample.memPending)) = 409 /\
  Routes.status
    (fst (Routes.postWaitlist SampleRequest.looksLikeEmail SampleRequest.typeMessage
            "id-1" "token-A" 1000%Z SampleRequest.goodBody MemStorage.new)) = 201 /\
  Routes.status
    (fst (Routes.postWaitlist SampleRequest.looksLikeEmail SampleRequest.typeMessage
            "id-1" "token-A" 1000%Z SampleRequest.goodBody DatabaseStorage.new)) = 201.
Proof.
  destruct (postWaitlist_spec SampleRequest.looksLikeEmail SampleRequest.typeMessage)
    as (T1 & T2 & T3 & T4).
  unfold SampleRequest.goodBody.
  split; [|split; [|split]].
  - destruct (T1 _ memStorage "id-1" "token-A" 1000%Z SampleRequest.badBody
                MemStorage.new
                (ZodError ["Please enter a valid email address"]) eq_refl)
      as (errors & _ & H).
    rewrite H. reflexivity.
  - rewrite (T2 _ memStorage "id-2" "token-B" 3000%Z
               [("email", Routes.JString "a@b.com")] "a@b.com"
               Sample.memPending Sample.pending eq_refl eq_refl eq_refl).
    reflexivity.
  - destruct (T3 "id-1" "token-A" 1000%Z
                [("email", Routes.JString "a@b.com")] "a@b.com"
                MemStorage.new eq_refl eq_refl eq_refl)
      as (w & s' & H & _).
    rewrite H. reflexivity.
  - destruct (T4 "id-1" "token-A" 1000%Z
                [("email", Routes.JString "a@b.com")] "a@b.com"
                DatabaseStorage.new eq_refl eq_refl eq_refl
                (fun H => H) (fun H => H))
      as (w & s' & H & _).
    rewrite H. reflexivity.
Defined.

Lemma postResendConfirmation_already_confirmed_witness :
  Routes.postResendConfirmation SampleRequest.looksLikeEmail SampleRequest.typeMessage
    (Some "development") "token-C" SampleRequest.goodBody Sample.dbConfirmed =
  (Routes.respond 400
     [("message", Routes.JString "Email is already confirmed")],
   Sample.dbConfirmed).
Proof.
  exact (proj2 (proj2 (postResendConfirmation_already_confirmed
           SampleRequest.looksLikeEmail SampleRequest.typeMessage
           (Some "development") _ databaseStorage "token-C"
           [("email", Routes.JString "a@b.com")] "a@b.com"
           Sample.dbConfirmed Sample.confirmed eq_refl eq_refl eq_refl))
         eq_refl).
Defined.

(** * Further properties *)

(** ** Users *)

(** X1. [MemStorage.createUser] never fails; the user it returns carries
    the generated id and the submitted name and password, is what
    [getUser] then returns for that id, and leaves every other user and the
    waitlist as they were. *)
Theorem mem_createUser_getUser id u (s : MemStorage.t) :
  exists user s',
    MemStorage.createUser id u s = (Ok user, s') /\
    User.id user = id /\
    User.username user = InsertUser.username u /\
    User.password user = InsertUser.password u /\
    MemStorage.getUser id s' = Some user /\
    (forall id', id' <> id -> MemStorage.getUser id' s' = MemStorage.getUser id' s) /\
    MemStorage.waitlistEmails s' = MemStorage.waitlistEmails s.
Proof.
  eexists. eexists. split; [reflexivity|].
  repeat split; simpl.
  - unfold MemStorage.getUser. simpl. apply JsMap_get_set_same.
  - intros id' Hne. unfold MemStorage.getUser. simpl.
    apply JsMap_get_set_other. congruence.
Qed.

Lemma mem_createUser_getUser_witness :
  MemStorage.getUser "u-1"
    (snd (MemStorage.createUser "u-2" (InsertUser.mk "bob" "pw2")
            (snd (MemStorage.createUser "u-1" (InsertUser.mk "ann" "pw1")
                    MemStorage.new))))
  = Some (User.mk "u-1" "ann" "pw1").
Proof.
  destruct (mem_createUser_getUser "u-2" (InsertUser.mk "bob" "pw2")
              (snd (MemStorage.createUser "u-1" (InsertUser.mk "ann" "pw1")
                      MemStorage.new)))
    as (user & s' & H & _ & _ & _ & _ & Hframe & _).
  rewrite H. cbn [snd]. rewrite (Hframe "u-1"); [reflexivity | discriminate].
Defined.

(** X2. In [MemStorage] the first user registered under a name keeps it:
    after [createUser] with a new id, [getUserByUsername] returns what it
    returned before when that was a user, and the new user only when the
    name was free. Nothing stops two users from sharing a name. *)
Theorem mem_getUserByUsername_createUser id u name (s : MemStorage.t) :
  MemStorage.getUser id s = None ->
  MemStorage.getUserByUsername name (snd (MemStorage.createUser id u s)) =
  match MemStorage.getUserByUsername name s with
  | Some earlier => Some earlier
  | None =>
      if String.eqb (InsertUser.username u) name
      then Some (User.mk id (InsertUser.username u) (InsertUser.password u))
      else None
  end.
Proof.
  unfold MemStorage.getUser, MemStorage.getUserByUsername. intros Hfree. simpl.
  rewrite JsMap_set_absent by assumption.
  rewrite mem_values_app. simpl.
  destruct (find _ (JsMap.values (MemStorage.users s))) as [earlier|] eqn:E.
  - now apply find_app_hit.
  - rewrite find_app_miss by assumption. simpl.
    now destruct (String.eqb (InsertUser.username u) name).
Qed.

Lemma mem_getUserByUsername_createUser_witness :
  MemStorage.getUserByUsername "ann"
    (snd (MemStorage.createUser "u-2" (InsertUser.mk "ann" "pw2")
            (snd (MemStorage.createUser "u-1" (InsertUser.mk "ann" "pw1")
                    MemStorage.new))))
  = Some (User.mk "u-1" "ann" "pw1").
Proof.
  rewrite (mem_getUserByUsername_createUser "u-2" (InsertUser.mk "ann" "pw2") "ann"
             (snd (MemStorage.createUser "u-1" (InsertUser.mk "ann" "pw1")
                     MemStorage.new)) eq_refl).
  reflexivity.
Defined.

(** X3. [DatabaseStorage.createUser] throws and keeps the database when the
    generated id or the name is already taken; otherwise it inserts the
    user, whom [getUser] and [getUserByUsername] then return, and leaves the
    waitlist as it was. *)
Theorem db_createUser_spec :
  (forall id u (s : DatabaseStorage.t),
      DatabaseStorage.getUser id s <> None \/
      DatabaseStorage.getUserByUsername (InsertUser.username u) s <> None ->
      exists column,
        DatabaseStorage.createUser id u s = (Throw (UniqueViolation column), s)) /\
  (forall id u (s : DatabaseStorage.t),
      DatabaseStorage.getUser id s = None ->
      DatabaseStorage.getUserByUsername (InsertUser.username u) s = None ->
      exists user s',
        DatabaseStorage.createUser id u s = (Ok user, s') /\
        user = User.mk id (InsertUser.username u) (InsertUser.password u) /\
        DatabaseStorage.getUser id s' = Some user /\
        DatabaseStorage.getUserByUsername (InsertUser.username u) s' = Some user /\
        DatabaseStorage.waitlistEmails s' = DatabaseStorage.waitlistEmails s).
Proof.
  split.
  - intros id u s H.
    unfold DatabaseStorage.createUser, DatabaseStorage.insertUser. simpl.
    destruct (existsb (fun r => String.eqb (User.id r) id) (DatabaseStorage.users s))
      eqn:E1; [now exists "id"|].
    destruct (existsb (fun r => String.eqb (User.username r) (InsertUser.username u))
                (DatabaseStorage.users s)) eqn:E2; [now exists "username"|].
    exfalso. destruct H as [H|H]; apply H.
    + apply find_nothing. exact (existsb_false_In _ _ E1).
    + apply find_nothing. exact (existsb_false_In _ _ E2).
  - intros id u s Hid Hname.
    unfold DatabaseStorage.getUser, DatabaseStorage.getUserByUsername in *.
    eexists. eexists. split; [|split; [reflexivity|]].
    + unfold DatabaseStorage.createUser, DatabaseStorage.insertUser. simpl.
      rewrite (existsb_nothing _ _ (find_none _ _ Hid)).
      rewrite (existsb_nothing _ _ (find_none _ _ Hname)).
      reflexivity.
    + simpl. rewrite !find_app_miss by assumption. simpl.
      rewrite !String.eqb_refl. auto.
Qed.

Lemma db_createUser_spec_witness :
  (exists column,
      DatabaseStorage.createUser "u-2" (InsertUser.mk "ann" "pw2")
        (DatabaseStorage.mk [User.mk "u-1" "ann" "pw1"] [])
      = (Throw (UniqueViolation column),
         DatabaseStorage.mk [User.mk "u-1" "ann" "pw1"] [])) /\
  fst (DatabaseStorage.createUser "u-1" (InsertUser.mk "ann" "pw1") DatabaseStorage.new)
  = Ok (User.mk "u-1" "ann" "pw1").
Proof.
  destruct db_createUser_spec as [T1 T2]. split.
  - apply T1. right. discriminate.
  - destruct (T2 "u-1" (InsertUser.mk "ann" "pw1") DatabaseStorage.new eq_refl eq_refl)
      as (user & s' & H & -> & _).
    rewrite H. reflexivity.
Defined.

(** ** What every reachable store satisfies *)

Lemma JsMap_get_entry {V} k (v : V) (m : JsMap.t V) :
  JsMap.get k m = Some v -> In (k, v) m.
Proof.
  intros H. destruct (JsMap_get_split k v m H) as (l1 & l2 & -> & _).
  apply in_or_app. right. now left.
Qed.

Lemma Forall_entries_set {V} (P : string * V -> Prop) k v (m : JsMap.t V) :
  Forall P m -> P (k, v) -> Forall P (JsMap.set k v m).
Proof.
  intros Hm Hv. induction m as [|[k' v'] m IH]; simpl.
  - now constructor.
  - inversion Hm; subst.
    destruct (String.eqb_spec k' k) as [->|]; constructor; auto.
Qed.

(** [set] notes the key the way [noteFirst] does. *)
Lemma JsMap_keys_set {V} k (v : V) (m : JsMap.t V) :
  JsMap.keys (JsMap.set k v m) = noteFirst (JsMap.keys m) k.
Proof.
  unfold noteFirst. induction m as [|[k' v'] m IH]; simpl; auto.
  rewrite (String.eqb_sym k k').
  destruct (String.eqb k' k); simpl; auto.
  rewrite IH. now destruct (existsb (String.eqb k) (JsMap.keys m)).
Qed.

Lemma noteFirst_present seen x : In x seen -> noteFirst seen x = seen.
Proof.
  intros H. unfold noteFirst.
  assert (E : existsb (String.eqb x) seen = true).
  { apply existsb_exists. exists x. split; auto. apply String.eqb_refl. }
  now rewrite E.
Qed.

Lemma mem_keyed_emails (s : MemStorage.t) :
  keyedByEmail s ->
  map WaitlistEmail.email (MemStorage.rows s) = JsMap.keys (MemStorage.waitlistEmails s).
Proof.
  unfold keyedByEmail, MemStorage.rows, JsMap.values, JsMap.keys.
  induction (MemStorage.waitlistEmails s) as [|[k w] m IH]; simpl; auto.
  intros H. inversion H; subst. simpl in *. f_equal; auto.
Qed.

(** The four facts [MemStorage] keeps about its two maps. *)
Lemma mem_keyed_call c (s : MemStorage.t) :
  JsMap.ok (MemStorage.users s) /\ JsMap.ok (MemStorage.waitlistEmails s) /\
  keyedById s /\ keyedByEmail s ->
  JsMap.ok (MemStorage.users (call c s)) /\
  JsMap.ok (MemStorage.waitlistEmails (call c s)) /\
  keyedById (call c s) /\ keyedByEmail (call c s).
Proof.
  unfold keyedById, keyedByEmail. intros (Hu & Hw & Hid & Hemail).
  destruct c as [id u|id token now e|now token|newToken email]; simpl.
  - repeat split; auto.
    + now apply JsMap_ok_set.
    + now apply Forall_entries_set.
  - repeat split; auto.
    + now apply JsMap_ok_set.
    + now apply Forall_entries_set.
  - unfold MemStorage.confirmEmail.
    destruct (find _ _) as [[k w]|] eqn:E; simpl; auto.
    repeat split; auto.
    + now apply JsMap_ok_set.
    + apply Forall_entries_set; auto. simpl.
      apply find_some in E as [Hin _].
      rewrite Forall_forall in Hemail. exact (Hemail _ Hin).
  - unfold MemStorage.regenerateConfirmationToken.
    destruct (JsMap.get email _) as [w|] eqn:E; simpl; auto.
    repeat split; auto.
    + now apply JsMap_ok_set.
    + apply Forall_entries_set; auto. simpl.
      apply JsMap_get_entry in E.
      rewrite Forall_forall in Hemail. exact (Hemail _ E).
Qed.

Lemma mem_keyed_calls cs (s : MemStorage.t) :
  JsMap.ok (MemStorage.users s) /\ JsMap.ok (MemStorage.waitlistEmails s) /\
  keyedById s /\ keyedByEmail s ->
  JsMap.ok (MemStorage.users (snd (calls cs s))) /\
  JsMap.ok (MemStorage.waitlistEmails (snd (calls cs s))) /\
  keyedById (snd (calls cs s)) /\ keyedByEmail (snd (calls cs s)).
Proof.
  revert s. induction cs as [|c cs IH]; intros s Hs; cbn [calls].
  - exact Hs.
  - specialize (IH (call c s) (mem_keyed_call c s Hs)).
    destruct (calls cs (call c s)). exact IH.
Qed.

(** X4. Whatever calls were made on a [MemStorage] since it was
    constructed, and whatever ids and tokens they drew: [getUser] returns a
    user with the id asked for, [getWaitlistEmail] an entry with the email
    asked for, and no two stored entries share an email. *)
Theorem mem_reached_keyed cs :
  let s := snd (calls cs MemStorage.new) in
  (forall id user, MemStorage.getUser id s = Some user -> User.id user = id) /\
  (forall email w, MemStorage.getWaitlistEmail email s = Some w ->
                   WaitlistEmail.email w = email) /\
  NoDup (map WaitlistEmail.email (MemStorage.rows s)).
Proof.
  intros s.
  destruct (mem_keyed_calls cs MemStorage.new) as (Hu & Hw & Hid & Hemail).
  { repeat split; constructor. }
  fold s in Hu, Hw, Hid, Hemail. repeat split.
  - intros id user H. apply JsMap_get_entry in H.
    unfold keyedById in Hid. rewrite Forall_forall in Hid. exact (Hid _ H).
  - intros email w H. apply JsMap_get_entry in H.
    unfold keyedByEmail in Hemail. rewrite Forall_forall in Hemail.
    exact (Hemail _ H).
  - now rewrite mem_keyed_emails.
Qed.

Lemma mem_reached_keyed_witness :
  option_map WaitlistEmail.email
    (MemStorage.getWaitlistEmail "a@b.com"
       (snd (calls [Sample.signup; Sample.confirm; Sample.signupAgain] MemStorage.new)))
  = Some "a@b.com".
Proof.
  destruct (MemStorage.getWaitlistEmail "a@b.com"
              (snd (calls [Sample.signup; Sample.confirm; Sample.signupAgain]
                      MemStorage.new))) as [w|] eqn:E.
  - simpl. f_equal.
    exact (proj1 (proj2 (mem_reached_keyed
                           [Sample.signup; Sample.confirm; Sample.signupAgain]))
             "a@b.com" w E).
  - vm_compute in E. discriminate E.
Defined.

Lemma db_userConstraints_call c (s : DatabaseStorage.t) :
  userConstraints s -> userConstraints (call c s).
Proof.
  unfold userConstraints. intros [Hid Hname].
  destruct c as [id u|id token now e|now token|newToken email]; simpl.
  - unfold DatabaseStorage.createUser, DatabaseStorage.insertUser. simpl.
    destruct (existsb (fun r => String.eqb (User.id r) id) (DatabaseStorage.users s))
      eqn:E1; simpl; auto.
    destruct (existsb (fun r => String.eqb (User.username r) (InsertUser.username u))
                (DatabaseStorage.users s)) eqn:E2; simpl; auto.
    rewrite !map_app. simpl. split; apply NoDup_snoc; auto.
    + intros Hin. apply in_map_iff in Hin as (y & Hy & Hin).
      apply (existsb_false_In _ _ E1) in Hin. apply String.eqb_neq in Hin. auto.
    + intros Hin. apply in_map_iff in Hin as (y & Hy & Hin).
      apply (existsb_false_In _ _ E2) in Hin. apply String.eqb_neq in Hin. auto.
  - unfold DatabaseStorage.addToWaitlist.
    destruct (DatabaseStorage.insertWaitlistEmail _ _) as [[w|exn] tbl']; simpl; auto.
  - unfold DatabaseStorage.confirmEmail. simpl. auto.
  - unfold DatabaseStorage.regenerateConfirmationToken.
    destruct (DatabaseStorage.updateToken _ _ _) as [[[|w rest]|exn] tbl']; simpl; auto.
Qed.

(** X5. Whatever calls were made on a [DatabaseStorage] since the tables
    were empty, and whatever ids and tokens they drew (a clash is refused by
    the statement): ids, emails and present tokens of the waitlist are
    pairwise distinct, and so are the ids and the names of the users. *)
Theorem db_reached_constraints cs :
  DatabaseStorage.constraints (snd (calls cs DatabaseStorage.new)) /\
  userConstraints (snd (calls cs DatabaseStorage.new)).
Proof.
  split.
  - apply db_constraints_calls. apply db_constraints_new.
  - assert (H : forall s, userConstraints s -> userConstraints (snd (calls cs s))).
    { induction cs as [|c cs IH]; intros s Hs; cbn [calls]; auto.
      specialize (IH (call c s) (db_userConstraints_call c s Hs)).
      destruct (calls cs (call c s)). exact IH. }
    apply H. split; constructor.
Qed.

(** ** The waitlist only grows *)

Lemma mem_keys_call c (s : MemStorage.t) :
  JsMap.keys (MemStorage.waitlistEmails (call c s)) =
  match c with
  | AddToWaitlist _ _ _ e =>
      noteFirst (JsMap.keys (MemStorage.waitlistEmails s)) (InsertWaitlistEmail.email e)
  | _ => JsMap.keys (MemStorage.waitlistEmails s)
  end.
Proof.
  destruct c as [id u|id token now e|now token|newToken email]; simpl.
  - reflexivity.
  - apply JsMap_keys_set.
  - unfold MemStorage.confirmEmail.
    destruct (find _ _) as [[k w]|] eqn:E; simpl; auto.
    rewrite JsMap_keys_set. apply noteFirst_present.
    apply find_some in E as [Hin _]. exact (in_map fst _ _ Hin).
  - unfold MemStorage.regenerateConfirmationToken.
    destruct (JsMap.get email _) as [w|] eqn:E; simpl; auto.
    rewrite JsMap_keys_set. apply noteFirst_present.
    apply JsMap_get_entry in E. exact (in_map fst _ _ E).
Qed.

Lemma mem_keys_calls cs (s : MemStorage.t) :
  JsMap.keys (MemStorage.waitlistEmails (snd (calls cs s))) =
  fold_left noteFirst (addedEmails cs) (JsMap.keys (MemStorage.waitlistEmails s)).
Proof.
  revert s. induction cs as [|c cs IH]; intros s; cbn [calls].
  - reflexivity.
  - specialize (IH (call c s)). rewrite mem_keys_call in IH.
    destruct (calls cs (call c s)) as [n s']. cbn [snd] in *. rewrite IH.
    destruct c; reflexivity.
Qed.

(** X6. The entries of a [MemStorage] iterate in the order in which their
    emails were first passed to [addToWaitlist], each email once; so
    [getWaitlistCount] is the number of distinct emails added, whatever
    else was called in between. *)
Theorem mem_iteration_order cs :
  JsMap.keys (MemStorage.waitlistEmails (snd (calls cs MemStorage.new))) =
    firstOccurrences (addedEmails cs) /\
  MemStorage.getWaitlistCount (snd (calls cs MemStorage.new)) =
    length (firstOccurrences (addedEmails cs)).
Proof.
  assert (H := mem_keys_calls cs MemStorage.new). split.
  - exact H.
  - unfold MemStorage.getWaitlistCount, JsMap.size, firstOccurrences.
    simpl in H. rewrite <- H. unfold JsMap.keys. now rewrite length_map.
Qed.

Lemma noteFirst_keeps seen x y : In y seen -> In y (noteFirst seen x).
Proof.
  unfold noteFirst. intros H.
  destruct (existsb _ _); auto. apply in_or_app. now left.
Qed.

Lemma mem_present_call c (s : MemStorage.t) email :
  MemStorage.getWaitlistEmail email s <> None ->
  MemStorage.getWaitlistEmail email (call c s) <> None.
Proof.
  unfold MemStorage.getWaitlistEmail. rewrite !JsMap_get_None.
  intros H Hn. apply H. intros Hin. apply Hn.
  rewrite mem_keys_call. destruct c; auto. now apply noteFirst_keeps.
Qed.

Lemma db_identity_call c (s : DatabaseStorage.t) email w :
  DatabaseStorage.getWaitlistEmail email s = Some w ->
  exists w', DatabaseStorage.getWaitlistEmail email (call c s) = Some w' /\
             WaitlistEmail.id w' = WaitlistEmail.id w /\
             WaitlistEmail.email w' = WaitlistEmail.email w /\
             WaitlistEmail.createdAt w' = WaitlistEmail.createdAt w.
Proof.
  unfold DatabaseStorage.getWaitlistEmail. intros Hget.
  destruct c as [id u|id token now e|now token|newToken email']; simpl.
  - exists w. split; auto.
    unfold DatabaseStorage.createUser.
    destruct (DatabaseStorage.insertUser _ _) as [[user|exn] tbl']; simpl; auto.
  - exists w. split; auto.
    unfold DatabaseStorage.addToWaitlist.
    destruct (db_insert_cases
                (WaitlistEmail.mk id (InsertWaitlistEmail.email e) now false
                   (Some token) None)
                (DatabaseStorage.waitlistEmails s))
      as [[column ->]|(-> & _)]; simpl; auto.
    now apply find_app_hit.
  - unfold DatabaseStorage.confirmEmail. simpl.
    rewrite find_map_stable, Hget; simpl.
    + eexists. split; [reflexivity|]. now destruct (confirmable token w).
    + intros x. now destruct (confirmable token x).
  - unfold DatabaseStorage.regenerateConfirmationToken, DatabaseStorage.updateToken.
    set (where_ := fun r => String.eqb (WaitlistEmail.email r) email').
    destruct (filter where_ _) as [|w0 others] eqn:Ef; simpl; [now exists w|].
    destruct (existsb _ _); simpl; [now exists w|].
    destruct others; simpl; [|now exists w].
    rewrite Ef. simpl. rewrite find_map_stable, Hget; simpl.
    + eexists. split; [reflexivity|]. now destruct (where_ w).
    + intros x. now destruct (where_ x).
Qed.

(** X7. No storage call takes an email off the waitlist. In [MemStorage] an
    email that [getWaitlistEmail] finds is still found after any run of
    calls; in [DatabaseStorage] it is found with the same id, email and
    creation time. *)
Theorem waitlist_entries_stay :
  (forall cs (s : MemStorage.t) email,
      MemStorage.getWaitlistEmail email s <> None ->
      MemStorage.getWaitlistEmail email (snd (calls cs s)) <> None) /\
  (forall cs (s : DatabaseStorage.t) email w,
      DatabaseStorage.getWaitlistEmail email s = Some w ->
      exists w',
        DatabaseStorage.getWaitlistEmail email (snd (calls cs s)) = Some w' /\
        WaitlistEmail.id w' = WaitlistEmail.id w /\
        WaitlistEmail.email w' = WaitlistEmail.email w /\
        WaitlistEmail.createdAt w' = WaitlistEmail.createdAt w).
Proof.
  split.
  - intros cs. induction cs as [|c cs IH]; intros s email H; cbn [calls].
    + exact H.
    + specialize (IH (call c s) email (mem_present_call c s email H)).
      destruct (calls cs (call c s)). exact IH.
  - intros cs. induction cs as [|c cs IH]; intros s email w H; cbn [calls].
    + now exists w.
    + destruct (db_identity_call c s email w H) as (w1 & H1 & Hi & He & Hc).
      destruct (IH (call c s) email w1 H1) as (w' & H' & Hi' & He' & Hc').
      destruct (calls cs (call c s)). exists w'. cbn [snd] in *.
      repeat split; congruence.
Qed.

Lemma waitlist_entries_stay_witness :
  MemStorage.getWaitlistEmail "a@b.com"
    (snd (calls [Sample.confirm; Sample.resend; Sample.signupAgain] Sample.memPending))
  <> None /\
  exists w',
    DatabaseStorage.getWaitlistEmail "a@b.com"
      (snd (calls [Sample.confirm; Sample.resend; Sample.signupAgain] Sample.dbPending))
    = Some w' /\
    WaitlistEmail.id w' = "id-1".
Proof.
  destruct waitlist_entries_stay as [T1 T2]. split.
  - apply T1. discriminate.
  - destruct (T2 [Sample.confirm; Sample.resend; Sample.signupAgain]
                Sample.dbPending "a@b.com" Sample.pending eq_refl)
      as (w' & H & Hi & _).
    exists w'. split; assumption.
Defined.

(** X8. [getWaitlistCount] never goes down: after any run of calls, on
    either store, the count is at least what it was. *)
Theorem count_never_decreases :
  (forall cs (s : MemStorage.t),
      MemStorage.getWaitlistCount s <= MemStorage.getWaitlistCount (snd (calls cs s))) /\
  (forall cs (s : DatabaseStorage.t),
      DatabaseStorage.getWaitlistCount s <=
      DatabaseStorage.getWaitlistCount (snd (calls cs s))).
Proof.
  split.
  - intros cs. induction cs as [|c cs IH]; intros s; cbn [calls].
    + cbn [snd]. lia.
    + specialize (IH (call c s)). assert (H := mem_count_call c s).
      destruct (calls cs (call c s)). cbn [snd] in *.
      change (getWaitlistCount (call c s)) with (MemStorage.getWaitlistCount (call c s)) in H.
      change (getWaitlistCount s) with (MemStorage.getWaitlistCount s) in H.
      lia.
  - intros cs s. assert (H := db_count_successful_adds cs s).
    change (getWaitlistCount (snd (calls cs s)))
      with (DatabaseStorage.getWaitlistCount (snd (calls cs s))) in H.
    change (getWaitlistCount s) with (DatabaseStorage.getWaitlistCount s) in H.
    lia.
Qed.

(** X9. From the empty database, [getWaitlistCount] is the number of
    [addToWaitlist] calls that resolved, whatever was called in between and
    whatever the calls drew. *)
Theorem db_count_is_successful_adds cs :
  DatabaseStorage.getWaitlistCount (snd (calls cs DatabaseStorage.new)) =
  fst (calls cs DatabaseStorage.new).
Proof.
  assert (H := db_count_successful_adds cs DatabaseStorage.new).
  exact H.
Qed.

(** ** Looking an entry up by its token *)

Lemma find_map {A B} (p : B -> bool) (f : A -> B) (l : list A) :
  find p (map f l) = option_map f (find (fun x => p (f x)) l).
Proof.
  induction l as [|a l IH]; simpl; auto.
  destruct (p (f a)); auto.
Qed.

(** X10. The entry [addToWaitlist] returns is the one found afterwards by
    its email and by its token: in [MemStorage] when the generated token is
    carried by no stored entry, in [DatabaseStorage] whenever the call
    resolves. *)
Theorem addToWaitlist_then_lookup :
  (forall id token now e (s : MemStorage.t),
      ~ In token (tokens (MemStorage.rows s)) ->
      exists w s',
        MemStorage.addToWaitlist id token now e s = (Ok w, s') /\
        w = WaitlistEmail.mk id (InsertWaitlistEmail.email e) now false
              (Some token) None /\
        MemStorage.getWaitlistEmail (InsertWaitlistEmail.email e) s' = Some w /\
        MemStorage.getWaitlistEmailByToken token s' = Some w) /\
  (forall id token now e (s s' : DatabaseStorage.t) w,
      DatabaseStorage.addToWaitlist id token now e s = (Ok w, s') ->
      w = WaitlistEmail.mk id (InsertWaitlistEmail.email e) now false
            (Some token) None /\
      DatabaseStorage.getWaitlistEmail (InsertWaitlistEmail.email e) s' = Some w /\
      DatabaseStorage.getWaitlistEmailByToken token s' = Some w).
Proof.
  split.
  - intros id token now e s Hfresh.
    eexists. eexists. split; [reflexivity|]. split; [reflexivity|]. split.
    + unfold MemStorage.getWaitlistEmail. simpl. apply JsMap_get_set_same.
    + unfold MemStorage.getWaitlistEmailByToken, MemStorage.rows in *. simpl.
      set (w := WaitlistEmail.mk id (InsertWaitlistEmail.email e) now false
                  (Some token) None).
      assert (Hw : tokenIs token w = true) by (unfold tokenIs; simpl; apply String.eqb_refl).
      destruct (mem_set_rows (InsertWaitlistEmail.email e) w (MemStorage.waitlistEmails s))
        as [(w0 & l1 & l2 & Hs & ->)|[_ ->]]; rewrite mem_values_app; simpl.
      * apply find_first; auto.
        intros y Hy. apply (not_In_tokens token _ Hfresh).
        rewrite Hs, mem_values_app. apply in_or_app. now left.
      * rewrite find_app_miss.
        -- simpl. now rewrite Hw.
        -- apply find_nothing. now apply not_In_tokens.
  - intros id token now e s s' w H.
    unfold DatabaseStorage.addToWaitlist in H.
    destruct (db_insert_cases
                (WaitlistEmail.mk id (InsertWaitlistEmail.email e) now false
                   (Some token) None)
                (DatabaseStorage.waitlistEmails s))
      as [[column Hi]|(Hi & _ & Hemail & Htok)]; rewrite Hi in H.
    + discriminate.
    + injection H as <- <-. simpl in *. split; [reflexivity|]. split.
      * unfold DatabaseStorage.getWaitlistEmail. simpl.
        rewrite find_app_miss.
        -- simpl. now rewrite String.eqb_refl.
        -- apply find_nothing. intros y Hy. apply String.eqb_neq.
           intros Heq. apply Hemail. rewrite <- Heq. now apply in_map.
      * unfold DatabaseStorage.getWaitlistEmailByToken. simpl.
        rewrite find_app_miss.
        -- unfold tokenIs. simpl. now rewrite String.eqb_refl.
        -- apply find_nothing. now apply not_In_tokens.
Qed.

Lemma addToWaitlist_then_lookup_witness :
  MemStorage.getWaitlistEmailByToken "token-B"
    (snd (MemStorage.addToWaitlist "id-2" "token-B" 3000%Z Sample.address
            Sample.memPending))
  = Some Sample.replaced /\
  DatabaseStorage.getWaitlistEmailByToken "token-A"
    (snd (DatabaseStorage.addToWaitlist "id-1" "token-A" 1000%Z Sample.address
            DatabaseStorage.new))
  = Some Sample.pending.
Proof.
  destruct addToWaitlist_then_lookup as [T1 T2]. split.
  - destruct (T1 "id-2" "token-B" 3000%Z Sample.address Sample.memPending)
      as (w & s' & H & -> & _ & Ht).
    + simpl. intros [H|[]]. discriminate H.
    + rewrite H. exact Ht.
  - destruct (T2 "id-1" "token-A" 1000%Z Sample.address DatabaseStorage.new
                Sample.dbPending Sample.pending eq_refl)
      as (_ & _ & Ht).
    exact Ht.
Defined.

Lemma not_tokenIs_not_confirmable token y :
  tokenIs token y = false -> confirmable token y = false.
Proof. unfold confirmable. now intros ->. Qed.

Lemma mem_confirmEmail_lookup now token (s : MemStorage.t) :
  MemStorage.invariant s ->
  fst (MemStorage.confirmEmail now token s) =
    match MemStorage.getWaitlistEmailByToken token s with
    | Some w => if WaitlistEmail.confirmed w then None
                else Some (markConfirmed now w)
    | None => None
    end /\
  MemStorage.getWaitlistEmailByToken token (snd (MemStorage.confirmEmail now token s)) =
    match MemStorage.getWaitlistEmailByToken token s with
    | Some w => if WaitlistEmail.confirmed w then Some w else None
    | None => None
    end.
Proof.
  revert now token s.
  intros now token s [Hok Htok].
  unfold MemStorage.getWaitlistEmailByToken, JsMap.values.
  rewrite find_map.
  destruct (find (fun x => tokenIs token (snd x)) (MemStorage.waitlistEmails s))
    as [[k w]|] eqn:E; simpl.
  + apply find_split in E as (l1 & l2 & Hs & Hw & Hl1). simpl in Hw.
    unfold MemStorage.rows in Htok. rewrite Hs, mem_values_app in Htok.
    simpl in Htok.
    assert (Hothers := tokens_unique_others token w _ _ Htok Hw).
    assert (Hk : ~ In k (JsMap.keys l1)).
    { unfold JsMap.ok, JsMap.keys in Hok. rewrite Hs, map_app in Hok.
      simpl in Hok. apply NoDup_remove_2 in Hok.
      intros Hin. apply Hok, in_or_app. now left. }
    assert (Hrest : forall y, In y (l1 ++ l2) -> tokenIs token (snd y) = false).
    { intros y Hy. apply Hothers. rewrite <- mem_values_app.
      exact (in_map snd _ _ Hy). }
    destruct (WaitlistEmail.confirmed w) eqn:C.
    * rewrite mem_confirmEmail_none.
      -- simpl. split; auto. rewrite find_map.
         rewrite Hs, (find_first (fun x => tokenIs token (snd x)) l1 l2 (k, w));
           auto.
      -- rewrite Hs. intros y Hy. apply in_app_or in Hy as [Hy|[<-|Hy]].
         ++ apply not_tokenIs_not_confirmable, Hrest, in_or_app. now left.
         ++ unfold confirmable. simpl. rewrite C. apply andb_false_r.
         ++ apply not_tokenIs_not_confirmable, Hrest, in_or_app. now right.
    * rewrite (mem_confirmEmail_at now token s l1 k w l2); auto.
      -- simpl. split; auto. apply find_nothing. intros y Hy.
         apply in_map_iff in Hy as (x & <- & Hx).
         apply in_app_or in Hx as [Hx|[<-|Hx]].
         ++ apply Hrest, in_or_app. now left.
         ++ reflexivity.
         ++ apply Hrest, in_or_app. now right.
      -- intros y Hy. now apply not_tokenIs_not_confirmable, Hl1.
      -- unfold confirmable. now rewrite Hw, C.
  + assert (Hnone := find_none _ _ E).
    rewrite mem_confirmEmail_none.
    * simpl. split; auto. now rewrite find_map, E.
    * intros y Hy. now apply not_tokenIs_not_confirmable, Hnone.
Qed.

Lemma db_confirmEmail_lookup now token (s : DatabaseStorage.t) :
  NoDup (tokens (DatabaseStorage.rows s)) ->
  fst (DatabaseStorage.confirmEmail now token s) =
    match DatabaseStorage.getWaitlistEmailByToken token s with
    | Some w => if WaitlistEmail.confirmed w then None
                else Some (markConfirmed now w)
    | None => None
    end /\
  DatabaseStorage.getWaitlistEmailByToken token
    (snd (DatabaseStorage.confirmEmail now token s)) =
    match DatabaseStorage.getWaitlistEmailByToken token s with
    | Some w => if WaitlistEmail.confirmed w then Some w else None
    | None => None
    end.
Proof.
  revert now token s.
  intros now token s Htok.
  unfold DatabaseStorage.getWaitlistEmailByToken, DatabaseStorage.rows in *.
  destruct (find (tokenIs token) (DatabaseStorage.waitlistEmails s)) as [w|] eqn:E.
  + apply find_split in E as (l1 & l2 & Hs & Hw & Hl1).
    rewrite Hs in Htok.
    assert (Hothers := tokens_unique_others token w _ _ Htok Hw).
    destruct (WaitlistEmail.confirmed w) eqn:C.
    * rewrite db_confirmEmail_none.
      -- simpl. split; auto. rewrite Hs. now apply find_first.
      -- rewrite Hs. intros y Hy. apply in_app_or in Hy as [Hy|[<-|Hy]].
         ++ apply not_tokenIs_not_confirmable, Hothers, in_or_app. now left.
         ++ unfold confirmable. rewrite C. apply andb_false_r.
         ++ apply not_tokenIs_not_confirmable, Hothers, in_or_app. now right.
    * rewrite (db_confirmEmail_at now token s l1 w l2); auto.
      -- simpl. split; auto. apply find_nothing. intros y Hy.
         apply in_app_or in Hy as [Hy|[<-|Hy]].
         ++ apply Hothers, in_or_app. now left.
         ++ reflexivity.
         ++ apply Hothers, in_or_app. now right.
      -- intros y Hy. now apply not_tokenIs_not_confirmable, Hothers.
      -- unfold confirmable. now rewrite Hw, C.
  + assert (Hnone := find_none _ _ E).
    rewrite db_confirmEmail_none.
    * simpl. split; auto.
    * intros y Hy. now apply not_tokenIs_not_confirmable, Hnone.
Qed.

(** X11. With unique tokens, [confirmEmail(token)] confirms exactly what
    [getWaitlistEmailByToken(token)] finds when that entry is unconfirmed,
    and afterwards the token finds nothing; when the token is unknown, or
    held by a confirmed entry, [confirmEmail] returns absent and the lookup
    answers as before. In both stores. *)
Theorem confirmEmail_consumes_token :
  (forall now token (s : MemStorage.t),
      MemStorage.invariant s ->
      fst (MemStorage.confirmEmail now token s) =
        match MemStorage.getWaitlistEmailByToken token s with
        | Some w => if WaitlistEmail.confirmed w then None
                    else Some (markConfirmed now w)
        | None => None
        end /\
      MemStorage.getWaitlistEmailByToken token (snd (MemStorage.confirmEmail now token s)) =
        match MemStorage.getWaitlistEmailByToken token s with
        | Some w => if WaitlistEmail.confirmed w then Some w else None
        | None => None
        end) /\
  (forall now token (s : DatabaseStorage.t),
      NoDup (tokens (DatabaseStorage.rows s)) ->
      fst (DatabaseStorage.confirmEmail now token s) =
        match DatabaseStorage.getWaitlistEmailByToken token s with
        | Some w => if WaitlistEmail.confirmed w then None
                    else Some (markConfirmed now w)
        | None => None
        end /\
      DatabaseStorage.getWaitlistEmailByToken token
        (snd (DatabaseStorage.confirmEmail now token s)) =
        match DatabaseStorage.getWaitlistEmailByToken token s with
        | Some w => if WaitlistEmail.confirmed w then Some w else None
        | None => None
        end).
Proof.
  split.
  - exact mem_confirmEmail_lookup.
  - exact db_confirmEmail_lookup.
Qed.

Lemma confirmEmail_consumes_token_witness :
  MemStorage.getWaitlistEmailByToken "token-A"
    (snd (MemStorage.confirmEmail 2000%Z "token-A" Sample.memPending)) = None /\
  DatabaseStorage.getWaitlistEmailByToken "token-A"
    (snd (DatabaseStorage.confirmEmail 2000%Z "token-A" Sample.dbPending)) = None.
Proof.
  destruct confirmEmail_consumes_token as [T1 T2]. split.
  - rewrite (proj2 (T1 2000%Z "token-A" Sample.memPending (proj1 sample_mem_invariant))).
    reflexivity.
  - rewrite (proj2 (T2 2000%Z "token-A" Sample.dbPending
                      (proj2 (proj2 (proj1 sample_db_constraints))))).
    reflexivity.
Defined.

(** ** What a request can answer *)

Lemma firstMessage_not_empty errors : Routes.firstMessage errors <> "".
Proof.
  destruct errors as [|m rest]; simpl; [discriminate|].
  destruct (String.eqb_spec m ""); [discriminate | assumption].
Qed.

Section RouteOutcomes.
Variable isEmail : string -> bool.
Variable invalidType : string -> option Routes.Json -> string.
Variable NODE_ENV : option string.
Context {S : Type} {storage : IStorage S}.

(** The ways [POST /api/waitlist] can go. *)
Lemma postWaitlist_outcome id token now body (s : S) :
  let out := Routes.postWaitlist isEmail invalidType id token now body s in
  (exists errors,
      Routes.parse isEmail invalidType body = Throw (ZodError errors) /\
      out = (Routes.respond 400
               [("message", Routes.JString (Routes.firstMessage errors))], s)) \/
  (exists e w,
      Routes.parse isEmail invalidType body = Ok e /\
      getWaitlistEmail (InsertWaitlistEmail.email e) s = Some w /\
      out = (Routes.respond 409
               [("message", Routes.JString "Email already registered for waitlist")],
             s)) \/
  (exists e w s',
      Routes.parse isEmail invalidType body = Ok e /\
      getWaitlistEmail (InsertWaitlistEmail.email e) s = None /\
      addToWaitlist id token now e s = (Ok w, s') /\
      out = (Routes.respond 201
               [("message", Routes.JString "Successfully added to waitlist");
                ("email", Routes.JString (WaitlistEmail.email w))], s')) \/
  (exists e exn s',
      Routes.parse isEmail invalidType body = Ok e /\
      getWaitlistEmail (InsertWaitlistEmail.email e) s = None /\
      addToWaitlist id token now e s = (Throw exn, s') /\
      out = (Routes.onError exn, s')).
Proof.
  unfold Routes.postWaitlist, Routes.tryCatch, Routes.bind, Routes.lift,
    Routes.await, Routes.ret. simpl.
  destruct (Routes.parse isEmail invalidType body) as [e|exn] eqn:P; simpl.
  - destruct (getWaitlistEmail (InsertWaitlistEmail.email e) s) as [w|] eqn:G; simpl.
    + right. left. exists e, w. auto.
    + destruct (addToWaitlist id token now e s) as [[w|exn] s'] eqn:A.
      * right. right. left. exists e, w, s'. auto.
      * right. right. right. exists e, exn, s'. auto.
  - left. destruct (parse_throws_ZodError _ _ _ _ P) as [errors ->].
    exists errors. auto.
Qed.

(** The ways [POST /api/waitlist/confirm/:token] can go. *)
Lemma postConfirm_outcome now token (s : S) :
  let out := Routes.postConfirm now token s in
  (token = "" /\
   out = (Routes.respond 400
            [("message", Routes.JString "Confirmation token is required")], s)) \/
  (exists s',
      token <> "" /\ confirmEmail now token s = (None, s') /\
      out = (Routes.respond 404
               [("message", Routes.JString "Invalid or expired confirmation token")],
             s')) \/
  (exists w s',
      token <> "" /\ confirmEmail now token s = (Some w, s') /\
      out = (Routes.respond 200
               [("message", Routes.JString "Email confirmed successfully");
                ("confirmed", Routes.JBool true)], s')).
Proof.
  unfold Routes.postConfirm, Routes.tryCatch, Routes.bind, Routes.run, Routes.ret.
  simpl. destruct (String.eqb_spec token "") as [->|Hne]; simpl.
  - left. auto.
  - destruct (confirmEmail now token s) as [[w|] s'] eqn:C; simpl.
    + right. right. exists w, s'. auto.
    + right. left. exists s'. auto.
Qed.

(** [process.env.NODE_ENV === 'development'] *)
Lemma development_cases {A} (env : option string) (yes no : A) :
  match env with
  | Some "development" => yes
  | _ => no
  end =
  if match env with
     | Some e => String.eqb e "development"
     | None => false
     end
  then yes else no.
Proof.
  destruct env as [e|]; [|reflexivity].
  destruct (String.eqb_spec e "development") as [->|Hne]; [reflexivity|].
  do 11 (destruct e as [|[[] [] [] [] [] [] [] []] e]; try reflexivity).
  destruct e; [congruence | reflexivity].
Qed.

(** The ways [POST /api/waitlist/resend-confirmation] can go. *)
Lemma postResendConfirmation_outcome newToken body (s : S) :
  let out :=
    Routes.postResendConfirmation isEmail invalidType NODE_ENV newToken body s in
  (exists errors,
      Routes.parse isEmail invalidType body = Throw (ZodError errors) /\
      out = (Routes.respond 400
               [("message", Routes.JString (Routes.firstMessage errors))], s)) \/
  (exists e,
      Routes.parse isEmail invalidType body = Ok e /\
      getWaitlistEmail (InsertWaitlistEmail.email e) s = None /\
      out = (Routes.respond 404
               [("message", Routes.JString "Email not found in waitlist")], s)) \/
  (exists e w,
      Routes.parse isEmail invalidType body = Ok e /\
      getWaitlistEmail (InsertWaitlistEmail.email e) s = Some w /\
      WaitlistEmail.confirmed w = true /\
      out = (Routes.respond 400
               [("message", Routes.JString "Email is already confirmed")], s)) \/
  (exists e w t s',
      Routes.parse isEmail invalidType body = Ok e /\
      getWaitlistEmail (InsertWaitlistEmail.email e) s = Some w /\
      WaitlistEmail.confirmed w = false /\
      regenerateConfirmationToken newToken (InsertWaitlistEmail.email e) s = (Ok t, s') /\
      out = (Routes.respond 200
               (("message", Routes.JString "Confirmation email resent") ::
                if match NODE_ENV with
                   | Some env => String.eqb env "development"
                   | None => false
                   end
                then [("token", Routes.JString t)] else []), s')) \/
  (exists e w exn s',
      Routes.parse isEmail invalidType body = Ok e /\
      getWaitlistEmail (InsertWaitlistEmail.email e) s = Some w /\
      WaitlistEmail.confirmed w = false /\
      regenerateConfirmationToken newToken (InsertWaitlistEmail.email e) s
        = (Throw exn, s') /\
      out = (Routes.onError exn, s')).
Proof.
  unfold Routes.postResendConfirmation, Routes.tryCatch, Routes.bind, Routes.lift,
    Routes.await, Routes.ret. simpl.
  destruct (Routes.parse isEmail invalidType body) as [e|exn] eqn:P; simpl.
  - destruct (getWaitlistEmail (InsertWaitlistEmail.email e) s) as [w|] eqn:G; simpl.
    + destruct (WaitlistEmail.confirmed w) eqn:C; simpl.
      * right. right. left. exists e, w. auto.
      * destruct (regenerateConfirmationToken newToken (InsertWaitlistEmail.email e) s)
          as [[t|exn] s'] eqn:R.
        -- right. right. right. left. exists e, w, t, s'.
           rewrite <- development_cases. auto.
        -- right. right. right. right. exists e, w, exn, s'. auto.
    + right. left. exists e. auto.
  - left. destruct (parse_throws_ZodError _ _ _ _ P) as [errors ->].
    exists errors. auto.
Qed.
End RouteOutcomes.

(** ** How the two stores fail *)

Lemma mem_regenerate_throw newToken email (s s' : MemStorage.t) exn :
  MemStorage.regenerateConfirmationToken newToken email s = (Throw exn, s') ->
  MemStorage.getWaitlistEmail email s = None /\ s' = s.
Proof.
  unfold MemStorage.regenerateConfirmationToken, MemStorage.getWaitlistEmail.
  destruct (JsMap.get email _); intros H; [discriminate|].
  injection H as _ <-. auto.
Qed.

Lemma db_addToWaitlist_throw id token now e (s s' : DatabaseStorage.t) exn :
  DatabaseStorage.addToWaitlist id token now e s = (Throw exn, s') ->
  s' = s /\ exists column, exn = UniqueViolation column.
Proof.
  unfold DatabaseStorage.addToWaitlist.
  destruct (db_insert_cases
              (WaitlistEmail.mk id (InsertWaitlistEmail.email e) now false
                 (Some token) None)
              (DatabaseStorage.waitlistEmails s))
    as [[column ->]|(-> & _)]; intros H; [|discriminate].
  injection H as <- <-. eauto.
Qed.

Lemma db_regenerate_throw newToken email (s s' : DatabaseStorage.t) exn :
  DatabaseStorage.regenerateConfirmationToken newToken email s = (Throw exn, s') ->
  s' = s /\
  (exn = Error "Email not found" \/ exn = UniqueViolation "confirmation_token").
Proof.
  unfold DatabaseStorage.regenerateConfirmationToken, DatabaseStorage.updateToken.
  destruct (filter _ _) as [|w others] eqn:Ef; simpl.
  - intros H. injection H as <- <-. auto.
  - destruct (existsb _ _); simpl.
    + intros H. injection H as <- <-. auto.
    + destruct others; simpl.
      * rewrite Ef. simpl. discriminate.
      * intros H. injection H as <- <-. auto.
Qed.

Lemma mem_confirmEmail_absent now token (s s' : MemStorage.t) :
  MemStorage.confirmEmail now token s = (None, s') -> s' = s.
Proof.
  unfold MemStorage.confirmEmail.
  destruct (find _ _) as [[k w]|]; intros H; [discriminate|].
  now injection H as <-.
Qed.

Lemma db_confirmEmail_absent now token (s s' : DatabaseStorage.t) :
  DatabaseStorage.confirmEmail now token s = (None, s') -> s' = s.
Proof.
  intros H.
  assert (Hnone : forall y, In y (DatabaseStorage.waitlistEmails s) ->
                            confirmable token y = false).
  { intros y Hy. destruct (confirmable token y) eqn:E; auto. exfalso.
    unfold DatabaseStorage.confirmEmail in H. simpl in H.
    injection H as H _.
    assert (Hin : In y (filter (confirmable token) (DatabaseStorage.waitlistEmails s)))
      by now apply filter_In.
    destruct (filter _ _); [destruct Hin | discriminate]. }
  rewrite (db_confirmEmail_none now token s Hnone) in H. now injection H as <-.
Qed.

Lemma onError_shape exn :
  exists m,
    Routes.body (Routes.onError exn) = [("message", Routes.JString m)] /\
    m <> "" /\
    (Routes.status (Routes.onError exn) = 400 \/
     Routes.status (Routes.onError exn) = 500 /\ m = "Internal server error").
Proof.
  destruct exn as [msg|errors|column]; simpl.
  - exists "Internal server error". repeat split; auto. discriminate.
  - exists (Routes.firstMessage errors). repeat split; auto.
    apply firstMessage_not_empty.
  - exists "Internal server error". repeat split; auto. discriminate.
Qed.

(** Over a store that does not fail, the handlers of [Async] are the
    handlers of [Routes]. *)
Lemma resolving_handle (isEmail : string -> bool)
    (invalidType : string -> option Routes.Json -> string)
    (NODE_ENV : option string) S (storage : IStorage S) (r : Request) (s : S) :
  Async.handle isEmail invalidType NODE_ENV (storage := resolving storage) r s =
  handle isEmail invalidType NODE_ENV r s.
Proof.
  destruct r as [id token now body| |now token|newToken body]; simpl.
  - unfold Async.postWaitlist, Routes.postWaitlist, Routes.tryCatch, Routes.bind,
      Routes.lift, Routes.await, Routes.ret.
    destruct (Routes.parse isEmail invalidType body) as [v|exn]; simpl; auto.
  - reflexivity.
  - unfold Async.postConfirm, Routes.postConfirm, Routes.tryCatch, Routes.bind,
      Routes.run, Routes.ret.
    destruct (String.eqb token ""); reflexivity.
  - unfold Async.postResendConfirmation, Routes.postResendConfirmation,
      Routes.tryCatch, Routes.bind, Routes.lift, Routes.await, Routes.ret.
    destruct (Routes.parse isEmail invalidType body) as [v|exn]; simpl; auto.
Qed.

(** X12. Whatever the request and whatever the storage behind the
    interface does, each of its promises resolving or rejecting, the lookups
    and [confirmEmail] like the writes: a response is a 200 or a 201, or it
    carries exactly one field, a non-empty [message], under a status among
    400, 404, 409 and 500; and the message of a 500 is "Internal server
    error" and nothing else: what the storage threw is not passed on. When
    every query rejects, each of the four routes answers that 500 to a
    request that reaches the storage. Over a store whose lookups do not
    fail, these handlers are the handlers of [Routes]. *)
Theorem error_responses_carry_a_message (isEmail : string -> bool)
    (invalidType : string -> option Routes.Json -> string)
    (NODE_ENV : option string) :
  (forall S (storage : Async.IStorage S) (r : Request) (s : S),
      let response := fst (Async.handle isEmail invalidType NODE_ENV r s) in
      Routes.status response = 200 \/ Routes.status response = 201 \/
      exists m,
        Routes.body response = [("message", Routes.JString m)] /\
        m <> "" /\
        (Routes.status response = 400 \/ Routes.status response = 404 \/
         Routes.status response = 409 \/
         Routes.status response = 500 /\ m = "Internal server error")) /\
  (forall (r : Request) (s : unit),
      reachesStorage isEmail invalidType r ->
      Async.handle isEmail invalidType NODE_ENV (storage := unreachable) r s =
      (Routes.respond 500 [("message", Routes.JString "Internal server error")], s)) /\
  (forall S (storage : IStorage S) (r : Request) (s : S),
      Async.handle isEmail invalidType NODE_ENV (storage := resolving storage) r s =
      handle isEmail invalidType NODE_ENV r s).
Proof.
  assert (Herr : forall exn,
             Routes.status (Routes.onError exn) = 200 \/
             Routes.status (Routes.onError exn) = 201 \/
             exists m,
               Routes.body (Routes.onError exn) = [("message", Routes.JString m)] /\
               m <> "" /\
               (Routes.status (Routes.onError exn) = 400 \/
                Routes.status (Routes.onError exn) = 404 \/
                Routes.status (Routes.onError exn) = 409 \/
                Routes.status (Routes.onError exn) = 500 /\
                m = "Internal server error")).
  { intros exn. right. right.
    destruct (onError_shape exn) as (m & Hb & Hm & [H|H]);
      exists m; split; auto; split; auto. }
  assert (Hmsg : forall status m,
             m <> "" ->
             status = 400 \/ status = 404 \/ status = 409 \/
             status = 500 /\ m = "Internal server error" ->
             let response := Routes.respond status [("message", Routes.JString m)] in
             Routes.status response = 200 \/ Routes.status response = 201 \/
             exists m',
               Routes.body response = [("message", Routes.JString m')] /\
               m' <> "" /\
               (Routes.status response = 400 \/ Routes.status response = 404 \/
                Routes.status response = 409 \/
                Routes.status response = 500 /\ m' = "Internal server error")).
  { intros status m Hm Hs. right. right. exists m. auto. }
  split; [|split].
  - intros S storage r s.
    destruct r as [id token now body| |now token|newToken body]; cbn [Async.handle].
    + unfold Async.postWaitlist, Routes.tryCatch, Routes.bind, Routes.lift, Routes.ret.
      destruct (Routes.parse isEmail invalidType body) as [v|exn]; [|apply Herr].
      destruct (Async.getWaitlistEmail (InsertWaitlistEmail.email v) s)
        as [[[w|]|exn] s1]; [| |apply Herr].
      * apply Hmsg; [discriminate|auto].
      * destruct (Async.addToWaitlist id token now v s1) as [[w|exn] s2];
          [|apply Herr].
        right. left. reflexivity.
    + unfold Async.getCount, Routes.tryCatch, Routes.bind, Routes.ret.
      destruct (Async.getWaitlistCount s) as [[n|exn] s1].
      * left. reflexivity.
      * apply Hmsg; [discriminate|auto].
    + unfold Async.postConfirm, Routes.tryCatch, Routes.bind, Routes.ret.
      destruct (String.eqb token "").
      * apply Hmsg; [discriminate|auto].
      * destruct (Async.confirmEmail now token s) as [[[w|]|exn] s1].
        -- left. reflexivity.
        -- apply Hmsg; [discriminate|auto].
        -- apply Hmsg; [discriminate|auto].
    + unfold Async.postResendConfirmation, Routes.tryCatch, Routes.bind,
        Routes.lift, Routes.ret.
      destruct (Routes.parse isEmail invalidType body) as [v|exn]; [|apply Herr].
      destruct (Async.getWaitlistEmail (InsertWaitlistEmail.email v) s)
        as [[[w|]|exn] s1]; [| |apply Herr].
      * destruct (WaitlistEmail.confirmed w).
        -- apply Hmsg; [discriminate|auto].
        -- destruct (Async.regenerateConfirmationToken newToken
                       (InsertWaitlistEmail.email v) s1) as [[t|exn] s2];
             [|apply Herr].
           left. reflexivity.
      * apply Hmsg; [discriminate|auto].
  - intros r s Hr.
    destruct r as [id token now body| |now token|newToken body]; simpl in Hr;
      cbn [Async.handle].
    + destruct Hr as [v Hv].
      unfold Async.postWaitlist, Routes.tryCatch, Routes.bind, Routes.lift.
      rewrite Hv. reflexivity.
    + reflexivity.
    + apply String.eqb_neq in Hr.
      unfold Async.postConfirm, Routes.tryCatch, Routes.bind.
      rewrite Hr. reflexivity.
    + destruct Hr as [v Hv].
      unfold Async.postResendConfirmation, Routes.tryCatch, Routes.bind, Routes.lift.
      rewrite Hv. reflexivity.
  - intros S storage r s. apply resolving_handle.
Qed.

(** The four routes over a database that is down. *)
Lemma error_responses_carry_a_message_witness :
  let down :=
    (Routes.respond 500 [("message", Routes.JString "Internal server error")], tt) in
  Async.handle SampleRequest.looksLikeEmail SampleRequest.typeMessage None
    (storage := unreachable)
    (Join "id-1" "token-A" 1000%Z SampleRequest.goodBody) tt = down /\
  Async.handle SampleRequest.looksLikeEmail SampleRequest.typeMessage None
    (storage := unreachable) Count tt = down /\
  Async.handle SampleRequest.looksLikeEmail SampleRequest.typeMessage None
    (storage := unreachable) (Confirm 2000%Z "token-A") tt = down /\
  Async.handle SampleRequest.looksLikeEmail SampleRequest.typeMessage None
    (storage := unreachable) (Resend "token-C" SampleRequest.goodBody) tt = down.
Proof.
  destruct (error_responses_carry_a_message SampleRequest.looksLikeEmail
              SampleRequest.typeMessage None) as (_ & T & _).
  split; [|split; [|split]]; apply T; simpl.
  - eexists. reflexivity.
  - exact I.
  - discriminate.
  - eexists. reflexivity.
Defined.

(** X13. A request that is not answered 200 or 201 leaves the store exactly
    as it was, on either store: a refused or failed request has no effect. *)
Theorem refused_requests_change_nothing (isEmail : string -> bool)
    (invalidType : string -> option Routes.Json -> string)
    (NODE_ENV : option string) (r : Request) :
  (forall s : MemStorage.t,
      snd (handle isEmail invalidType NODE_ENV r s) = s \/
      Routes.status (fst (handle isEmail invalidType NODE_ENV r s)) = 200 \/
      Routes.status (fst (handle isEmail invalidType NODE_ENV r s)) = 201) /\
  (forall s : DatabaseStorage.t,
      snd (handle isEmail invalidType NODE_ENV r s) = s \/
      Routes.status (fst (handle isEmail invalidType NODE_ENV r s)) = 200 \/
      Routes.status (fst (handle isEmail invalidType NODE_ENV r s)) = 201).
Proof.
  split; intros s; destruct r as [id token now body| |now token|newToken body];
    simpl; auto.
  - destruct (postWaitlist_outcome isEmail invalidType id token now body s)
      as [(errors & _ & ->)|[(e & w & _ & _ & ->)|[(e & w & s' & _ & _ & _ & ->)
         |(e & exn & s' & _ & _ & A & ->)]]]; simpl; auto.
    discriminate A.
  - destruct (postConfirm_outcome now token s)
      as [[_ ->]|[(s' & _ & C & ->)|(w & s' & _ & _ & ->)]]; simpl; auto.
    left. exact (mem_confirmEmail_absent _ _ _ _ C).
  - destruct (postResendConfirmation_outcome isEmail invalidType NODE_ENV newToken body s)
      as [(errors & _ & ->)|[(e & _ & _ & ->)|[(e & w & _ & _ & _ & ->)
         |[(e & w & t & s' & _ & _ & _ & _ & ->)
          |(e & w & exn & s' & _ & _ & _ & R & ->)]]]]; simpl; auto.
    left. exact (proj2 (mem_regenerate_throw _ _ _ _ _ R)).
  - destruct (postWaitlist_outcome isEmail invalidType id token now body s)
      as [(errors & _ & ->)|[(e & w & _ & _ & ->)|[(e & w & s' & _ & _ & _ & ->)
         |(e & exn & s' & _ & _ & A & ->)]]]; simpl; auto.
    left. exact (proj1 (db_addToWaitlist_throw _ _ _ _ _ _ _ A)).
  - destruct (postConfirm_outcome now token s)
      as [[_ ->]|[(s' & _ & C & ->)|(w & s' & _ & _ & ->)]]; simpl; auto.
    left. exact (db_confirmEmail_absent _ _ _ _ C).
  - destruct (postResendConfirmation_outcome isEmail invalidType NODE_ENV newToken body s)
      as [(errors & _ & ->)|[(e & _ & _ & ->)|[(e & w & _ & _ & _ & ->)
         |[(e & w & t & s' & _ & _ & _ & _ & ->)
          |(e & w & exn & s' & _ & _ & _ & R & ->)]]]]; simpl; auto.
    left. exact (proj1 (db_regenerate_throw _ _ _ _ _ R)).
Qed.

(** ** The confirm route *)

Lemma mem_postConfirm_status now token (s : MemStorage.t) :
  MemStorage.invariant s ->
  Routes.status (fst (Routes.postConfirm now token s)) =
  if String.eqb token "" then 400
  else match MemStorage.getWaitlistEmailByToken token s with
       | Some w => if WaitlistEmail.confirmed w then 404 else 200
       | None => 404
       end.
Proof.
  intros Hinv.
  destruct (mem_confirmEmail_lookup now token s Hinv) as [Hfst _].
  destruct (postConfirm_outcome now token s)
    as [[-> ->]|[(s' & Hne & C & ->)|(w & s' & Hne & C & ->)]]; simpl.
  - reflexivity.
  - apply String.eqb_neq in Hne. rewrite Hne.
    simpl in C. rewrite C in Hfst. simpl in Hfst.
    destruct (MemStorage.getWaitlistEmailByToken token s) as [w|]; auto.
    destruct (WaitlistEmail.confirmed w); [reflexivity | discriminate].
  - apply String.eqb_neq in Hne. rewrite Hne.
    simpl in C. rewrite C in Hfst. simpl in Hfst.
    destruct (MemStorage.getWaitlistEmailByToken token s) as [w0|]; [|discriminate].
    destruct (WaitlistEmail.confirmed w0); [discriminate | reflexivity].
Qed.

Lemma db_postConfirm_status now token (s : DatabaseStorage.t) :
  NoDup (tokens (DatabaseStorage.rows s)) ->
  Routes.status (fst (Routes.postConfirm now token s)) =
  if String.eqb token "" then 400
  else match DatabaseStorage.getWaitlistEmailByToken token s with
       | Some w => if WaitlistEmail.confirmed w then 404 else 200
       | None => 404
       end.
Proof.
  intros Hinv.
  destruct (db_confirmEmail_lookup now token s Hinv) as [Hfst _].
  destruct (postConfirm_outcome now token s)
    as [[-> ->]|[(s' & Hne & C & ->)|(w & s' & Hne & C & ->)]]; simpl.
  - reflexivity.
  - apply String.eqb_neq in Hne. rewrite Hne.
    simpl in C. rewrite C in Hfst. simpl in Hfst.
    destruct (DatabaseStorage.getWaitlistEmailByToken token s) as [w|]; auto.
    destruct (WaitlistEmail.confirmed w); [reflexivity | discriminate].
  - apply String.eqb_neq in Hne. rewrite Hne.
    simpl in C. rewrite C in Hfst. simpl in Hfst.
    destruct (DatabaseStorage.getWaitlistEmailByToken token s) as [w0|]; [|discriminate].
    destruct (WaitlistEmail.confirmed w0); [discriminate | reflexivity].
Qed.

Lemma mem_postConfirm_replay now now' token (s : MemStorage.t) :
  MemStorage.invariant s ->
  Routes.status
    (fst (Routes.postConfirm now' token (snd (Routes.postConfirm now token s))))
  <> 200.
Proof.
  intros H0. assert (Hinv := H0).
  assert (Hafter :
    Routes.status
      (fst (Routes.postConfirm now' token (snd (MemStorage.confirmEmail now token s))))
    <> 200).
  { assert (Hinv1 := mem_invariant_call (ConfirmEmail now token) s Hinv I).
    rewrite mem_postConfirm_status by exact Hinv1.
    destruct (String.eqb token ""); [discriminate|].
    destruct (mem_confirmEmail_lookup now token s Hinv) as [_ Hsnd].
    rewrite Hsnd.
    destruct (MemStorage.getWaitlistEmailByToken token s) as [w|]; [|discriminate].
    destruct (WaitlistEmail.confirmed w) eqn:C; [rewrite C|]; discriminate. }
  destruct (postConfirm_outcome now token s)
    as [[-> ->]|[(s' & _ & C & ->)|(w & s' & _ & C & ->)]]; cbn [snd].
  - rewrite mem_postConfirm_status by assumption. discriminate.
  - simpl in C. rewrite C in Hafter. exact Hafter.
  - simpl in C. rewrite C in Hafter. exact Hafter.
Qed.

Lemma db_postConfirm_replay now now' token (s : DatabaseStorage.t) :
  DatabaseStorage.constraints s ->
  Routes.status
    (fst (Routes.postConfirm now' token (snd (Routes.postConfirm now token s))))
  <> 200.
Proof.
  intros H0. assert (Hinv : NoDup (tokens (DatabaseStorage.rows s))) by apply H0.
  assert (Hafter :
    Routes.status
      (fst (Routes.postConfirm now' token (snd (DatabaseStorage.confirmEmail now token s))))
    <> 200).
  { assert (Hc1 := db_constraints_call (ConfirmEmail now token) s H0).
    rewrite db_postConfirm_status by apply Hc1.
    destruct (String.eqb token ""); [discriminate|].
    destruct (db_confirmEmail_lookup now token s Hinv) as [_ Hsnd].
    rewrite Hsnd.
    destruct (DatabaseStorage.getWaitlistEmailByToken token s) as [w|]; [|discriminate].
    destruct (WaitlistEmail.confirmed w) eqn:C; [rewrite C|]; discriminate. }
  destruct (postConfirm_outcome now token s)
    as [[-> ->]|[(s' & _ & C & ->)|(w & s' & _ & C & ->)]]; cbn [snd].
  - rewrite db_postConfirm_status by assumption. discriminate.
  - simpl in C. rewrite C in Hafter. exact Hafter.
  - simpl in C. rewrite C in Hafter. exact Hafter.
Qed.

(** X14. [POST /api/waitlist/confirm/:token], on a store with unique
    tokens: an empty token is answered 400 (even if an entry held the empty
    token); otherwise the answer is 200 exactly when the token is that of
    an unconfirmed entry, and 404 when it is unknown or belongs to a
    confirmed entry. Sending the same request again is never answered 200. *)
Theorem postConfirm_single_use :
  (forall now now' token (s : MemStorage.t),
      MemStorage.invariant s ->
      Routes.status (fst (Routes.postConfirm now token s)) =
        (if String.eqb token "" then 400
         else match MemStorage.getWaitlistEmailByToken token s with
              | Some w => if WaitlistEmail.confirmed w then 404 else 200
              | None => 404
              end) /\
      Routes.status
        (fst (Routes.postConfirm now' token (snd (Routes.postConfirm now token s))))
      <> 200) /\
  (forall now now' token (s : DatabaseStorage.t),
      DatabaseStorage.constraints s ->
      Routes.status (fst (Routes.postConfirm now token s)) =
        (if String.eqb token "" then 400
         else match DatabaseStorage.getWaitlistEmailByToken token s with
              | Some w => if WaitlistEmail.confirmed w then 404 else 200
              | None => 404
              end) /\
      Routes.status
        (fst (Routes.postConfirm now' token (snd (Routes.postConfirm now token s))))
      <> 200).
Proof.
  split.
  - intros now now' token s Hinv. split.
    + now apply mem_postConfirm_status.
    + now apply mem_postConfirm_replay.
  - intros now now' token s Hc. split.
    + apply db_postConfirm_status. apply Hc.
    + now apply db_postConfirm_replay.
Qed.

Lemma postConfirm_single_use_witness :
  Routes.status (fst (Routes.postConfirm 2000%Z "token-A" Sample.memPending)) = 200 /\
  Routes.status (fst (Routes.postConfirm 2000%Z "token-A" Sample.dbPending)) = 200 /\
  Routes.status
    (fst (Routes.postConfirm 2500%Z "token-A"
            (snd (Routes.postConfirm 2000%Z "token-A" Sample.dbPending)))) <> 200.
Proof.
  destruct postConfirm_single_use as [T1 T2].
  split; [|split].
  - rewrite (proj1 (T1 2000%Z 2500%Z "token-A" Sample.memPending
                      (proj1 sample_mem_invariant))).
    reflexivity.
  - rewrite (proj1 (T2 2000%Z 2500%Z "token-A" Sample.dbPending
                      (proj1 sample_db_constraints))).
    reflexivity.
  - exact (proj2 (T2 2000%Z 2500%Z "token-A" Sample.dbPending
                    (proj1 sample_db_constraints))).
Defined.

(** ** The resend route *)

(** X15. [POST /api/waitlist/resend-confirmation]: a valid email that is
    not on the list is answered 404 and nothing changes, whatever the
    storage; for the email of an unconfirmed entry the answer is 200, the
    generated token is now the entry's, and the body names that token when
    [NODE_ENV] is "development" and only then (in the database: for a token
    that no row carries). *)
Theorem postResendConfirmation_spec (isEmail : string -> bool)
    (invalidType : string -> option Routes.Json -> string)
    (NODE_ENV : option string) :
  (forall S (storage : IStorage S) newToken fields email (s : S),
      Routes.field "email" fields = Some (Routes.JString email) ->
      isEmail email = true ->
      getWaitlistEmail email s = None ->
      Routes.postResendConfirmation isEmail invalidType NODE_ENV newToken
        (Some (Routes.JObject fields)) s =
      (Routes.respond 404
         [("message", Routes.JString "Email not found in waitlist")], s)) /\
  (forall newToken fields email (s : MemStorage.t) w,
      Routes.field "email" fields = Some (Routes.JString email) ->
      isEmail email = true ->
      MemStorage.getWaitlistEmail email s = Some w ->
      WaitlistEmail.confirmed w = false ->
      exists s',
        Routes.postResendConfirmation isEmail invalidType NODE_ENV newToken
          (Some (Routes.JObject fields)) s =
        (Routes.respond 200
           (("message", Routes.JString "Confirmation email resent") ::
            if match NODE_ENV with
               | Some env => String.eqb env "development"
               | None => false
               end
            then [("token", Routes.JString newToken)] else []), s') /\
        MemStorage.getWaitlistEmail email s' = Some (withToken newToken w)) /\
  (forall newToken fields email (s : DatabaseStorage.t) w,
      Routes.field "email" fields = Some (Routes.JString email) ->
      isEmail email = true ->
      DatabaseStorage.constraints s ->
      DatabaseStorage.getWaitlistEmail email s = Some w ->
      WaitlistEmail.confirmed w = false ->
      ~ In newToken (tokens (DatabaseStorage.rows s)) ->
      exists s',
        Routes.postResendConfirmation isEmail invalidType NODE_ENV newToken
          (Some (Routes.JObject fields)) s =
        (Routes.respond 200
           (("message", Routes.JString "Confirmation email resent") ::
            if match NODE_ENV with
               | Some env => String.eqb env "development"
               | None => false
               end
            then [("token", Routes.JString newToken)] else []), s') /\
        DatabaseStorage.getWaitlistEmail email s' = Some (withToken newToken w)).
Proof.
  split; [|split].
  - intros S storage newToken fields email s Hf He Hget.
    unfold Routes.postResendConfirmation, Routes.tryCatch, Routes.bind, Routes.lift,
      Routes.await, Routes.ret.
    rewrite (parse_accepts _ _ _ _ Hf He). simpl. now rewrite Hget.
  - intros newToken fields email s w Hf He Hget Hc.
    eexists. split.
    + unfold Routes.postResendConfirmation, Routes.tryCatch, Routes.bind, Routes.lift,
        Routes.await, Routes.ret.
      rewrite (parse_accepts _ _ _ _ Hf He). simpl. rewrite Hget, Hc.
      unfold MemStorage.regenerateConfirmationToken.
      unfold MemStorage.getWaitlistEmail in Hget. rewrite Hget.
      rewrite development_cases. reflexivity.
    + unfold MemStorage.getWaitlistEmail. simpl. apply JsMap_get_set_same.
  - intros newToken fields email s w Hf He Hcon Hget Hc Hfresh.
    destruct (db_regenerate_at newToken email s w Hcon Hget Hfresh)
      as (l1 & l2 & Hs & Hregen).
    eexists. split.
    + unfold Routes.postResendConfirmation, Routes.tryCatch, Routes.bind, Routes.lift,
        Routes.await, Routes.ret.
      rewrite (parse_accepts _ _ _ _ Hf He). simpl. rewrite Hget, Hc.
      rewrite Hregen. rewrite development_cases. reflexivity.
    + destruct Hcon as (_ & Hemail & _).
      destruct (db_getWaitlistEmail_split email s w Hemail Hget) as (Hw & _).
      rewrite <- Hw. rewrite Hs in Hemail. now apply db_getWaitlistEmail_at.
Qed.

Lemma postResendConfirmation_spec_witness :
  Routes.body
    (fst (Routes.postResendConfirmation SampleRequest.looksLikeEmail
            SampleRequest.typeMessage (Some "development") "token-C"
            SampleRequest.goodBody Sample.memPending))
  = [("message", Routes.JString "Confirmation email resent");
     ("token", Routes.JString "token-C")] /\
  Routes.body
    (fst (Routes.postResendConfirmation SampleRequest.looksLikeEmail
            SampleRequest.typeMessage (Some "production") "token-C"
            SampleRequest.goodBody Sample.dbPending))
  = [("message", Routes.JString "Confirmation email resent")] /\
  Routes.status
    (fst (Routes.postResendConfirmation SampleRequest.looksLikeEmail
            SampleRequest.typeMessage None "token-C"
            SampleRequest.goodBody DatabaseStorage.new))
  = 404.
Proof.
  unfold SampleRequest.goodBody. split; [|split].
  - destruct (proj1 (proj2 (postResendConfirmation_spec SampleRequest.looksLikeEmail
                              SampleRequest.typeMessage (Some "development")))
                "token-C" [("email", Routes.JString "a@b.com")] "a@b.com"
                Sample.memPending Sample.pending eq_refl eq_refl eq_refl eq_refl)
      as (s' & H & _).
    rewrite H. reflexivity.
  - destruct (proj2 (proj2 (postResendConfirmation_spec SampleRequest.looksLikeEmail
                              SampleRequest.typeMessage (Some "production")))
                "token-C" [("email", Routes.JString "a@b.com")] "a@b.com"
                Sample.dbPending Sample.pending eq_refl eq_refl
                (proj1 sample_db_constraints) eq_refl eq_refl (proj2 sample_fresh))
      as (s' & H & _).
    rewrite H. reflexivity.
  - rewrite (proj1 (postResendConfirmation_spec SampleRequest.looksLikeEmail
                      SampleRequest.typeMessage None)
               _ databaseStorage "token-C" [("email", Routes.JString "a@b.com")]
               "a@b.com" DatabaseStorage.new eq_refl eq_refl eq_refl).
    reflexivity.
Defined.

(** ** When a generated value is taken *)

Lemma find_some_filter {A} (p : A -> bool) (l : list A) x :
  find p l = Some x -> exists rest, filter p l = x :: rest.
Proof.
  induction l as [|a l IH]; simpl; [discriminate|].
  destruct (p a); intros H.
  - injection H as ->. eauto.
  - auto.
Qed.

Lemma db_regenerate_clash newToken email (s : DatabaseStorage.t) w r :
  DatabaseStorage.getWaitlistEmail email s = Some w ->
  In r (DatabaseStorage.rows s) ->
  WaitlistEmail.email r <> email ->
  tokenIs newToken r = true ->
  DatabaseStorage.regenerateConfirmationToken newToken email s =
  (Throw (UniqueViolation "confirmation_token"), s).
Proof.
  intros Hget Hr Hne Htok.
  unfold DatabaseStorage.regenerateConfirmationToken, DatabaseStorage.updateToken.
  destruct (find_some_filter _ _ _ Hget) as [rest ->].
  assert (E : existsb (fun r0 => negb (String.eqb (WaitlistEmail.email r0) email)
                                 && tokenIs newToken r0)
                (DatabaseStorage.waitlistEmails s) = true).
  { apply existsb_exists. exists r. split; auto.
    apply String.eqb_neq in Hne. now rewrite Hne, Htok. }
  now rewrite E.
Qed.

(** X16. In the database a generated value that is already taken surfaces
    as a 500 with the generic message, and nothing is stored: a join whose
    generated id or token is that of a row, and a resend whose generated
    token is that of another entry. *)
Theorem db_taken_values_answer_500 (isEmail : string -> bool)
    (invalidType : string -> option Routes.Json -> string)
    (NODE_ENV : option string) :
  (forall id token now fields email (s : DatabaseStorage.t),
      Routes.field "email" fields = Some (Routes.JString email) ->
      isEmail email = true ->
      DatabaseStorage.getWaitlistEmail email s = None ->
      In id (map WaitlistEmail.id (DatabaseStorage.rows s)) \/
      In token (tokens (DatabaseStorage.rows s)) ->
      Routes.postWaitlist isEmail invalidType id token now
        (Some (Routes.JObject fields)) s =
      (Routes.respond 500 [("message", Routes.JString "Internal server error")], s)) /\
  (forall newToken fields email (s : DatabaseStorage.t) w r,
      Routes.field "email" fields = Some (Routes.JString email) ->
      isEmail email = true ->
      DatabaseStorage.getWaitlistEmail email s = Some w ->
      WaitlistEmail.confirmed w = false ->
      In r (DatabaseStorage.rows s) ->
      WaitlistEmail.email r <> email ->
      WaitlistEmail.confirmationToken r = Some newToken ->
      Routes.postResendConfirmation isEmail invalidType NODE_ENV newToken
        (Some (Routes.JObject fields)) s =
      (Routes.respond 500 [("message", Routes.JString "Internal server error")], s)).
Proof.
  split.
  - intros id token now fields email s Hf He Hget Htaken.
    assert (P := parse_accepts isEmail invalidType _ _ Hf He).
    destruct (postWaitlist_outcome isEmail invalidType id token now
                (Some (Routes.JObject fields)) s)
      as [(errors & P' & _)|[(e & w & P' & G & _)|[(e & w & s' & P' & _ & A & _)
         |(e & exn & s' & P' & _ & A & ->)]]].
    + congruence.
    + rewrite P in P'. injection P' as <-. simpl in G. congruence.
    + exfalso. rewrite P in P'. injection P' as <-. simpl in A.
      unfold DatabaseStorage.addToWaitlist in A.
      destruct (db_insert_cases
                  (WaitlistEmail.mk id email now false (Some token) None)
                  (DatabaseStorage.waitlistEmails s))
        as [[column Hi]|(_ & Hid & _ & Htok)]; simpl in *.
      * rewrite Hi in A. discriminate.
      * destruct Htaken; contradiction.
    + destruct (db_addToWaitlist_throw _ _ _ _ _ _ _ A) as [-> [column ->]].
      reflexivity.
  - intros newToken fields email s w r Hf He Hget Hc Hr Hne Htok.
    unfold Routes.postResendConfirmation, Routes.tryCatch, Routes.bind, Routes.lift,
      Routes.await, Routes.ret.
    rewrite (parse_accepts _ _ _ _ Hf He). simpl. rewrite Hget, Hc.
    rewrite (db_regenerate_clash newToken email s w r Hget Hr Hne).
    + reflexivity.
    + now apply tokenIs_true.
Qed.

Lemma db_taken_values_answer_500_witness :
  Routes.postWaitlist SampleRequest.looksLikeEmail SampleRequest.typeMessage
    "id-2" "token-A" 3000%Z
    (Some (Routes.JObject [("email", Routes.JString "c@d.org")])) Sample.dbPending
  = (Routes.respond 500 [("message", Routes.JString "Internal server error")],
     Sample.dbPending) /\
  Routes.status
    (fst (Routes.postResendConfirmation SampleRequest.looksLikeEmail
            SampleRequest.typeMessage None "token-Z" SampleRequest.goodBody
            (DatabaseStorage.mk []
               [Sample.pending;
                WaitlistEmail.mk "id-0" "c@d.org" 500%Z false (Some "token-Z") None])))
  = 500.
Proof.
  destruct (db_taken_values_answer_500 SampleRequest.looksLikeEmail
              SampleRequest.typeMessage None) as [T1 T2].
  split.
  - apply T1 with (email := "c@d.org").
    + reflexivity.
    + reflexivity.
    + reflexivity.
    + right. simpl. now left.
  - unfold SampleRequest.goodBody.
    rewrite (T2 "token-Z" [("email", Routes.JString "a@b.com")] "a@b.com"
               (DatabaseStorage.mk []
                  [Sample.pending;
                   WaitlistEmail.mk "id-0" "c@d.org" 500%Z false (Some "token-Z") None])
               Sample.pending
               (WaitlistEmail.mk "id-0" "c@d.org" 500%Z false (Some "token-Z") None)
               eq_refl eq_refl eq_refl eq_refl).
    + reflexivity.
    + simpl. right. now left.
    + discriminate.
    + reflexivity.
Defined.

(** ** Runs of requests *)


Section RequestTrace.
Variable isEmail : string -> bool.
Variable invalidType : string -> option Routes.Json -> string.
Variable NODE_ENV : option string.
Context {S : Type} {storage : IStorage S}.

End RequestTrace.




Section Served.
Variable isEmail : string -> bool.
Variable invalidType : string -> option Routes.Json -> string.
Variable NODE_ENV : option string.




End Served.

(** Requests served one at a time, each handler running to its response
    before the next one starts ([serve]), keep every confirmed entry
    settled from an empty store on. Not so when handlers overlap: see the
    resend handler below. *)
Lemma serial_requests_keep_settled (isEmail : string -> bool)
    (invalidType : string -> option Routes.Json -> string)
    (NODE_ENV : option string) (rs : list Request) :
  Forall settled
    (MemStorage.rows (snd (serve isEmail invalidType NODE_ENV rs MemStorage.new))) /\
  Forall settled
    (DatabaseStorage.rows
       (snd (serve isEmail invalidType NODE_ENV rs DatabaseStorage.new))).
Proof.
  split.
  - assert (H : forall s : MemStorage.t,
               Forall settled (MemStorage.rows s) ->
               Forall settled
                 (MemStorage.rows (snd (serve isEmail invalidType NODE_ENV rs s)))).
    { induction rs as [|r rs IH]; intros s Hs; cbn [serve]; auto.
      assert (Hr : Forall settled
                     (MemStorage.rows (snd (handle isEmail invalidType NODE_ENV r s)))).
      { destruct r as [id token now body| |now token|newToken body]; simpl.
        - apply (mem_routes_keep_settled isEmail invalidType NODE_ENV
                   id token "" now body s Hs).
        - apply (mem_routes_keep_settled isEmail invalidType NODE_ENV
                   "" "" "" 0%Z None s Hs).
        - apply (mem_routes_keep_settled isEmail invalidType NODE_ENV
                   "" token "" now None s Hs).
        - apply (mem_routes_keep_settled isEmail invalidType NODE_ENV
                   "" "" newToken 0%Z body s Hs). }
      destruct (handle isEmail invalidType NODE_ENV r s) as [resp s1].
      specialize (IH s1 Hr).
      destruct (serve isEmail invalidType NODE_ENV rs s1). exact IH. }
    apply H. constructor.
  - assert (H : forall s : DatabaseStorage.t,
               Forall settled (DatabaseStorage.rows s) ->
               Forall settled
                 (DatabaseStorage.rows (snd (serve isEmail invalidType NODE_ENV rs s)))).
    { induction rs as [|r rs IH]; intros s Hs; cbn [serve]; auto.
      assert (Hr : Forall settled
                     (DatabaseStorage.rows
                        (snd (handle isEmail invalidType NODE_ENV r s)))).
      { destruct r as [id token now body| |now token|newToken body]; simpl.
        - apply (db_routes_keep_settled isEmail invalidType NODE_ENV
                   id token "" now body s Hs).
        - apply (db_routes_keep_settled isEmail invalidType NODE_ENV
                   "" "" "" 0%Z None s Hs).
        - apply (db_routes_keep_settled isEmail invalidType NODE_ENV
                   "" token "" now None s Hs).
        - apply (db_routes_keep_settled isEmail invalidType NODE_ENV
                   "" "" newToken 0%Z body s Hs). }
      destruct (handle isEmail invalidType NODE_ENV r s) as [resp s1].
      specialize (IH s1 Hr).
      destruct (serve isEmail invalidType NODE_ENV rs s1). exact IH. }
    apply H. constructor.
Qed.

(** ** A confirmation between the two awaits of the resend handler *)

Lemma JsMap_get_at {V} k (v : V) (l1 l2 : JsMap.t V) :
  ~ In k (JsMap.keys l1) -> JsMap.get k (l1 ++ (k, v) :: l2) = Some v.
Proof.
  induction l1 as [|[k' v'] l1 IH]; simpl; intros Hk.
  - now rewrite String.eqb_refl.
  - destruct (String.eqb_spec k' k) as [->|Hne]; [tauto|]. apply IH. tauto.
Qed.

(** [confirmEmail] of the token of an entry, then
    [regenerateConfirmationToken] for its email: the entry ends confirmed
    and with the new token. *)
Lemma mem_confirm_then_regenerate now token newToken email (s : MemStorage.t) w :
  MemStorage.invariant s ->
  MemStorage.getWaitlistEmail email s = Some w ->
  WaitlistEmail.confirmationToken w = Some token ->
  WaitlistEmail.confirmed w = false ->
  exists s1 s2,
    MemStorage.confirmEmail now token s = (Some (markConfirmed now w), s1) /\
    MemStorage.regenerateConfirmationToken newToken email s1 = (Ok newToken, s2) /\
    MemStorage.getWaitlistEmail email s2
    = Some (withToken newToken (markConfirmed now w)).
Proof.
  intros Hinv Hget Htoken Hconfirmed.
  assert (Hc : confirmable token w = true) by now apply confirmable_true.
  assert (Hin : In (email, w) (MemStorage.waitlistEmails s))
    by now apply JsMap_get_entry.
  destruct (mem_locate token s email w Hinv Hin Hc) as (l1 & l2 & Hs & Hrest & Hk).
  assert (Hl1 : forall y, In y l1 -> confirmable token (snd y) = false).
  { intros y Hy. apply Hrest, in_or_app. now left. }
  rewrite (mem_confirmEmail_at now token s l1 email w l2 Hs Hl1 Hc Hk).
  eexists. eexists. split; [reflexivity|].
  unfold MemStorage.regenerateConfirmationToken, MemStorage.getWaitlistEmail.
  cbn [MemStorage.waitlistEmails MemStorage.users].
  rewrite (JsMap_get_at email (markConfirmed now w) l1 l2 Hk).
  split; [reflexivity|].
  cbn [MemStorage.waitlistEmails]. apply JsMap_get_set_same.
Qed.

Lemma db_confirm_then_regenerate now token newToken email (s : DatabaseStorage.t) w :
  DatabaseStorage.constraints s ->
  ~ In newToken (tokens (DatabaseStorage.rows s)) ->
  DatabaseStorage.getWaitlistEmail email s = Some w ->
  WaitlistEmail.confirmationToken w = Some token ->
  WaitlistEmail.confirmed w = false ->
  exists s1 s2,
    DatabaseStorage.confirmEmail now token s = (Some (markConfirmed now w), s1) /\
    DatabaseStorage.regenerateConfirmationToken newToken email s1 = (Ok newToken, s2) /\
    DatabaseStorage.getWaitlistEmail email s2
    = Some (withToken newToken (markConfirmed now w)).
Proof.
  intros Hcons Hfresh Hget Htoken Hconfirmed.
  assert (Hc : confirmable token w = true) by now apply confirmable_true.
  destruct Hcons as (Hid & Hemail & Htok).
  destruct (db_getWaitlistEmail_split email s w Hemail Hget)
    as (Hw & l1 & l2 & Hs & _).
  assert (Hrest : forall y, In y (l1 ++ l2) -> confirmable token y = false).
  { apply (confirmable_unique token w); auto. now rewrite <- Hs. }
  assert (Hconfirm := db_confirmEmail_at now token s l1 w l2 Hs Hrest Hc).
  assert (Hcons1 : DatabaseStorage.constraints (call (ConfirmEmail now token) s)).
  { apply db_constraints_call. repeat split; assumption. }
  cbn [call confirmEmail databaseStorage] in Hcons1.
  rewrite Hconfirm in Hcons1. cbn [snd] in Hcons1.
  set (s1 := DatabaseStorage.mk (DatabaseStorage.users s)
               (l1 ++ markConfirmed now w :: l2)) in *.
  assert (Hget1 : DatabaseStorage.getWaitlistEmail email s1
                  = Some (markConfirmed now w)).
  { subst s1. rewrite <- Hw.
    apply db_getWaitlistEmail_at; [now rewrite <- Hs | reflexivity]. }
  assert (Hfresh1 : ~ In newToken (tokens (DatabaseStorage.rows s1))).
  { intros Habs. apply Hfresh. unfold DatabaseStorage.rows in *. rewrite Hs.
    subst s1. simpl in Habs. rewrite tokens_app in *. simpl in *.
    rewrite Htoken. apply in_app_or in Habs as [Habs|Habs];
      apply in_or_app; simpl; auto. }
  destruct (db_regenerate_at newToken email s1 (markConfirmed now w)
              Hcons1 Hget1 Hfresh1) as (l1' & l2' & Hs1 & Hregenerate).
  exists s1. eexists. split; [exact Hconfirm|]. split; [exact Hregenerate|].
  rewrite <- Hw.
  change (WaitlistEmail.email w) with (WaitlistEmail.email (markConfirmed now w)).
  apply db_getWaitlistEmail_at; [|reflexivity].
  rewrite <- Hs1. now destruct Hcons1 as (_ & He & _).
Qed.

Section ResendFacts.
Variable isEmail : string -> bool.
Variable invalidType : string -> option Routes.Json -> string.
Variable NODE_ENV : option string.
Context {S : Type} {storage : IStorage S}.

(** The handler is its lookup followed by its update. *)
Lemma resend_in_two_steps newToken body (s : S) :
  Routes.postResendConfirmation isEmail invalidType NODE_ENV newToken body s =
  match resendLookup isEmail invalidType body s with
  | inl response => (response, s)
  | inr validatedData => resendUpdate NODE_ENV newToken validatedData s
  end.
Proof.
  unfold Routes.postResendConfirmation, resendLookup, resendUpdate,
    Routes.tryCatch, Routes.bind, Routes.lift, Routes.await, Routes.ret.
  destruct (Routes.parse isEmail invalidType body) as [v|exn]; simpl; auto.
  destruct (getWaitlistEmail (InsertWaitlistEmail.email v) s) as [w|]; simpl; auto.
  destruct (WaitlistEmail.confirmed w); reflexivity.
Qed.

(** When the lookup lets the handler go on, the entry of the email is
    there and not confirmed. *)
Lemma resendLookup_passes body validatedData (s : S) :
  resendLookup isEmail invalidType body s = inr validatedData ->
  exists w,
    getWaitlistEmail (InsertWaitlistEmail.email validatedData) s = Some w /\
    WaitlistEmail.confirmed w = false.
Proof.
  unfold resendLookup.
  destruct (Routes.parse isEmail invalidType body) as [v|exn]; [|discriminate].
  destruct (getWaitlistEmail (InsertWaitlistEmail.email v) s) as [w|] eqn:G;
    [|discriminate].
  destruct (WaitlistEmail.confirmed w) eqn:C; [discriminate|].
  intros H. injection H as <-. now exists w.
Qed.
End ResendFacts.

(** X17. The resend handler checks that the entry is not confirmed in one
    await and writes the new token in the next: it is its lookup followed
    by its update. When the entry is confirmed in between, by a confirm
    request for its token served after the lookup and before the update,
    both requests are answered 200 and the entry ends confirmed and
    carrying the new token, against the invariant of confirmed entries. On
    either store; in the database the new token is one no row carries. *)
Theorem resend_overtaken_by_confirm (isEmail : string -> bool)
    (invalidType : string -> option Routes.Json -> string)
    (NODE_ENV : option string) :
  (forall S (storage : IStorage S) newToken body (s : S),
      Routes.postResendConfirmation isEmail invalidType NODE_ENV newToken body s =
      match resendLookup isEmail invalidType body s with
      | inl response => (response, s)
      | inr validatedData => resendUpdate NODE_ENV newToken validatedData s
      end) /\
  (forall body validatedData newToken now token (s : MemStorage.t) w,
      MemStorage.invariant s ->
      resendLookup isEmail invalidType body s = inr validatedData ->
      MemStorage.getWaitlistEmail (InsertWaitlistEmail.email validatedData) s
      = Some w ->
      WaitlistEmail.confirmationToken w = Some token ->
      token <> "" ->
      let confirmation := Routes.postConfirm now token s in
      let update :=
        resendUpdate NODE_ENV newToken validatedData (snd confirmation) in
      Routes.status (fst confirmation) = 200 /\
      Routes.status (fst update) = 200 /\
      exists w',
        MemStorage.getWaitlistEmail (InsertWaitlistEmail.email validatedData)
          (snd update) = Some w' /\
        WaitlistEmail.confirmed w' = true /\
        WaitlistEmail.confirmationToken w' = Some newToken /\
        ~ settled w') /\
  (forall body validatedData newToken now token (s : DatabaseStorage.t) w,
      DatabaseStorage.constraints s ->
      ~ In newToken (tokens (DatabaseStorage.rows s)) ->
      resendLookup isEmail invalidType body s = inr validatedData ->
      DatabaseStorage.getWaitlistEmail (InsertWaitlistEmail.email validatedData) s
      = Some w ->
      WaitlistEmail.confirmationToken w = Some token ->
      token <> "" ->
      let confirmation := Routes.postConfirm now token s in
      let update :=
        resendUpdate NODE_ENV newToken validatedData (snd confirmation) in
      Routes.status (fst confirmation) = 200 /\
      Routes.status (fst update) = 200 /\
      exists w',
        DatabaseStorage.getWaitlistEmail (InsertWaitlistEmail.email validatedData)
          (snd update) = Some w' /\
        WaitlistEmail.confirmed w' = true /\
        WaitlistEmail.confirmationToken w' = Some newToken /\
        ~ settled w').
Proof.
  assert (Hbad : forall now newToken w,
             ~ settled (withToken newToken (markConfirmed now w))).
  { intros now newToken w H. destruct (H eq_refl) as [_ Habs]. discriminate Habs. }
  split; [|split].
  - intros S storage newToken body s. apply resend_in_two_steps.
  - intros body v newToken now token s w Hinv Hlookup Hget Htoken Hne.
    destruct (resendLookup_passes isEmail invalidType body v s Hlookup)
      as (w0 & Hget0 & Hconfirmed).
    change (MemStorage.getWaitlistEmail (InsertWaitlistEmail.email v) s = Some w0)
      in Hget0.
    assert (w0 = w) by congruence. subst w0.
    destruct (mem_confirm_then_regenerate now token newToken _ s w
                Hinv Hget Htoken Hconfirmed) as (s1 & s2 & H1 & H2 & H3).
    apply String.eqb_neq in Hne.
    unfold Routes.postConfirm, resendUpdate, Routes.tryCatch, Routes.bind,
      Routes.run, Routes.ret.
    rewrite Hne. cbn [confirmEmail memStorage]. rewrite H1.
    cbn [fst snd regenerateConfirmationToken memStorage]. rewrite H2.
    cbn [fst snd Routes.status].
    split; [reflexivity|]. split; [reflexivity|].
    eexists. split; [exact H3|]. split; [reflexivity|]. split; [reflexivity|].
    apply Hbad.
  - intros body v newToken now token s w Hcons Hfresh Hlookup Hget Htoken Hne.
    destruct (resendLookup_passes isEmail invalidType body v s Hlookup)
      as (w0 & Hget0 & Hconfirmed).
    change (DatabaseStorage.getWaitlistEmail (InsertWaitlistEmail.email v) s
            = Some w0) in Hget0.
    assert (w0 = w) by congruence. subst w0.
    destruct (db_confirm_then_regenerate now token newToken _ s w
                Hcons Hfresh Hget Htoken Hconfirmed) as (s1 & s2 & H1 & H2 & H3).
    apply String.eqb_neq in Hne.
    unfold Routes.postConfirm, resendUpdate, Routes.tryCatch, Routes.bind,
      Routes.run, Routes.ret.
    rewrite Hne. cbn [confirmEmail databaseStorage]. rewrite H1.
    cbn [fst snd regenerateConfirmationToken databaseStorage]. rewrite H2.
    cbn [fst snd Routes.status].
    split; [reflexivity|]. split; [reflexivity|].
    eexists. split; [exact H3|]. split; [reflexivity|]. split; [reflexivity|].
    apply Hbad.
Qed.

(** [a@b.com] has signed up; its resend request has looked it up when its
    confirm request is served. *)
Lemma resend_overtaken_by_confirm_witness :
  (let confirmation := Routes.postConfirm 2000%Z "token-A" Sample.memPending in
   let update :=
     resendUpdate None "token-C" Sample.address (snd confirmation) in
   Routes.status (fst confirmation) = 200 /\
   Routes.status (fst update) = 200 /\
   exists w',
     MemStorage.getWaitlistEmail "a@b.com" (snd update) = Some w' /\
     WaitlistEmail.confirmed w' = true /\
     WaitlistEmail.confirmationToken w' = Some "token-C" /\
     ~ settled w') /\
  (let confirmation := Routes.postConfirm 2000%Z "token-A" Sample.dbPending in
   let update :=
     resendUpdate None "token-C" Sample.address (snd confirmation) in
   Routes.status (fst confirmation) = 200 /\
   Routes.status (fst update) = 200 /\
   exists w',
     DatabaseStorage.getWaitlistEmail "a@b.com" (snd update) = Some w' /\
     WaitlistEmail.confirmed w' = true /\
     WaitlistEmail.confirmationToken w' = Some "token-C" /\
     ~ settled w').
Proof.
  destruct (resend_overtaken_by_confirm SampleRequest.looksLikeEmail
              SampleRequest.typeMessage None) as (_ & T1 & T2).
  split.
  - apply (T1 SampleRequest.goodBody Sample.address "token-C" 2000%Z "token-A"
              Sample.memPending Sample.pending).
    + apply sample_mem_invariant.
    + reflexivity.
    + reflexivity.
    + reflexivity.
    + discriminate.
  - apply (T2 SampleRequest.goodBody Sample.address "token-C" 2000%Z "token-A"
              Sample.dbPending Sample.pending).
    + apply sample_db_constraints.
    + apply sample_fresh.
    + reflexivity.
    + reflexivity.
    + reflexivity.
    + discriminate.
Defined.




(** ** The typing animation *)

Lemma append_empty_r s : String.append s "" = s.
Proof. induction s as [|c s IH]; simpl; congruence. Qed.

Lemma append_assoc a b c :
  String.append (String.append a b) c = String.append a (String.append b c).
Proof. induction a as [|x a IH]; simpl; congruence. Qed.

Lemma substring_whole s : substring 0 (String.length s) s = s.
Proof. induction s as [|c s IH]; simpl; congruence. Qed.

Lemma substring_of_empty n m : substring n m "" = "".
Proof. destruct n, m; reflexivity. Qed.

(** Typing one more character extends the typed part of the line. *)
Lemma substring_next s n :
  n < String.length s ->
  substring 0 (Datatypes.S n) s = String.append (substring 0 n s) (substring n 1 s).
Proof.
  revert n. induction s as [|c s IH]; simpl; intros n Hn; [lia|].
  destruct n as [|n]; simpl.
  - now destruct s.
  - rewrite <- IH by lia. reflexivity.
Qed.

Lemma typed_app a b :
  Landing.typed (a ++ b) = String.append (Landing.typed a) (Landing.typed b).
Proof.
  induction a as [|l a IH]; simpl; auto.
  now rewrite IH, !append_assoc.
Qed.

Lemma firstn_next {A} (l : list A) i d :
  i < length l -> firstn (Datatypes.S i) l = firstn i l ++ [nth i l d].
Proof.
  revert i. induction l as [|a l IH]; simpl; intros i Hi; [lia|].
  destruct i as [|i]; simpl; auto.
  rewrite <- IH by lia. reflexivity.
Qed.

Lemma strokes_skipn lines i :
  i < length lines ->
  Landing.strokes (skipn i lines) =
  Datatypes.S (String.length (nth i lines "")) + Landing.strokes (skipn (Datatypes.S i) lines).
Proof.
  revert i. induction lines as [|l lines IH]; simpl; intros i Hi; [lia|].
  destruct i as [|i]; simpl; auto.
  rewrite IH by lia. reflexivity.
Qed.

Section TypingFacts.
Variable codeSnippets : list string.

Lemma shown_tick st :
  Landing.shown codeSnippets st ->
  Landing.shown codeSnippets (Landing.tick codeSnippets st) /\
  (Landing.currentLine st < length codeSnippets ->
   Datatypes.S (Landing.remaining codeSnippets (Landing.tick codeSnippets st)) = Landing.remaining codeSnippets st).
Proof.
  intros (Hline & Hchar & Htext). unfold Landing.tick, Landing.remaining, Landing.shown.
  destruct (Nat.ltb_spec (Landing.currentLine st) (length codeSnippets)) as [Hlt|Hge].
  - cbv zeta.
    destruct (Nat.ltb_spec (Landing.currentChar st)
                (String.length (nth (Landing.currentLine st) codeSnippets "")))
      as [Hc|Hc];
      cbn [Landing.currentLine Landing.currentChar Landing.typingText].
    + split.
      * split; [lia|]. split; [lia|].
        rewrite Htext, append_assoc. f_equal. symmetry. now apply substring_next.
      * intros _. rewrite (strokes_skipn _ _ Hlt). lia.
    + assert (Hend : Landing.currentChar st =
                     String.length (nth (Landing.currentLine st) codeSnippets ""))
        by lia.
      split.
      * split; [lia|]. split; [lia|].
        rewrite Htext, Hend, substring_whole.
        rewrite (firstn_next codeSnippets _ "" Hlt), typed_app.
        cbn [Landing.typed].
        assert (Hnone : forall s, substring 0 0 s = "") by (intros []; reflexivity).
        now rewrite Hnone, !append_empty_r, append_assoc.
      * intros _. rewrite (strokes_skipn _ _ Hlt). lia.
  - split; [split; [|split]; assumption | lia].
Qed.

Lemma shown_ticks n st :
  Landing.shown codeSnippets st -> Landing.shown codeSnippets (Landing.ticks codeSnippets n st).
Proof.
  revert st. induction n as [|n IH]; intros st H; simpl; auto.
  apply IH. now apply shown_tick.
Qed.

Lemma remaining_zero st :
  Landing.shown codeSnippets st -> Landing.remaining codeSnippets st = 0 ->
  st = Landing.typing (Landing.typed codeSnippets) (length codeSnippets) 0.
Proof.
  intros (Hline & Hchar & Htext) Hr. unfold Landing.remaining in Hr.
  assert (Hl : Landing.currentLine st = length codeSnippets).
  { destruct (Nat.lt_ge_cases (Landing.currentLine st) (length codeSnippets))
      as [Hlt|Hge]; [|lia].
    rewrite (strokes_skipn _ _ Hlt) in Hr. lia. }
  destruct st as [text line char]. simpl in *. subst line.
  rewrite nth_overflow in Hchar, Htext by lia. simpl in Hchar.
  assert (char = 0) by lia. subst char.
  rewrite firstn_all, substring_of_empty, append_empty_r in Htext.
  now subst text.
Qed.

Lemma ticks_count_down n st :
  Landing.shown codeSnippets st -> Landing.remaining codeSnippets st = n ->
  Landing.remaining codeSnippets (Landing.ticks codeSnippets n st) = 0.
Proof.
  revert st. induction n as [|n IH]; intros st H Hr; simpl; auto.
  destruct (shown_tick st H) as [H' Hstep].
  apply IH; auto.
  assert (Hlt : Landing.currentLine st < length codeSnippets).
  { destruct (Nat.lt_ge_cases (Landing.currentLine st) (length codeSnippets))
      as [Hlt|Hge]; auto.
    unfold Landing.remaining in Hr. rewrite skipn_all2 in Hr by assumption.
    simpl in Hr. lia. }
  specialize (Hstep Hlt). lia.
Qed.
End TypingFacts.

(** X20. The typing animation ends: started from the empty text, after one
    timer callback per character and one per line the text shown is every
    line of [codeSnippets], each followed by a newline and eight spaces;
    the position is past the last line, and further callbacks change
    nothing. *)
Theorem typing_completes (codeSnippets : list string) :
  Landing.ticks codeSnippets (Landing.strokes codeSnippets) Landing.start =
    Landing.typing (Landing.typed codeSnippets) (length codeSnippets) 0 /\
  forall n,
    Landing.ticks codeSnippets n
      (Landing.typing (Landing.typed codeSnippets) (length codeSnippets) 0) =
    Landing.typing (Landing.typed codeSnippets) (length codeSnippets) 0.
Proof.
  assert (Hstart : Landing.shown codeSnippets Landing.start).
  { unfold Landing.shown. simpl. split; [lia|]. split; [lia|].
    now destruct (nth 0 codeSnippets ""). }
  split.
  - apply remaining_zero.
    + now apply shown_ticks.
    + apply ticks_count_down; auto.
      unfold Landing.remaining. simpl. lia.
  - induction n as [|n IH]; simpl; auto.
    unfold Landing.tick at 1. simpl. rewrite Nat.ltb_irrefl. exact IH.
Qed.

(** X21. While it runs, the animation shows exactly the lines already
    ended followed by the characters typed of the current line: after any
    number of callbacks the text is the finished lines (each with its
    break) and then the first [currentChar] characters of line
    [currentLine], and the position stays within the array. *)
Theorem typing_shows_a_prefix (codeSnippets : list string) (n : nat) :
  let st := Landing.ticks codeSnippets n Landing.start in
  Landing.currentLine st <= length codeSnippets /\
  Landing.currentChar st <=
    String.length (nth (Landing.currentLine st) codeSnippets "") /\
  Landing.typingText st =
    String.append (Landing.typed (firstn (Landing.currentLine st) codeSnippets))
      (substring 0 (Landing.currentChar st)
         (nth (Landing.currentLine st) codeSnippets "")).
Proof.
  apply (shown_ticks codeSnippets n Landing.start).
  unfold Landing.shown. simpl. split; [lia|]. split; [lia|].
  now destruct (nth 0 codeSnippets "").
Qed.
